(** * tetris-tui: the game engine of [tetris.py], embedded and verified

    The development follows the source class by class: [Tetromino] (shape
    catalogue and rotation), [Board] (grid, collision test, line clearing),
    [TetrisGame] (score, level, spawning, locking) and, of [TetrisUI], the
    colour pairs, [draw_board] and the part of [handle_input] that drives
    the engine.

    Python integers are [Z], floats are IEEE binary64 ([PrimFloat]), a grid is
    a list of rows of one-character cells.  Methods run in a small state and
    exception monad; a list subscript out of range raises [IndexError] as in
    Python, and a negative subscript counts from the end. *)

From Stdlib Require Import ZArith String Ascii Bool Lia.
From Stdlib Require Import Floats.PrimFloat Floats.SpecFloat Floats.FloatOps.
From stdpp Require Import base tactics option list.

Open Scope Z_scope.
Set Warnings "-inexact-float".

(** ** Python values, exceptions and the method monad *)

Inductive exn : Type :=
| IndexError
| AttributeError
| OverflowError.

(** The outcome of a call: a value, a raised exception, or [OutOfFuel] when a
    bounded unrolling of a [while] loop was too short. *)
Inductive result (A : Type) : Type :=
| Ok (a : A)
| Raise (e : exn)
| OutOfFuel.

Arguments Ok {A} a.
Arguments Raise {A} e.
Arguments OutOfFuel {A}.

(** A method over a mutable state [S]: the state survives an exception, as
    the attributes assigned so far do in Python. *)
Definition Py (S A : Type) : Type := S -> S * result A.

Definition ret {S A} (a : A) : Py S A := fun s => (s, Ok a).

Definition bind {S A B} (m : Py S A) (k : A -> Py S B) : Py S B :=
  fun s =>
    match m s with
    | (s', Ok a) => k a s'
    | (s', Raise e) => (s', Raise e)
    | (s', OutOfFuel) => (s', OutOfFuel)
    end.

Definition raise {S A} (e : exn) : Py S A := fun s => (s, Raise e).
Definition lift {S A} (r : result A) : Py S A := fun s => (s, r).
Definition get {S} : Py S S := fun s => (s, Ok s).
Definition gets {S A} (f : S -> A) : Py S A := fun s => (s, Ok (f s)).
Definition modify {S} (f : S -> S) : Py S unit := fun s => (f s, Ok tt).

(** Run a method of a sub-object [T] of the state (as in [self.board.m()]). *)
Definition zoom {S T A} (proj : S -> T) (upd : T -> S -> S) (m : Py T A) : Py S A :=
  fun s => let '(t', r) := m (proj s) in (upd t' s, r).

(** stdpp's monad notations: [x ← m; k] and [m ;; k]. *)
#[export] Instance Py_ret S : MRet (Py S) := @ret S.
#[export] Instance Py_bind S : MBind (Py S) := fun A B k m => bind m k.

(** [l[i]]: a negative [i] counts from the end; out of range raises. *)
Definition norm_index {A} (l : list A) (i : Z) : Z :=
  if i <? 0 then i + Z.of_nat (length l) else i.

Definition getitem {S A} (l : list A) (i : Z) : Py S A :=
  let j := norm_index l i in
  if j <? 0 then raise IndexError
  else match l !! Z.to_nat j with
       | Some a => ret a
       | None => raise IndexError
       end.

(** [l[i] = v] on a list object; the updated list is returned. *)
Definition setitem {S A} (l : list A) (i : Z) (v : A) : Py S (list A) :=
  let j := norm_index l i in
  if j <? 0 then raise IndexError
  else if j <? Z.of_nat (length l) then ret (<[Z.to_nat j := v]> l)
  else raise IndexError.

(** What the body of a [for] loop tells the loop: go on, or [return r]. *)
Inductive flow (R : Type) : Type :=
| Next
| Return (r : R).

Arguments Next {R}.
Arguments Return {R} r.

(** [for idx, a in enumerate(l): body], with an early [return]. *)
Fixpoint for_enumerate {S A R} (body : Z -> A -> Py S (flow R)) (idx : Z) (l : list A)
  : Py S (flow R) :=
  match l with
  | [] => ret Next
  | a :: l' =>
      f ← body idx a;
      match f with
      | Return r => ret (Return r)
      | Next => for_enumerate body (idx + 1) l'
      end
  end.

(** [for a in l: body], without [return] or [break]. *)
Fixpoint for_each {S A} (body : A -> Py S unit) (l : list A) : Py S unit :=
  match l with
  | [] => ret tt
  | a :: l' => body a ;; for_each body l'
  end.

(** [range(n)] *)
Definition range (n : Z) : list Z := List.map Z.of_nat (seq 0 (Z.to_nat n)).

(** A cell of a shape row or of the grid: a one-character string. *)
Definition cell : Type := ascii.
Definition EMPTY : cell := "."%char.

Definition is_empty (c : cell) : bool := Ascii.eqb c EMPTY.

(** ** Piece kinds and [class Tetromino] *)

Module Shape.
Inductive t : Type := I | O | T | S | Z | J | L.
End Shape.

Module Tetromino.
Open Scope string_scope.

Definition SHAPES (shape_type : Shape.t) : list (list string) :=
  match shape_type with
  | Shape.I =>
      [ ["...."; "IIII"; "...."; "...."];
        ["..I."; "..I."; "..I."; "..I."];
        ["...."; "...."; "IIII"; "...."];
        [".I.."; ".I.."; ".I.."; ".I.."] ]
  | Shape.O =>
      [ ["OO"; "OO"] ]
  | Shape.T =>
      [ [".T."; "TTT"; "..."];
        [".T."; ".TT"; ".T."];
        ["..."; "TTT"; ".T."];
        [".T."; "TT."; ".T."] ]
  | Shape.S =>
      [ [".SS"; "SS."; "..."];
        [".S."; ".SS"; "..S"] ]
  | Shape.Z =>
      [ ["ZZ."; ".ZZ"; "..."];
        ["..Z"; ".ZZ"; ".Z."] ]
  | Shape.J =>
      [ ["J.."; "JJJ"; "..."];
        [".JJ"; ".J."; ".J."];
        ["..."; "JJJ"; "..J"];
        [".J."; ".J."; "JJ."] ]
  | Shape.L =>
      [ ["..L"; "LLL"; "..."];
        [".L."; ".L."; ".LL"];
        ["..."; "LLL"; "L.."];
        ["LL."; ".L."; ".L."] ]
  end.

Close Scope string_scope.

(** The attributes of a piece.  [self.shape] is assigned once, in
    [__init__], to [SHAPES[shape_type]]; it is the function [shape]. *)
Record t : Type := mk {
  type : Shape.t;
  rotation : Z;
  x : Z;
  y : Z
}.

Definition shape (self : t) : list (list string) := SHAPES (type self).

Definition set_rotation (self : t) (v : Z) : t :=
  {| type := type self; rotation := v; x := x self; y := y self |}.
Definition set_x (self : t) (v : Z) : t :=
  {| type := type self; rotation := rotation self; x := v; y := y self |}.
Definition set_y (self : t) (v : Z) : t :=
  {| type := type self; rotation := rotation self; x := x self; y := v |}.

Definition init (shape_type : Shape.t) : t :=
  {| type := shape_type; rotation := 0; x := 4; y := 0 |}.

(** [self.rotation % len(self.shape)]: the subscript of the frame. *)
Definition frame_index (self : t) : Z :=
  rotation self mod Z.of_nat (length (shape self)).

Definition get_current_shape {S} (self : t) : Py S (list string) :=
  getitem (shape self) (frame_index self).

Definition rotate (self : t) : t :=
  let new_piece := init (type self) in
  let new_piece :=
    set_rotation new_piece ((rotation self + 1) mod Z.of_nat (length (shape self))) in
  let new_piece := set_x new_piece (x self) in
  let new_piece := set_y new_piece (y self) in
  new_piece.
End Tetromino.

(** ** [class Board] *)

Module Board.
Record t : Type := mk {
  width : Z;
  height : Z;
  grid : list (list cell)
}.

Definition set_grid (self : t) (g : list (list cell)) : t :=
  {| width := width self; height := height self; grid := g |}.

(** [['.' for _ in range(width)]] *)
Definition empty_row (width : Z) : list cell := replicate (Z.to_nat width) EMPTY.

Definition init (width height : Z) : t :=
  {| width := width; height := height;
     grid := replicate (Z.to_nat height) (empty_row width) |}.

(** The subscript [self.grid[y][x]], entered in the access log (the state
    of the read-only methods) before it is evaluated. *)
Definition grid_read (self : t) (y x : Z) : Py (list (Z * Z)) cell :=
  modify (fun log => log ++ [(y, x)]) ;;
  row ← getitem (grid self) y;
  getitem row x.

(** The condition of the [if] inside the loops, with Python's
    left-to-right [or] / [and]. *)
Definition blocked (self : t) (new_x new_y : Z) : Py (list (Z * Z)) bool :=
  if new_x <? 0 then ret true
  else if new_x >=? width self then ret true
  else if new_y >=? height self then ret true
  else if new_y >=? 0 then
    c ← grid_read self new_y new_x;
    ret (negb (is_empty c))
  else ret false.

Definition is_valid_position_log (self : t) (piece : Tetromino.t) (dx dy : Z)
  : Py (list (Z * Z)) bool :=
  shape ← Tetromino.get_current_shape piece;
  f ← for_enumerate (R := bool) (fun row_idx row =>
         for_enumerate (R := bool) (fun col_idx cell =>
           if negb (is_empty cell) then
             let new_x := Tetromino.x piece + col_idx + dx in
             let new_y := Tetromino.y piece + row_idx + dy in
             b ← blocked self new_x new_y;
             if b : bool then ret (Return false) else ret Next
           else ret Next)
         0 (list_ascii_of_string row))
       0 shape;
  match f with
  | Return r => ret r
  | Next => ret true
  end.

(** The verdict of [is_valid_position], and the grid cells it read. *)
Definition is_valid_position (self : t) (piece : Tetromino.t) (dx dy : Z) : result bool :=
  snd (is_valid_position_log self piece dx dy []).

Definition grid_reads (self : t) (piece : Tetromino.t) (dx dy : Z) : list (Z * Z) :=
  fst (is_valid_position_log self piece dx dy []).

(** [self.grid[y][x] = cell] *)
Definition grid_write (y x : Z) (c : cell) : Py t unit :=
  self ← get;
  row ← getitem (grid self) y;
  row' ← setitem row x c;
  grid' ← setitem (grid self) y row';
  modify (fun self => set_grid self grid').

Definition place_piece (piece : Tetromino.t) : Py t unit :=
  shape ← Tetromino.get_current_shape piece;
  for_enumerate (R := unit) (fun row_idx row =>
    for_enumerate (R := unit) (fun col_idx cell =>
      if negb (is_empty cell) then
        let x := Tetromino.x piece + col_idx in
        let y := Tetromino.y piece + row_idx in
        if y >=? 0 then grid_write y x cell ;; ret Next
        else ret Next
      else ret Next)
    0 (list_ascii_of_string row))
  0 shape ;;
  ret tt.

(** ['.' in row] *)
Definition has_empty (row : list cell) : bool := existsb is_empty row.

(** The first loop of [clear_lines]: the rows kept, and the count. *)
Fixpoint scan_rows (rows : list (list cell)) (lines_cleared : Z) (new_grid : list (list cell))
  : Z * list (list cell) :=
  match rows with
  | [] => (lines_cleared, new_grid)
  | row :: rows' =>
      if has_empty row then scan_rows rows' lines_cleared (new_grid ++ [row])
      else scan_rows rows' (lines_cleared + 1) new_grid
  end.

(** [while len(new_grid) < self.height: new_grid.insert(0, [...])], unrolled
    at most [fuel] times. *)
Fixpoint pad_top (fuel : nat) (width height : Z) (new_grid : list (list cell))
  : result (list (list cell)) :=
  if Z.of_nat (length new_grid) <? height then
    match fuel with
    | O => OutOfFuel
    | Datatypes.S fuel' => pad_top fuel' width height (empty_row width :: new_grid)
    end
  else Ok new_grid.

(** The loop runs [height - len(new_grid)] times, so that much fuel never
    runs out (lemma [pad_top_fuel]). *)
Definition clear_lines : Py t Z :=
  self ← get;
  let '(lines_cleared, new_grid) := scan_rows (grid self) 0 [] in
  new_grid ← lift (pad_top (Z.to_nat (height self - Z.of_nat (length new_grid)))
                           (width self) (height self) new_grid);
  modify (fun self => set_grid self new_grid) ;;
  ret lines_cleared.

(** [any(cell != '.' for cell in self.grid[0])] *)
Definition is_game_over : Py t bool :=
  self ← get;
  row ← getitem (grid self) 0;
  ret (existsb (fun cell => negb (is_empty cell)) row).
End Board.

(** ** Floats: [int * float], [max] *)

(** The conversion of an [int] operand of a float operation: rounded to the
    nearest double, [OverflowError] when it has none. *)
Definition float_of_int {S} (n : Z) : Py S float :=
  match binary_normalize prec emax n 0 false with
  | S754_infinity _ => raise OverflowError
  | sf => ret (SF2Prim sf)
  end.

(** [max(a, b)] keeps [a] unless [b > a]; [min(a, b)] keeps [a] unless [b < a]. *)
Definition float_max (a b : float) : float := if PrimFloat.ltb a b then b else a.
Definition int_min (a b : Z) : Z := if b <? a then b else a.

(** ** [class ColorTheme], [class TetrisGame] *)

Inductive ColorTheme : Type := GREEN | AMBER.

Module TetrisGame.
Definition LINE_CLEAR_SCORES : list Z := [0; 40; 100; 300; 1200].
Definition HARD_DROP_POINTS : Z := 2.
Definition SOFT_DROP_POINTS : Z := 1.

Record t : Type := mk {
  board : Board.t;
  current_piece : option Tetromino.t;
  next_piece : option Tetromino.t;
  score : Z;
  level : Z;
  lines_cleared : Z;
  paused : bool;
  game_over : bool;
  theme : ColorTheme;
  last_drop_time : float;
  drop_interval : float
}.

Definition set_board (v : Board.t) (g : t) : t :=
  mk v (current_piece g) (next_piece g) (score g) (level g) (lines_cleared g)
     (paused g) (game_over g) (theme g) (last_drop_time g) (drop_interval g).
Definition set_current_piece (v : option Tetromino.t) (g : t) : t :=
  mk (board g) v (next_piece g) (score g) (level g) (lines_cleared g)
     (paused g) (game_over g) (theme g) (last_drop_time g) (drop_interval g).
Definition set_next_piece (v : option Tetromino.t) (g : t) : t :=
  mk (board g) (current_piece g) v (score g) (level g) (lines_cleared g)
     (paused g) (game_over g) (theme g) (last_drop_time g) (drop_interval g).
Definition set_score (v : Z) (g : t) : t :=
  mk (board g) (current_piece g) (next_piece g) v (level g) (lines_cleared g)
     (paused g) (game_over g) (theme g) (last_drop_time g) (drop_interval g).
Definition set_level (v : Z) (g : t) : t :=
  mk (board g) (current_piece g) (next_piece g) (score g) v (lines_cleared g)
     (paused g) (game_over g) (theme g) (last_drop_time g) (drop_interval g).
Definition set_lines_cleared (v : Z) (g : t) : t :=
  mk (board g) (current_piece g) (next_piece g) (score g) (level g) v
     (paused g) (game_over g) (theme g) (last_drop_time g) (drop_interval g).
Definition set_paused (v : bool) (g : t) : t :=
  mk (board g) (current_piece g) (next_piece g) (score g) (level g) (lines_cleared g)
     v (game_over g) (theme g) (last_drop_time g) (drop_interval g).
Definition set_game_over (v : bool) (g : t) : t :=
  mk (board g) (current_piece g) (next_piece g) (score g) (level g) (lines_cleared g)
     (paused g) v (theme g) (last_drop_time g) (drop_interval g).
Definition set_theme (v : ColorTheme) (g : t) : t :=
  mk (board g) (current_piece g) (next_piece g) (score g) (level g) (lines_cleared g)
     (paused g) (game_over g) v (last_drop_time g) (drop_interval g).
Definition set_last_drop_time (v : float) (g : t) : t :=
  mk (board g) (current_piece g) (next_piece g) (score g) (level g) (lines_cleared g)
     (paused g) (game_over g) (theme g) v (drop_interval g).
Definition set_drop_interval (v : float) (g : t) : t :=
  mk (board g) (current_piece g) (next_piece g) (score g) (level g) (lines_cleared g)
     (paused g) (game_over g) (theme g) (last_drop_time g) v.

(** What a method of the game runs in: the game object, and what the
    [random] and [time] modules will answer from now on. *)
Record World : Type := mkWorld {
  game : t;
  choices : nat -> Shape.t;
  clock : nat -> float
}.

Definition M (A : Type) : Type := Py World A.

(** [self.attr = v]: a setter applied to the game object. *)
Definition setattr (f : t -> t) : M unit :=
  modify (fun w => mkWorld (f (game w)) (choices w) (clock w)).

(** [random.choice(list(Tetromino.SHAPES.keys()))] *)
Definition random_choice : M Shape.t :=
  fun w => (mkWorld (game w) (fun n => choices w (Datatypes.S n)) (clock w),
            Ok (choices w O)).

(** [time.time()] *)
Definition time_time : M float :=
  fun w => (mkWorld (game w) (choices w) (fun n => clock w (Datatypes.S n)),
            Ok (clock w O)).

(** An attribute access on an [Optional] value. *)
Definition deref {A} (o : option A) : M A :=
  match o with
  | Some a => ret a
  | None => raise AttributeError
  end.

Definition _calculate_score (lines_cleared : Z) : M Z :=
  self ← gets game;
  if (lines_cleared <? 0) || (lines_cleared >=? Z.of_nat (length LINE_CLEAR_SCORES))
  then ret 0
  else
    base ← getitem LINE_CLEAR_SCORES lines_cleared;
    ret (base * (level self + 1)).

(** [current_piece] and [next_piece] name one object while its position is
    reset; [next_piece] is then bound to a new piece. *)
Definition spawn_new_piece : M unit :=
  self ← gets game;
  (match next_piece self with
   | None =>
       shape_type ← random_choice;
       setattr (set_next_piece (Some (Tetromino.init shape_type)))
   | Some _ => ret tt
   end) ;;
  self ← gets game;
  piece ← deref (next_piece self);
  let piece := Tetromino.set_x piece 4 in
  let piece := Tetromino.set_y piece 0 in
  setattr (set_current_piece (Some piece)) ;;
  setattr (set_next_piece (Some piece)) ;;
  shape_type ← random_choice;
  setattr (set_next_piece (Some (Tetromino.init shape_type))) ;;
  self ← gets game;
  piece ← deref (current_piece self);
  valid ← lift (Board.is_valid_position (board self) piece 0 0);
  if negb valid then setattr (set_game_over true) else ret tt.

Definition move_piece (dx dy : Z) : M bool :=
  self ← gets game;
  match current_piece self with
  | None => ret false
  | Some piece =>
      valid ← lift (Board.is_valid_position (board self) piece dx dy);
      if valid : bool then
        let piece := Tetromino.set_x piece (Tetromino.x piece + dx) in
        let piece := Tetromino.set_y piece (Tetromino.y piece + dy) in
        setattr (set_current_piece (Some piece)) ;;
        ret true
      else ret false
  end.

Definition rotate_piece : M bool :=
  self ← gets game;
  match current_piece self with
  | None => ret false
  | Some piece =>
      let rotated := Tetromino.rotate piece in
      valid ← lift (Board.is_valid_position (board self) rotated 0 0);
      if valid : bool then
        setattr (set_current_piece (Some rotated)) ;;
        ret true
      else ret false
  end.

(** A method call on [self.board]. *)
Definition on_board {A} (m : Py Board.t A) : M A :=
  zoom (fun w => board (game w))
       (fun b w => mkWorld (set_board b (game w)) (choices w) (clock w)) m.

Definition lock_piece : M unit :=
  self ← gets game;
  match current_piece self with
  | None => ret tt
  | Some piece =>
      on_board (Board.place_piece piece) ;;
      lines ← on_board Board.clear_lines;
      (if lines >? 0 then
         setattr (fun self => set_lines_cleared (lines_cleared self + lines) self) ;;
         points ← _calculate_score lines;
         setattr (fun self => set_score (score self + points) self) ;;
         setattr (fun self => set_level (int_min 20 (lines_cleared self / 10 + 1)) self) ;;
         self ← gets game;
         steps ← float_of_int (level self - 1);
         setattr (set_drop_interval
                   (float_max 0.05 (PrimFloat.sub 1.0 (PrimFloat.mul steps 0.05))))
       else ret tt) ;;
      spawn_new_piece
  end.

(** [while self.move_piece(0, 1): self.score += self.HARD_DROP_POINTS],
    with room for [fuel] rounds of the body. *)
Fixpoint hard_drop_loop (fuel : nat) : M unit :=
  moved ← move_piece 0 1;
  if moved : bool then
    match fuel with
    | O => lift OutOfFuel
    | Datatypes.S fuel' =>
        setattr (fun self => set_score (score self + HARD_DROP_POINTS) self) ;;
        hard_drop_loop fuel'
    end
  else ret tt.

(** A piece at row [y] moves down less than [height - y] times: the loop
    never runs out of this fuel (lemma [hard_drop_loop_fuel]). *)
Definition hard_drop : M unit :=
  self ← gets game;
  match current_piece self with
  | None => ret tt
  | Some piece =>
      hard_drop_loop (Z.to_nat (Board.height (board self) - Tetromino.y piece)) ;;
      lock_piece
  end.

Definition update : M unit :=
  self ← gets game;
  if paused self || game_over self then ret tt
  else
    current_time ← time_time;
    if PrimFloat.leb (drop_interval self)
                     (PrimFloat.sub current_time (last_drop_time self))
    then
      moved ← move_piece 0 1;
      (if negb moved then lock_piece else ret tt) ;;
      setattr (set_last_drop_time current_time)
    else ret tt.

Definition toggle_pause : M unit :=
  setattr (fun self => set_paused (negb (paused self)) self).

Definition restart : M unit :=
  setattr (set_board (Board.init 10 20)) ;;
  setattr (set_current_piece None) ;;
  setattr (set_next_piece None) ;;
  setattr (set_score 0) ;;
  setattr (set_level 1) ;;
  setattr (set_lines_cleared 0) ;;
  setattr (set_paused false) ;;
  setattr (set_game_over false) ;;
  now ← time_time;
  setattr (set_last_drop_time now) ;;
  setattr (set_drop_interval 1.0) ;;
  spawn_new_piece ;;
  spawn_new_piece.

Definition toggle_theme : M unit :=
  setattr (fun self =>
    set_theme (match theme self with GREEN => AMBER | AMBER => GREEN end) self).

(** [TetrisGame()]: [__init__] on a new object. *)
Definition init (choices : nat -> Shape.t) (clock : nat -> float) : World * result unit :=
  let now := clock O in
  let self :=
    {| board := Board.init 10 20;
       current_piece := None;
       next_piece := None;
       score := 0;
       level := 1;
       lines_cleared := 0;
       paused := false;
       game_over := false;
       theme := GREEN;
       last_drop_time := now;
       drop_interval := 1.0 |} in
  (spawn_new_piece ;; spawn_new_piece)
    (mkWorld self choices (fun n => clock (Datatypes.S n))).
End TetrisGame.

(** ** [class TetrisUI]: colour pairs, [draw_board], and the keys that drive
    the engine *)

Module curses.
Definition KEY_DOWN : Z := 258.
Definition KEY_UP : Z := 259.
Definition KEY_LEFT : Z := 260.
Definition KEY_RIGHT : Z := 261.

Definition COLOR_GREEN : Z := 2.
Definition COLOR_YELLOW : Z := 3.
Definition COLOR_WHITE : Z := 7.

(** The calls on the module that set the colours up. *)
Inductive call : Type :=
| start_color
| use_default_colors
| init_pair (pair_number fg bg : Z).

(** A call [stdscr.addstr(y, x, text, curses.color_pair(pair))]. *)
Inductive screen_call : Type :=
| addstr (y x : Z) (text : string) (pair : Z).
End curses.

Definition ord (c : ascii) : Z := Z.of_nat (nat_of_ascii c).

Module TetrisUI.
Import TetrisGame.

(** [setup_colors]: the calls it makes on [curses], in order. *)
Definition setup_colors : list curses.call :=
  [ curses.start_color;
    curses.use_default_colors;
    curses.init_pair 1 curses.COLOR_GREEN (-1);
    curses.init_pair 2 curses.COLOR_GREEN curses.COLOR_GREEN;
    curses.init_pair 5 curses.COLOR_WHITE curses.COLOR_GREEN;
    curses.init_pair 3 curses.COLOR_YELLOW (-1);
    curses.init_pair 4 curses.COLOR_YELLOW curses.COLOR_YELLOW;
    curses.init_pair 6 curses.COLOR_WHITE curses.COLOR_YELLOW ].

(** [get_color_pair], on the game of the interface; both arguments default
    to [False]. *)
Definition get_color_pair (self_game : TetrisGame.t) (is_filled is_border : bool) : Z :=
  match theme self_game with
  | GREEN => if is_border then 5 else if is_filled then 2 else 1
  | AMBER => if is_border then 6 else if is_filled then 4 else 3
  end.

(** [self.stdscr.addstr(...)] as [draw_board] makes it: the last statement of
    a [try] block whose [except curses.error] does nothing, so the call is
    attempted and an error of the screen changes nothing else.  The state of
    [draw_board] is the list of the calls attempted so far. *)
Definition addstr (y x : Z) (text : string) (pair : Z) : Py (list curses.screen_call) unit :=
  modify (fun calls => calls ++ [curses.addstr y x text pair]).

(** [LINES] and [COLS] are [curses.LINES] and [curses.COLS]. *)
Definition draw_board (LINES COLS : Z) (self_game : TetrisGame.t)
  : Py (list curses.screen_call) unit :=
  let start_y := 2 in
  let start_x := 2 in
  let border_color := get_color_pair self_game false true in
  for_each (fun y =>
    for_each (fun x =>
      if (y =? 0) || (y =? Board.height (board self_game) + 1) ||
         (x =? 0) || (x =? Board.width (board self_game) + 1)
      then addstr (start_y + y) (start_x + x * 2) "[]" border_color
      else ret tt)
      (range (Board.width (board self_game) + 2)))
    (range (Board.height (board self_game) + 2)) ;;
  for_each (fun y =>
    for_each (fun x =>
      row ← getitem (Board.grid (board self_game)) y;
      cell ← getitem row x;
      let screen_y := start_y + y + 1 in
      let screen_x := start_x + (x + 1) * 2 in
      if negb (is_empty cell)
      then addstr screen_y screen_x "[]" (get_color_pair self_game true false)
      else addstr screen_y screen_x "  " (get_color_pair self_game false false))
      (range (Board.width (board self_game))))
    (range (Board.height (board self_game))) ;;
  match current_piece self_game with
  | Some piece =>
      shape ← Tetromino.get_current_shape piece;
      for_enumerate (R := unit) (fun row_idx row =>
        for_enumerate (R := unit) (fun col_idx cell =>
          if negb (is_empty cell) then
            let screen_y := start_y + Tetromino.y piece + row_idx + 1 in
            let screen_x := start_x + (Tetromino.x piece + col_idx + 1) * 2 in
            if (0 <=? screen_y) && (screen_y <? LINES) &&
               (0 <=? screen_x) && (screen_x <? COLS - 1)
            then addstr screen_y screen_x "[]" (get_color_pair self_game true false) ;;
                 ret Next
            else ret Next
          else ret Next)
          0 (list_ascii_of_string row))
        0 shape ;;
      ret tt
  | None => ret tt
  end.

(** [getch] is the outcome of [self.stdscr.getch()]: [None] when it raised
    (the [except] branch), else the key code. *)
Definition handle_input (getch : option Z) : M bool :=
  match getch with
  | None => ret true
  | Some key =>
      if (key =? ord "q") || (key =? ord "Q") then ret false
      else if (key =? ord "p") || (key =? ord "P") then toggle_pause ;; ret true
      else if (key =? ord "r") || (key =? ord "R") then restart ;; ret true
      else if (key =? ord "t") || (key =? ord "T") then toggle_theme ;; ret true
      else
        self ← gets game;
        (if negb (paused self) && negb (game_over self) then
           if key =? curses.KEY_LEFT then move_piece (-1) 0 ;; ret tt
           else if key =? curses.KEY_RIGHT then move_piece 1 0 ;; ret tt
           else if key =? curses.KEY_DOWN then
             moved ← move_piece 0 1;
             if moved : bool
             then setattr (fun self => set_score (score self + 1) self)
             else ret tt
           else if key =? curses.KEY_UP then rotate_piece ;; ret tt
           else if key =? ord " " then hard_drop
           else ret tt
         else ret tt) ;;
        ret true
  end.
End TetrisUI.

(** * Vocabulary of the specification *)

(** The frame that [get_current_shape] returns. *)
Definition current_frame (p : Tetromino.t) : list string :=
  default [] (Tetromino.shape p !! Z.to_nat (Tetromino.frame_index p)).

(** The board invariant of the data model: [H] rows of [W] cells each. *)
Definition board_wf (b : Board.t) : Prop :=
  length (Board.grid b) = Z.to_nat (Board.height b) /\
  Forall (fun row => length row = Z.to_nat (Board.width b)) (Board.grid b).

(** The grid cell at row [y], column [x], counted from the top left. *)
Definition grid_at (b : Board.t) (y x : Z) : option cell :=
  if (0 <=? y) && (0 <=? x)
  then row ← Board.grid b !! Z.to_nat y; row !! Z.to_nat x
  else None.

Definition occupied_at (b : Board.t) (y x : Z) : Prop :=
  exists c, grid_at b y x = Some c /\ c <> EMPTY.

(** A cell at column [X], row [Y] that makes a placement invalid. *)
Definition cell_blocked (b : Board.t) (X Y : Z) : Prop :=
  X < 0 \/ Board.width b <= X \/ Board.height b <= Y \/ (0 <= Y /\ occupied_at b Y X).

(** Row [r], column [c] of the piece's current frame is occupied. *)
Definition piece_cell (p : Tetromino.t) (r c : nat) : Prop :=
  exists row ch,
    current_frame p !! r = Some row /\
    list_ascii_of_string row !! c = Some ch /\
    ch <> EMPTY.

(** Some occupied cell of the piece, moved by [(dx, dy)], is blocked. *)
Definition collides (b : Board.t) (p : Tetromino.t) (dx dy : Z) : Prop :=
  exists r c,
    piece_cell p r c /\
    cell_blocked b (Tetromino.x p + Z.of_nat c + dx) (Tetromino.y p + Z.of_nat r + dy).

(** A subscript pair [(y, x)] inside the grid of the board. *)
Definition in_window (b : Board.t) (yx : Z * Z) : Prop :=
  (0 <= fst yx < Board.height b) /\ (0 <= snd yx < Board.width b).

(** Boolean forms, for computing. *)
Definition cell_blockedb (b : Board.t) (X Y : Z) : bool :=
  (X <? 0) || (X >=? Board.width b) || (Y >=? Board.height b) ||
  ((Y >=? 0) && match grid_at b Y X with
                | Some c => negb (is_empty c)
                | None => false
                end).

Fixpoint existsb_from {A} (P : Z -> A -> bool) (idx : Z) (l : list A) : bool :=
  match l with
  | [] => false
  | a :: l' => P idx a || existsb_from P (idx + 1) l'
  end.

Definition cell_hits (b : Board.t) (p : Tetromino.t) (dx dy : Z) (row_idx col_idx : Z) (ch : cell)
  : bool :=
  negb (is_empty ch) &&
  cell_blockedb b (Tetromino.x p + col_idx + dx) (Tetromino.y p + row_idx + dy).

Definition row_hits (b : Board.t) (p : Tetromino.t) (dx dy : Z) (row_idx : Z) (row : string)
  : bool :=
  existsb_from (cell_hits b p dx dy row_idx) 0 (list_ascii_of_string row).

Definition collidesb (b : Board.t) (p : Tetromino.t) (dx dy : Z) : bool :=
  existsb_from (row_hits b p dx dy) 0 (current_frame p).

(** A method over the access log that only adds subscripts inside the grid. *)
Definition reads_inside (b : Board.t) {A} (m : Py (list (Z * Z)) A) : Prop :=
  forall log, exists l, fst (m log) = log ++ l /\ Forall (in_window b) l.

(** A method over the access log that returns [a] whatever the log. *)
Definition yields {A} (m : Py (list (Z * Z)) A) (a : A) : Prop :=
  forall log, snd (m log) = Ok a.

(** The number of frames of a kind, by the specification's table. *)
Definition frame_count (k : Shape.t) : nat :=
  match k with
  | Shape.I | Shape.T | Shape.J | Shape.L => 4
  | Shape.O => 1
  | Shape.S | Shape.Z => 2
  end.

(** A rotation index of the piece's kind: a position in its frame list. *)
Definition rotation_in_range (p : Tetromino.t) : Prop :=
  0 <= Tetromino.rotation p < Z.of_nat (frame_count (Tetromino.type p)).

(** The world after [self.attr = v] on the game. *)
Definition with_game (f : TetrisGame.t -> TetrisGame.t) (w : TetrisGame.World)
  : TetrisGame.World :=
  TetrisGame.mkWorld (f (TetrisGame.game w)) (TetrisGame.choices w) (TetrisGame.clock w).

(** The piece moved by [(dx, dy)]. *)
Definition shifted (p : Tetromino.t) (dx dy : Z) : Tetromino.t :=
  Tetromino.mk (Tetromino.type p) (Tetromino.rotation p)
               (Tetromino.x p + dx) (Tetromino.y p + dy).

(** The piece that [spawn_new_piece] makes current: the next piece (drawn
    now if there is none) at the spawn point, column 4, row 0. *)
Definition incoming (w : TetrisGame.World) : Tetromino.t :=
  let q := match TetrisGame.next_piece (TetrisGame.game w) with
           | Some q => q
           | None => Tetromino.init (TetrisGame.choices w O)
           end in
  Tetromino.mk (Tetromino.type q) (Tetromino.rotation q) 4 0.

(** The world after the draws and assignments of [spawn_new_piece], before
    its validity test. *)
Definition spawned (w : TetrisGame.World) : TetrisGame.World :=
  match TetrisGame.next_piece (TetrisGame.game w) with
  | Some _ =>
      TetrisGame.mkWorld
        (TetrisGame.set_next_piece (Some (Tetromino.init (TetrisGame.choices w O)))
           (TetrisGame.set_current_piece (Some (incoming w)) (TetrisGame.game w)))
        (fun n => TetrisGame.choices w (Datatypes.S n))
        (TetrisGame.clock w)
  | None =>
      TetrisGame.mkWorld
        (TetrisGame.set_next_piece (Some (Tetromino.init (TetrisGame.choices w 1%nat)))
           (TetrisGame.set_current_piece (Some (incoming w)) (TetrisGame.game w)))
        (fun n => TetrisGame.choices w (Datatypes.S (Datatypes.S n)))
        (TetrisGame.clock w)
  end.

(** The piece lies between the walls and above the floor of the board. *)
Definition fits (b : Board.t) (p : Tetromino.t) : Prop :=
  forall r c, piece_cell p r c ->
    0 <= Tetromino.x p + Z.of_nat c < Board.width b /\
    Tetromino.y p + Z.of_nat r < Board.height b.

(** A game whose spawn point is taken: rows 0 and 1 hold blocks, the next
    piece is a T. *)
Definition blocked_world : TetrisGame.World :=
  TetrisGame.mkWorld
    {| TetrisGame.board :=
         Board.mk 10 20 (replicate 2 (EMPTY :: replicate 9 "X"%char)
                         ++ replicate 18 (Board.empty_row 10));
       TetrisGame.current_piece := Some (Tetromino.mk Shape.O 0 4 0);
       TetrisGame.next_piece := Some (Tetromino.init Shape.T);
       TetrisGame.score := 120;
       TetrisGame.level := 1;
       TetrisGame.lines_cleared := 3;
       TetrisGame.paused := false;
       TetrisGame.game_over := false;
       TetrisGame.theme := GREEN;
       TetrisGame.last_drop_time := 0%float;
       TetrisGame.drop_interval := 1.0%float |}
    (fun _ => Shape.I)
    (fun _ => 0%float).

(** Dimensions and shape of the grid, kept by every write. *)
Definition same_frame (b b' : Board.t) : Prop :=
  Board.width b' = Board.width b /\ Board.height b' = Board.height b /\
  (board_wf b -> board_wf b').

(** The specification's table of base scores. *)
Definition base_score (n : Z) : Z :=
  if n =? 1 then 40
  else if n =? 2 then 100
  else if n =? 3 then 300
  else if n =? 4 then 1200
  else 0.

(** The double nearest to an integer. *)
Definition to_float (n : Z) : float := SF2Prim (binary_normalize prec emax n 0 false).

(** [min(20, lines / 10 + 1)] and [max(0.05, 1.0 - (level - 1) * 0.05)]. *)
Definition level_for_lines (lines : Z) : Z := Z.min 20 (lines / 10 + 1).

Definition interval_for_level (level : Z) : float :=
  float_max 0.05 (PrimFloat.sub 1.0 (PrimFloat.mul (to_float (level - 1)) 0.05)).

(** The game after the scoring block of [lock_piece] for [n] cleared lines. *)
Definition scored (n : Z) (g : TetrisGame.t) : TetrisGame.t :=
  if 0 <? n then
    let lines := TetrisGame.lines_cleared g + n in
    TetrisGame.set_drop_interval (interval_for_level (level_for_lines lines))
      (TetrisGame.set_level (level_for_lines lines)
         (TetrisGame.set_score
            (TetrisGame.score g + base_score n * (TetrisGame.level g + 1))
            (TetrisGame.set_lines_cleared lines g)))
  else g.

(** [fits], computed: no cell of the piece is blocked on the empty board of
    the same width and height. *)
Definition fitsb (b : Board.t) (p : Tetromino.t) : bool :=
  negb (collidesb (Board.mk (Board.width b) (Board.height b) []) p 0 0).

(** What [spawn_new_piece] changes and what it keeps. *)
Definition spawn_post (w w' : TetrisGame.World) : Prop :=
  let g := TetrisGame.game w in
  let g' := TetrisGame.game w' in
  TetrisGame.board g' = TetrisGame.board g /\
  TetrisGame.score g' = TetrisGame.score g /\
  TetrisGame.level g' = TetrisGame.level g /\
  TetrisGame.lines_cleared g' = TetrisGame.lines_cleared g /\
  TetrisGame.paused g' = TetrisGame.paused g /\
  TetrisGame.theme g' = TetrisGame.theme g /\
  TetrisGame.last_drop_time g' = TetrisGame.last_drop_time g /\
  TetrisGame.drop_interval g' = TetrisGame.drop_interval g /\
  TetrisGame.clock w' = TetrisGame.clock w /\
  TetrisGame.current_piece g' = Some (incoming w) /\
  (exists k, TetrisGame.next_piece g' = Some (Tetromino.init k)) /\
  (TetrisGame.game_over g = true -> TetrisGame.game_over g' = true).

(** A game about to complete two rows: rows 18 and 19 lack only columns 4
    and 5, and the O piece sits right there; 9 lines cleared so far. *)
Definition two_lines_world : TetrisGame.World :=
  TetrisGame.mkWorld
    {| TetrisGame.board :=
         Board.mk 10 20
           (replicate 18 (Board.empty_row 10)
            ++ replicate 2 (replicate 4 "X"%char ++ [EMPTY; EMPTY] ++ replicate 4 "X"%char));
       TetrisGame.current_piece := Some (Tetromino.mk Shape.O 0 4 18);
       TetrisGame.next_piece := Some (Tetromino.init Shape.T);
       TetrisGame.score := 500;
       TetrisGame.level := 1;
       TetrisGame.lines_cleared := 9;
       TetrisGame.paused := false;
       TetrisGame.game_over := false;
       TetrisGame.theme := GREEN;
       TetrisGame.last_drop_time := 0%float;
       TetrisGame.drop_interval := 1.0%float |}
    (fun _ => Shape.I)
    (fun _ => 0%float).

(** ** Reachable games *)

(** The public operations of the engine, and a key press handled by
    [TetrisUI.handle_input]. *)
Inductive op : Type :=
| OpSpawn
| OpMove (dx dy : Z)
| OpRotate
| OpHardDrop
| OpLock
| OpUpdate
| OpTogglePause
| OpToggleTheme
| OpRestart
| OpKey (getch : option Z).

Definition run_op (o : op) : TetrisGame.M unit :=
  match o with
  | OpSpawn => TetrisGame.spawn_new_piece
  | OpMove dx dy => TetrisGame.move_piece dx dy ;; ret tt
  | OpRotate => TetrisGame.rotate_piece ;; ret tt
  | OpHardDrop => TetrisGame.hard_drop
  | OpLock => TetrisGame.lock_piece
  | OpUpdate => TetrisGame.update
  | OpTogglePause => TetrisGame.toggle_pause
  | OpToggleTheme => TetrisGame.toggle_theme
  | OpRestart => TetrisGame.restart
  | OpKey getch => TetrisUI.handle_input getch ;; ret tt
  end.

(** Operations that restart the game: [restart] itself and the r key. *)
Definition restarts (o : op) : bool :=
  match o with
  | OpRestart => true
  | OpKey (Some key) => (key =? ord "r") || (key =? ord "R")
  | _ => false
  end.

(** The worlds a program can be in: after [TetrisGame()], and after any
    operation that returned. *)
Inductive reachable : TetrisGame.World -> Prop :=
| reachable_init choices clock w :
    TetrisGame.init choices clock = (w, Ok tt) -> reachable w
| reachable_step o w w' :
    reachable w -> run_op o w = (w', Ok tt) -> reachable w'.

(** What holds of every reachable game. *)
Definition game_inv (g : TetrisGame.t) : Prop :=
  board_wf (TetrisGame.board g) /\
  Board.width (TetrisGame.board g) = 10 /\
  Board.height (TetrisGame.board g) = 20 /\
  (forall p, TetrisGame.current_piece g = Some p -> fits (TetrisGame.board g) p) /\
  (forall q, TetrisGame.next_piece g = Some q -> Tetromino.rotation q = 0) /\
  0 <= TetrisGame.score g /\
  1 <= TetrisGame.level g <= 20 /\
  0 <= TetrisGame.lines_cleared g.

(** The invariant, with a lower bound [s0] on the score. *)
Definition Inv (s0 : Z) (w : TetrisGame.World) : Prop :=
  game_inv (TetrisGame.game w) /\ s0 <= TetrisGame.score (TetrisGame.game w).

(** The current piece stands at the spawn point, unrotated. *)
Definition at_spawn (w : TetrisGame.World) : Prop :=
  exists p, TetrisGame.current_piece (TetrisGame.game w) = Some p /\
            Tetromino.x p = 4 /\ Tetromino.y p = 0 /\ Tetromino.rotation p = 0.

(** Total correctness of a method: from [P] it returns, in a world with [Q]. *)
Definition triple {A} (P : TetrisGame.World -> Prop) (m : TetrisGame.M A)
           (Q : A -> TetrisGame.World -> Prop) : Prop :=
  forall w, P w -> exists w' a, m w = (w', Ok a) /\ Q a w'.

(** A method that keeps the invariant and does not lower the score. *)
Definition preserves {A} (m : TetrisGame.M A) : Prop :=
  forall s0, triple (Inv s0) m (fun _ => Inv s0).

(** The game object as [__init__] and [restart] assign it, before the two
    spawns. *)
Definition fresh_game (theme : ColorTheme) (now : float) : TetrisGame.t :=
  {| TetrisGame.board := Board.init 10 20;
     TetrisGame.current_piece := None;
     TetrisGame.next_piece := None;
     TetrisGame.score := 0;
     TetrisGame.level := 1;
     TetrisGame.lines_cleared := 0;
     TetrisGame.paused := false;
     TetrisGame.game_over := false;
     TetrisGame.theme := theme;
     TetrisGame.last_drop_time := now;
     TetrisGame.drop_interval := 1.0 |}.

(** The world before the two spawns of [__init__] and [restart]. *)
Definition fresh_world (theme : ColorTheme) (choices : nat -> Shape.t) (clock : nat -> float)
  : TetrisGame.World :=
  TetrisGame.mkWorld (fresh_game theme (clock O)) choices (fun n => clock (Datatypes.S n)).

(** A first game: every draw is an O, the clock stands at 0. *)
Definition start_world : TetrisGame.World :=
  fst (TetrisGame.init (fun _ => Shape.O) (fun _ => 0%float)).

(** What an operation does to the score. *)
Definition score_step (o : op) (w w' : TetrisGame.World) : Prop :=
  if restarts o
  then TetrisGame.score (TetrisGame.game w') = 0
  else TetrisGame.score (TetrisGame.game w) <= TetrisGame.score (TetrisGame.game w').

(** A method whose [while] loops always end within their fuel. *)
Definition fuel_free {S A} (m : Py S A) : Prop :=
  forall s, snd (m s) <> OutOfFuel.

(** ** Vocabulary for the further properties *)

(** The character at row [r], column [c] of the current frame. *)
Definition frame_cell (p : Tetromino.t) (r c : nat) : option cell :=
  row ← current_frame p !! r; list_ascii_of_string row !! c.

(** The block of the piece that covers the board cell at row [y], column
    [x], if any. *)
Definition piece_at (p : Tetromino.t) (y x : Z) : option cell :=
  if (Tetromino.y p <=? y) && (Tetromino.x p <=? x) then
    match frame_cell p (Z.to_nat (y - Tetromino.y p)) (Z.to_nat (x - Tetromino.x p)) with
    | Some ch => if is_empty ch then None else Some ch
    | None => None
    end
  else None.

(** The cells that the loops of [place_piece] have passed when they stand at
    row [r], column [j] of the frame. *)
Definition passed (p : Tetromino.t) (r j : nat) (y x : Z) : bool :=
  (y - Tetromino.y p <? Z.of_nat r) ||
  ((y - Tetromino.y p =? Z.of_nat r) && (x - Tetromino.x p <? Z.of_nat j)).

(** The grid of [s] is the grid of [b0] with the passed blocks of the piece
    written into it. *)
Definition stamped (b0 : Board.t) (p : Tetromino.t) (r j : nat) (s : Board.t) : Prop :=
  board_wf s /\ same_frame b0 s /\
  forall y x, 0 <= y ->
    grid_at s y x =
    match piece_at p y x with
    | Some ch => if passed p r j y x then Some ch else grid_at b0 y x
    | None => grid_at b0 y x
    end.

(** A method that raises nothing but [IndexError]. *)
Definition index_errors_only {S A} (m : Py S A) : Prop :=
  forall s e, snd (m s) = Raise e -> e = IndexError.

(** The cells that [place_piece] can write: rows inside the grid, columns
    inside it or up to [W] to the left of it (a negative subscript counts
    from the end of the row). *)
Definition writable (b : Board.t) (p : Tetromino.t) : Prop :=
  forall r c, piece_cell p r c -> 0 <= Tetromino.y p + Z.of_nat r ->
    Tetromino.y p + Z.of_nat r < Board.height b /\
    - Board.width b <= Tetromino.x p + Z.of_nat c < Board.width b.

(** A board with the width, the height and the grid shape of [b]. *)
Definition shaped_like (b s : Board.t) : Prop :=
  board_wf s /\ Board.width s = Board.width b /\ Board.height s = Board.height b.

(** The piece [k] rows lower. *)
Definition lowered (p : Tetromino.t) (k : nat) : Tetromino.t :=
  Tetromino.mk (Tetromino.type p) (Tetromino.rotation p)
               (Tetromino.x p) (Tetromino.y p + Z.of_nat k).

(** The world after [k] rounds of the loop of [hard_drop]: the piece [k]
    rows lower, 2 points a row. *)
Definition drop_world (w : TetrisGame.World) (p : Tetromino.t) (k : nat) : TetrisGame.World :=
  with_game (fun g =>
    TetrisGame.set_score (TetrisGame.score g + TetrisGame.HARD_DROP_POINTS * Z.of_nat k)
      (TetrisGame.set_current_piece (Some (lowered p k)) g)) w.

(** [k] is how far the piece can fall: the [k] rows below it are free for
    it, the next one is not. *)
Definition drop_distance (b : Board.t) (p : Tetromino.t) (k : nat) : Prop :=
  (forall j, 1 <= j <= Z.of_nat k -> ~ collides b p 0 j) /\
  collides b p 0 (Z.of_nat k + 1).

(** The current piece of a game in play: there is one, its rotation is an
    index of its frame list, and unless the game is over it overlaps no
    block and no wall. *)
Definition piece_ok (g : TetrisGame.t) : Prop :=
  exists p, TetrisGame.current_piece g = Some p /\ rotation_in_range p /\
            (TetrisGame.game_over g = false -> ~ collides (TetrisGame.board g) p 0 0).

(** Level and drop interval are those of the line count. *)
Definition progress_ok (g : TetrisGame.t) : Prop :=
  TetrisGame.level g = level_for_lines (TetrisGame.lines_cleared g) /\
  TetrisGame.drop_interval g = interval_for_level (TetrisGame.level g).

Definition in_play (g : TetrisGame.t) : Prop :=
  piece_ok g /\ is_Some (TetrisGame.next_piece g) /\ progress_ok g.

(** The stronger invariant of the reachable games. *)
Definition Steady (w : TetrisGame.World) : Prop :=
  game_inv (TetrisGame.game w) /\ in_play (TetrisGame.game w).

(** A method that returns and keeps the stronger invariant. *)
Definition steady {A} (m : TetrisGame.M A) : Prop := triple Steady m (fun _ => Steady).

(** The world after [TetrisGame()] and after [restart]: an empty board, the
    second draw in play at the spawn point, the third in preview, the first
    discarded; one reading of the clock. *)
Definition started (theme : ColorTheme) (choices : nat -> Shape.t) (clock : nat -> float)
  : TetrisGame.World :=
  TetrisGame.mkWorld
    {| TetrisGame.board := Board.init 10 20;
       TetrisGame.current_piece := Some (Tetromino.mk (choices 1%nat) 0 4 0);
       TetrisGame.next_piece := Some (Tetromino.init (choices 2%nat));
       TetrisGame.score := 0;
       TetrisGame.level := 1;
       TetrisGame.lines_cleared := 0;
       TetrisGame.paused := false;
       TetrisGame.game_over := false;
       TetrisGame.theme := theme;
       TetrisGame.last_drop_time := clock O;
       TetrisGame.drop_interval := 1.0 |}
    (fun n => choices (3 + n)%nat)
    (fun n => clock (Datatypes.S n)).

(** What no method but a toggle or [restart] changes: the theme and the
    pause flag stay, a game that is over stays over, the line count does not
    go down. *)
Definition carried (g g' : TetrisGame.t) : Prop :=
  TetrisGame.theme g' = TetrisGame.theme g /\
  TetrisGame.paused g' = TetrisGame.paused g /\
  (TetrisGame.game_over g = true -> TetrisGame.game_over g' = true) /\
  TetrisGame.lines_cleared g <= TetrisGame.lines_cleared g'.

(** A method that carries these over, whether it returns or raises. *)
Definition carries {A} (m : TetrisGame.M A) : Prop :=
  forall w, carried (TetrisGame.game w) (TetrisGame.game (fst (m w))).

(** Operations that flip the pause flag, or the theme. *)
Definition toggles_pause (o : op) : bool :=
  match o with
  | OpTogglePause => true
  | OpKey (Some key) => (key =? ord "p") || (key =? ord "P")
  | _ => false
  end.

Definition toggles_theme (o : op) : bool :=
  match o with
  | OpToggleTheme => true
  | OpKey (Some key) => (key =? ord "t") || (key =? ord "T")
  | _ => false
  end.

Definition other_theme (theme : ColorTheme) : ColorTheme :=
  match theme with GREEN => AMBER | AMBER => GREEN end.

(** What an operation does to the three flags and to the line count. *)
Definition flags_step (o : op) (g g' : TetrisGame.t) : Prop :=
  TetrisGame.theme g' =
    (if toggles_theme o then other_theme (TetrisGame.theme g) else TetrisGame.theme g) /\
  TetrisGame.paused g' =
    (if restarts o then false
     else if toggles_pause o then negb (TetrisGame.paused g) else TetrisGame.paused g) /\
  (if restarts o then TetrisGame.game_over g' = false
   else TetrisGame.game_over g = true -> TetrisGame.game_over g' = true) /\
  (if restarts o then TetrisGame.lines_cleared g' = 0
   else TetrisGame.lines_cleared g <= TetrisGame.lines_cleared g').

(** The first game five seconds later: a drop is due. *)
Definition due_world : TetrisGame.World :=
  TetrisGame.mkWorld (TetrisGame.game start_world) (fun _ => Shape.O) (fun _ => 5%float).

(** The q key, either case. *)
Definition quits (getch : option Z) : bool :=
  match getch with
  | Some key => (key =? ord "q") || (key =? ord "Q")
  | None => false
  end.

(** The five keys that act on the piece. *)
Definition plays (key : Z) : bool :=
  (key =? curses.KEY_LEFT) || (key =? curses.KEY_RIGHT) || (key =? curses.KEY_DOWN) ||
  (key =? curses.KEY_UP) || (key =? ord " ").

(** The letter of a kind, as a cell. *)
Definition letter (k : Shape.t) : cell :=
  match k with
  | Shape.I => "I" | Shape.O => "O" | Shape.T => "T" | Shape.S => "S"
  | Shape.Z => "Z" | Shape.J => "J" | Shape.L => "L"
  end%char.

(** The blocks of a frame: its characters other than ['.'], row by row. *)
Definition blocks (frame : list string) : list cell :=
  List.filter (fun ch => negb (is_empty ch)) (concat (List.map list_ascii_of_string frame)).

(** The side of the square in which the frames of a kind are drawn. *)
Definition side (k : Shape.t) : nat :=
  match k with
  | Shape.I => 4
  | Shape.O => 2
  | _ => 3
  end.

(** How many draws [spawn_new_piece] makes. *)
Definition draws (w : TetrisGame.World) : nat :=
  match TetrisGame.next_piece (TetrisGame.game w) with
  | Some _ => 1
  | None => 2
  end.

(** The colours of a pair after a sequence of [curses] calls: those of the
    last [init_pair] for its number. *)
Fixpoint pair_content (calls : list curses.call) (n : Z) : option (Z * Z) :=
  match calls with
  | [] => None
  | c :: rest =>
      match pair_content rest n with
      | Some colours => Some colours
      | None =>
          match c with
          | curses.init_pair m fg bg => if m =? n then Some (fg, bg) else None
          | _ => None
          end
      end
  end.

(** The colour of a theme. *)
Definition theme_colour (theme : ColorTheme) : Z :=
  match theme with
  | GREEN => curses.COLOR_GREEN
  | AMBER => curses.COLOR_YELLOW
  end.

(** The pair numbers that a sequence of calls initialises, in order. *)
Definition pairs_set (calls : list curses.call) : list Z :=
  omap (fun c => match c with curses.init_pair m _ _ => Some m | _ => None end) calls.

(** What an indexed loop appends: [f idx a] for each element in turn. *)
Fixpoint flat_enum {A B} (f : Z -> A -> list B) (idx : Z) (l : list A) : list B :=
  match l with
  | [] => []
  | a :: l' => f idx a ++ flat_enum f (idx + 1) l'
  end.

(** The calls of the three parts of [draw_board]: the frame, the cells of
    the grid, the blocks of the current piece. *)
Definition border_calls (g : TetrisGame.t) : list curses.screen_call :=
  flat_map (fun y =>
    flat_map (fun x =>
      if (y =? 0) || (y =? Board.height (TetrisGame.board g) + 1) ||
         (x =? 0) || (x =? Board.width (TetrisGame.board g) + 1)
      then [curses.addstr (2 + y) (2 + x * 2) "[]" (TetrisUI.get_color_pair g false true)]
      else [])
      (range (Board.width (TetrisGame.board g) + 2)))
    (range (Board.height (TetrisGame.board g) + 2)).

Definition cell_call (g : TetrisGame.t) (y x : Z) (c : cell) : curses.screen_call :=
  if negb (is_empty c)
  then curses.addstr (2 + y + 1) (2 + (x + 1) * 2) "[]" (TetrisUI.get_color_pair g true false)
  else curses.addstr (2 + y + 1) (2 + (x + 1) * 2) "  " (TetrisUI.get_color_pair g false false).

Definition content_calls (g : TetrisGame.t) : list curses.screen_call :=
  flat_map (fun y =>
    flat_map (fun x =>
      match grid_at (TetrisGame.board g) y x with
      | Some c => [cell_call g y x c]
      | None => []
      end)
      (range (Board.width (TetrisGame.board g))))
    (range (Board.height (TetrisGame.board g))).

Definition block_calls (LINES COLS : Z) (g : TetrisGame.t) (p : Tetromino.t)
           (row_idx col_idx : Z) (ch : cell) : list curses.screen_call :=
  let screen_y := 2 + Tetromino.y p + row_idx + 1 in
  let screen_x := 2 + (Tetromino.x p + col_idx + 1) * 2 in
  if negb (is_empty ch) &&
     ((0 <=? screen_y) && (screen_y <? LINES) && (0 <=? screen_x) && (screen_x <? COLS - 1))
  then [curses.addstr screen_y screen_x "[]" (TetrisUI.get_color_pair g true false)]
  else [].

Definition piece_calls (LINES COLS : Z) (g : TetrisGame.t) : list curses.screen_call :=
  match TetrisGame.current_piece g with
  | Some p =>
      flat_enum (fun row_idx row =>
        flat_enum (block_calls LINES COLS g p row_idx) 0 (list_ascii_of_string row))
        0 (current_frame p)
  | None => []
  end.

(** * Verification *)

(** ** The method monad *)

Ltac py_unfold :=
  unfold mbind, mret, Py_bind, Py_ret, bind, ret, raise, lift, get, gets, modify, zoom in *.

Lemma bind_ok {S A B} (m : Py S A) (k : A -> Py S B) s s' a :
  m s = (s', Ok a) -> (x ← m; k x) s = k a s'.
Proof. intros Hm. py_unfold. now rewrite Hm. Qed.

Lemma bind_not_ok {S A B} (m : Py S A) (k : A -> Py S B) s s' r :
  m s = (s', r) -> (forall a, r <> Ok a) ->
  exists r', (x ← m; k x) s = (s', r') /\ forall b, r' <> Ok b.
Proof.
  intros Hm Hr. py_unfold. rewrite Hm.
  destruct r as [a | e |]; [now destruct (Hr a) | |]; eexists; split; eauto; discriminate.
Qed.

Lemma bind_inv {S A B} (m : Py S A) (k : A -> Py S B) s s'' b :
  (x ← m; k x) s = (s'', Ok b) ->
  exists s' a, m s = (s', Ok a) /\ k a s' = (s'', Ok b).
Proof.
  py_unfold. destruct (m s) as [s' [a | e |]]; intros H; try discriminate.
  now exists s', a.
Qed.

(** ** Subscripts *)

Lemma getitem_ok {S A} (l : list A) (i : Z) (s : S) :
  0 <= i < Z.of_nat (length l) ->
  exists a, l !! Z.to_nat i = Some a /\ getitem l i s = (s, Ok a).
Proof.
  intros Hi. unfold getitem, norm_index.
  destruct (Z.ltb_spec i 0); [lia |].
  destruct (Z.ltb_spec i 0); [lia |].
  destruct (lookup_lt_is_Some_2 l (Z.to_nat i)) as [a Ha]; [lia |].
  exists a. now rewrite Ha.
Qed.

Lemma getitem_state {S A} (l : list A) (i : Z) (s : S) : fst (getitem l i s) = s.
Proof.
  unfold getitem. destruct (_ <? 0); [reflexivity |].
  now destruct (l !! _).
Qed.

Lemma getitem_inv {S A} (l : list A) (i : Z) (s s' : S) a :
  getitem l i s = (s', Ok a) ->
  s' = s /\ l !! Z.to_nat (norm_index l i) = Some a /\ 0 <= norm_index l i.
Proof.
  unfold getitem. destruct (Z.ltb_spec (norm_index l i) 0); [discriminate |].
  destruct (l !! _) eqn:E; py_unfold; intros [= <- <-]; auto.
Qed.

(** ** C10, first half: the frame subscript *)

Lemma shape_length_pos (p : Tetromino.t) : 0 < Z.of_nat (length (Tetromino.shape p)).
Proof. unfold Tetromino.shape. destruct (Tetromino.type p); simpl; lia. Qed.

Lemma frame_index_bounds (p : Tetromino.t) :
  0 <= Tetromino.frame_index p < Z.of_nat (length (Tetromino.shape p)).
Proof. unfold Tetromino.frame_index. apply Z.mod_pos_bound, shape_length_pos. Qed.

Lemma get_current_shape_ok {S} (p : Tetromino.t) (s : S) :
  Tetromino.get_current_shape p s = (s, Ok (current_frame p)) /\
  Tetromino.shape p !! Z.to_nat (Tetromino.frame_index p) = Some (current_frame p).
Proof.
  unfold Tetromino.get_current_shape, current_frame.
  destruct (getitem_ok (Tetromino.shape p) _ s (frame_index_bounds p)) as (a & Ha & ->).
  now rewrite Ha.
Qed.

(** ** The access log: composition *)

Lemma reads_inside_ret b {A} (a : A) : reads_inside b (ret a).
Proof. intros log. exists []. now rewrite app_nil_r. Qed.

Lemma reads_inside_raise b {A} e : reads_inside b (raise (A := A) e).
Proof. intros log. exists []. now rewrite app_nil_r. Qed.

Lemma reads_inside_getitem b {A} (l : list A) i : reads_inside b (getitem l i).
Proof. intros log. exists []. now rewrite getitem_state, app_nil_r. Qed.

Lemma reads_inside_bind b {A B} (m : Py _ A) (k : A -> Py _ B) :
  reads_inside b m -> (forall a, reads_inside b (k a)) -> reads_inside b (x ← m; k x).
Proof.
  intros Hm Hk log. destruct (Hm log) as (l & Hl & Hin).
  py_unfold. destruct (m log) as [s' [a | e |]]; simpl in *; subst; eauto.
  destruct (Hk a (log ++ l)) as (l' & -> & Hin').
  exists (l ++ l'). rewrite app_assoc. split; [reflexivity | now apply Forall_app].
Qed.

Lemma yields_ret {A} (a : A) : yields (ret a) a.
Proof. now intros log. Qed.

Lemma yields_bind {A B} (m : Py _ A) (k : A -> Py _ B) a c :
  yields m a -> yields (k a) c -> yields (x ← m; k x) c.
Proof.
  intros Hm Hk log. specialize (Hm log). py_unfold.
  destruct (m log) as [s' r]. simpl in Hm. subst r. apply Hk.
Qed.

Lemma reads_inside_for_enumerate b {A R} (body : Z -> A -> Py _ (flow R)) l :
  (forall idx a, reads_inside b (body idx a)) ->
  forall idx, reads_inside b (for_enumerate body idx l).
Proof.
  intros Hbody. induction l as [| a l IH]; intros idx; simpl.
  - apply reads_inside_ret.
  - apply reads_inside_bind; [apply Hbody |].
    intros [| r]; [apply IH | apply reads_inside_ret].
Qed.

Lemma yields_for_enumerate {A R} (body : Z -> A -> Py _ (flow R)) (P : Z -> A -> bool) (r0 : R) l :
  (forall idx a, yields (body idx a) (if P idx a then Return r0 else Next)) ->
  forall idx,
    yields (for_enumerate body idx l) (if existsb_from P idx l then Return r0 else Next).
Proof.
  intros Hbody. induction l as [| a l IH]; intros idx; simpl.
  - apply yields_ret.
  - eapply yields_bind; [apply Hbody |].
    destruct (P idx a); simpl; [apply yields_ret | apply IH].
Qed.

Lemma existsb_from_spec {A} (P : Z -> A -> bool) l : forall idx,
  existsb_from P idx l = true <->
  exists i a, l !! i = Some a /\ P (idx + Z.of_nat i) a = true.
Proof.
  induction l as [| a l IH]; intros idx; simpl.
  - split; [discriminate | intros (i & x & Hi & _); now rewrite lookup_nil in Hi].
  - rewrite orb_true_iff, IH. split.
    + intros [H | (i & x & Hi & HP)].
      * exists O, a. now rewrite Z.add_0_r.
      * exists (Datatypes.S i), x. split; [exact Hi |].
        now replace (idx + Z.of_nat (Datatypes.S i)) with (idx + 1 + Z.of_nat i) by lia.
    + intros ([| i] & x & Hi & HP); simpl in Hi.
      * left. injection Hi as ->. now rewrite Z.add_0_r in HP.
      * right. exists i, x. split; [exact Hi |].
        now replace (idx + 1 + Z.of_nat i) with (idx + Z.of_nat (Datatypes.S i)) by lia.
Qed.

(** ** [Board.is_valid_position]: reads and verdict *)

Lemma reads_inside_log b (yx : Z * Z) :
  in_window b yx -> reads_inside b (modify (fun log => log ++ [yx])).
Proof. intros Hin log. exists [yx]. split; [reflexivity | now constructor]. Qed.

Lemma yields_modify (f : list (Z * Z) -> list (Z * Z)) : yields (modify f) tt.
Proof. now intros log. Qed.

Lemma yields_getitem {A} (l : list A) i a :
  0 <= i < Z.of_nat (length l) -> l !! Z.to_nat i = Some a -> yields (getitem l i) a.
Proof.
  intros Hi Ha log. destruct (getitem_ok l i log Hi) as (a' & Ha' & ->).
  simpl. congruence.
Qed.

Lemma grid_at_wf b y x :
  board_wf b -> in_window b (y, x) ->
  exists row c,
    Board.grid b !! Z.to_nat y = Some row /\ row !! Z.to_nat x = Some c /\
    length row = Z.to_nat (Board.width b) /\ grid_at b y x = Some c.
Proof.
  intros [Hlen Hrows] [Hy Hx]. simpl in Hy, Hx.
  destruct (lookup_lt_is_Some_2 (Board.grid b) (Z.to_nat y)) as [row Hrow]; [lia |].
  assert (Hw : length row = Z.to_nat (Board.width b)).
  { rewrite Forall_lookup in Hrows. exact (Hrows _ _ Hrow). }
  destruct (lookup_lt_is_Some_2 row (Z.to_nat x)) as [c Hc]; [lia |].
  exists row, c. repeat split; auto.
  unfold grid_at. destruct (Z.leb_spec 0 y); [| lia].
  destruct (Z.leb_spec 0 x); [| lia]. simpl. rewrite Hrow. exact Hc.
Qed.

Lemma reads_inside_grid_read b y x :
  in_window b (y, x) -> reads_inside b (Board.grid_read b y x).
Proof.
  intros Hin. unfold Board.grid_read.
  apply reads_inside_bind; [now apply reads_inside_log |]. intros _.
  apply reads_inside_bind; [apply reads_inside_getitem |]. intros row.
  apply reads_inside_getitem.
Qed.

Lemma yields_grid_read b y x :
  board_wf b -> in_window b (y, x) ->
  exists c, grid_at b y x = Some c /\ yields (Board.grid_read b y x) c.
Proof.
  intros Hwf Hin. destruct (grid_at_wf b y x Hwf Hin) as (row & c & Hrow & Hc & Hw & Hat).
  destruct Hin as [Hy Hx]. simpl in Hy, Hx. destruct Hwf as [Hlen _].
  exists c. split; [exact Hat |]. unfold Board.grid_read.
  eapply yields_bind; [apply yields_modify |].
  eapply yields_bind; [apply (yields_getitem _ _ row); [lia | exact Hrow] |].
  apply yields_getitem; [lia | exact Hc].
Qed.

Lemma reads_inside_blocked b X Y : reads_inside b (Board.blocked b X Y).
Proof.
  unfold Board.blocked.
  destruct (Z.ltb_spec X 0); [apply reads_inside_ret |].
  destruct (Z.geb_spec X (Board.width b)); [apply reads_inside_ret |].
  destruct (Z.geb_spec Y (Board.height b)); [apply reads_inside_ret |].
  destruct (Z.geb_spec Y 0); [| apply reads_inside_ret].
  apply reads_inside_bind; [| intros c; apply reads_inside_ret].
  apply reads_inside_grid_read. split; simpl; lia.
Qed.

Lemma yields_blocked b X Y :
  board_wf b -> yields (Board.blocked b X Y) (cell_blockedb b X Y).
Proof.
  intros Hwf. unfold Board.blocked, cell_blockedb.
  destruct (Z.ltb_spec X 0); [apply yields_ret |].
  destruct (Z.geb_spec X (Board.width b)); [apply yields_ret |].
  destruct (Z.geb_spec Y (Board.height b)); [apply yields_ret |].
  destruct (Z.geb_spec Y 0); [| apply yields_ret]. simpl.
  destruct (yields_grid_read b Y X Hwf) as (c & -> & Hc); [split; simpl; lia |].
  eapply yields_bind; [exact Hc | apply yields_ret].
Qed.

Lemma reads_inside_is_valid_position b p dx dy :
  reads_inside b (Board.is_valid_position_log b p dx dy).
Proof.
  unfold Board.is_valid_position_log.
  apply reads_inside_bind; [apply reads_inside_getitem |]. intros shape.
  apply reads_inside_bind.
  - apply reads_inside_for_enumerate. intros row_idx row.
    apply reads_inside_for_enumerate. intros col_idx ch.
    destruct (negb (is_empty ch)); [| apply reads_inside_ret].
    apply reads_inside_bind; [apply reads_inside_blocked |].
    intros [|]; apply reads_inside_ret.
  - intros [| r]; apply reads_inside_ret.
Qed.

Lemma yields_is_valid_position b p dx dy :
  board_wf b ->
  yields (Board.is_valid_position_log b p dx dy) (negb (collidesb b p dx dy)).
Proof.
  intros Hwf. unfold Board.is_valid_position_log.
  eapply yields_bind.
  { intros log. now rewrite (proj1 (get_current_shape_ok p log)). }
  eapply yields_bind.
  - apply (yields_for_enumerate _ (row_hits b p dx dy) false). intros row_idx row.
    apply (yields_for_enumerate _ (cell_hits b p dx dy row_idx) false). intros col_idx ch.
    unfold cell_hits. destruct (negb (is_empty ch)); simpl; [| apply yields_ret].
    eapply yields_bind; [apply (yields_blocked _ _ _ Hwf) |].
    destruct (cell_blockedb _ _ _); apply yields_ret.
  - fold (collidesb b p dx dy). destruct (collidesb b p dx dy); apply yields_ret.
Qed.

Lemma is_valid_position_collidesb b p dx dy :
  board_wf b -> Board.is_valid_position b p dx dy = Ok (negb (collidesb b p dx dy)).
Proof. intros Hwf. apply (yields_is_valid_position b p dx dy Hwf). Qed.

Lemma is_empty_spec (c : cell) : is_empty c = true <-> c = EMPTY.
Proof. apply Ascii.eqb_eq. Qed.

Lemma not_empty_spec (c : cell) : negb (is_empty c) = true <-> c <> EMPTY.
Proof.
  rewrite negb_true_iff, <- not_true_iff_false. now rewrite is_empty_spec.
Qed.

Lemma cell_blockedb_spec b X Y : cell_blockedb b X Y = true <-> cell_blocked b X Y.
Proof.
  unfold cell_blockedb, cell_blocked, occupied_at.
  rewrite !orb_true_iff, andb_true_iff, Z.ltb_lt, !Z.geb_le.
  split.
  - intros [[[H | H] | H] | [H1 H2]]; auto.
    right; right; right. split; [exact H1 |].
    destruct (grid_at b Y X) as [c |]; [| discriminate].
    exists c. split; [reflexivity | now apply not_empty_spec].
  - intros [H | [H | [H | [H1 (c & Hc & Hne)]]]]; auto.
    right. split; [exact H1 |]. rewrite Hc. now apply not_empty_spec.
Qed.

Lemma collidesb_spec b p dx dy : collidesb b p dx dy = true <-> collides b p dx dy.
Proof.
  unfold collidesb, collides, piece_cell. rewrite existsb_from_spec. split.
  - intros (r & row & Hrow & Hhit). unfold row_hits in Hhit.
    apply existsb_from_spec in Hhit as (c & ch & Hch & Hhit).
    unfold cell_hits in Hhit. apply andb_true_iff in Hhit as [Hne Hb].
    exists r, c. split.
    + exists row, ch. repeat split; auto. now apply not_empty_spec.
    + apply cell_blockedb_spec. now rewrite !Z.add_0_l in Hb.
  - intros (r & c & (row & ch & Hrow & Hch & Hne) & Hb).
    exists r, row. split; [exact Hrow |]. unfold row_hits.
    apply existsb_from_spec. exists c, ch. split; [exact Hch |].
    unfold cell_hits. apply andb_true_iff. split; [now apply not_empty_spec |].
    rewrite !Z.add_0_l. now apply cell_blockedb_spec.
Qed.

Lemma board_wf_init (w h : Z) : board_wf (Board.init w h).
Proof.
  split; simpl.
  - now rewrite length_replicate.
  - apply Forall_replicate. unfold Board.empty_row. now rewrite length_replicate.
Qed.

(** C1. On a board of [H] rows of [W] cells, [is_valid_position] returns
    [False] exactly when some occupied cell of the current frame, placed at
    [(x + dx, y + dy)], has its column outside [[0, W)], or its row at or
    below [H], or (its row being at least 0) lies on an occupied grid cell;
    it returns [True] exactly when no cell does.  A piece whose occupied cells
    all lie above row 0 is valid exactly when their columns are inside
    [[0, W)].  The method takes the board and the piece as values and returns
    the verdict alone: lifted into a game method it leaves the world as it
    was. *)
Theorem is_valid_position_spec (b : Board.t) (p : Tetromino.t) (dx dy : Z) :
  board_wf b ->
  (Board.is_valid_position b p dx dy = Ok false <-> collides b p dx dy) /\
  (Board.is_valid_position b p dx dy = Ok true <-> ~ collides b p dx dy) /\
  ((forall r c, piece_cell p r c -> Tetromino.y p + Z.of_nat r + dy < 0) ->
   0 <= Board.height b ->
   (Board.is_valid_position b p dx dy = Ok true <->
    forall r c, piece_cell p r c ->
                0 <= Tetromino.x p + Z.of_nat c + dx < Board.width b)) /\
  (forall w : TetrisGame.World,
     fst (lift (Board.is_valid_position b p dx dy) w) = w).
Proof.
  intros Hwf. rewrite (is_valid_position_collidesb b p dx dy Hwf).
  pose proof (collidesb_spec b p dx dy) as Hc.
  assert (Hfalse : Ok (negb (collidesb b p dx dy)) = Ok false <-> collides b p dx dy).
  { rewrite <- Hc. destruct (collidesb b p dx dy); simpl; split; congruence. }
  assert (Htrue : Ok (negb (collidesb b p dx dy)) = Ok true <-> ~ collides b p dx dy).
  { rewrite <- Hc. destruct (collidesb b p dx dy); simpl; split; congruence. }
  split; [exact Hfalse |]. split; [exact Htrue |]. split; [| reflexivity].
  intros Habove HH. rewrite Htrue. unfold collides, cell_blocked. split.
  - intros Hno r c Hcell.
    destruct (Z_lt_dec (Tetromino.x p + Z.of_nat c + dx) 0) as [Hlt |];
      [exfalso; apply Hno; exists r, c; auto |].
    destruct (Z_le_dec (Board.width b) (Tetromino.x p + Z.of_nat c + dx)) as [Hge |];
      [exfalso; apply Hno; exists r, c; auto |].
    lia.
  - intros Hcols (r & c & Hcell & Hb).
    specialize (Hcols r c Hcell). specialize (Habove r c Hcell). lia.
Qed.

Lemma is_valid_position_spec_witness :
  (Board.is_valid_position (Board.init 10 20) (Tetromino.mk Shape.T 1 8 0) 0 0 = Ok false <->
   collides (Board.init 10 20) (Tetromino.mk Shape.T 1 8 0) 0 0) /\
  Board.is_valid_position (Board.init 10 20) (Tetromino.mk Shape.T 1 8 0) 0 0 = Ok false.
Proof.
  split; [| vm_compute; reflexivity].
  apply (is_valid_position_spec (Board.init 10 20) (Tetromino.mk Shape.T 1 8 0) 0 0).
  split; [reflexivity | repeat constructor].
Defined.

(** C10. For every integer rotation the frame subscript
    [rotation % len(shape)] lies inside the frame list and
    [get_current_shape] returns that frame; every grid subscript that
    [is_valid_position] evaluates has its row in [[0, H)] and its column in
    [[0, W)], for every piece, rotation and offset; on a grid of [H] rows of
    [W] cells the method therefore never raises. *)
Theorem lookups_in_bounds (b : Board.t) (p : Tetromino.t) (dx dy : Z) :
  (0 <= Tetromino.frame_index p < Z.of_nat (length (Tetromino.shape p)) /\
   exists frame,
     Tetromino.shape p !! Z.to_nat (Tetromino.frame_index p) = Some frame /\
     forall log : list (Z * Z), Tetromino.get_current_shape p log = (log, Ok frame)) /\
  Forall (in_window b) (Board.grid_reads b p dx dy) /\
  (board_wf b -> exists v, Board.is_valid_position b p dx dy = Ok v).
Proof.
  split; [split; [apply frame_index_bounds |] |].
  - exists (current_frame p). split; [apply (get_current_shape_ok (S := unit) p tt) |].
    intros log. apply get_current_shape_ok.
  - split.
    + destruct (reads_inside_is_valid_position b p dx dy []) as (l & Hl & Hin).
      unfold Board.grid_reads. now rewrite Hl.
    + intros Hwf. eexists. now apply is_valid_position_collidesb.
Qed.

(** ** [Tetromino.rotate] *)

Lemma frame_count_length (p : Tetromino.t) :
  length (Tetromino.shape p) = frame_count (Tetromino.type p).
Proof. unfold Tetromino.shape. now destruct (Tetromino.type p). Qed.

Lemma rotate_fields (p : Tetromino.t) :
  Tetromino.type (Tetromino.rotate p) = Tetromino.type p /\
  Tetromino.x (Tetromino.rotate p) = Tetromino.x p /\
  Tetromino.y (Tetromino.rotate p) = Tetromino.y p /\
  Tetromino.rotation (Tetromino.rotate p) =
    (Tetromino.rotation p + 1) mod Z.of_nat (frame_count (Tetromino.type p)).
Proof. unfold Tetromino.rotate. simpl. now rewrite frame_count_length. Qed.

Lemma rotate_iter (n : nat) (p : Tetromino.t) :
  Nat.iter n Tetromino.rotate p =
  match n with
  | O => p
  | _ => Tetromino.mk (Tetromino.type p)
           ((Tetromino.rotation p + Z.of_nat n) mod Z.of_nat (frame_count (Tetromino.type p)))
           (Tetromino.x p) (Tetromino.y p)
  end.
Proof.
  induction n as [| n IH]; [reflexivity |].
  simpl Nat.iter. rewrite IH.
  assert (HN : 0 < Z.of_nat (frame_count (Tetromino.type p)))
    by (destruct (Tetromino.type p); simpl; lia).
  destruct n as [| n].
  - unfold Tetromino.rotate; simpl. now rewrite frame_count_length.
  - unfold Tetromino.rotate, Tetromino.set_rotation, Tetromino.set_x, Tetromino.set_y,
      Tetromino.init, Tetromino.shape.
    cbn [Tetromino.type Tetromino.rotation Tetromino.x Tetromino.y].
    fold (Tetromino.shape p). rewrite frame_count_length.
    f_equal. rewrite Zplus_mod_idemp_l. f_equal. lia.
Qed.

(** C6. Every kind has the frame count of the table (4 for I, T, J, L; 1 for
    O; 2 for S, Z).  One [rotate] returns a piece of the same kind at the
    same position with the rotation advanced by one modulo the frame count;
    the result is a new value and the argument is not changed.  After as
    many rotations as the kind has frames, a piece whose rotation is an index
    of its frame list is back to the same rotation, kind and position; for
    any integer rotation the result has the rotation reduced modulo the
    frame count, so the same frame. *)
Theorem rotate_cycle (p : Tetromino.t) :
  rotation_in_range p ->
  length (Tetromino.SHAPES (Tetromino.type p)) = frame_count (Tetromino.type p) /\
  (Tetromino.type (Tetromino.rotate p) = Tetromino.type p /\
   Tetromino.x (Tetromino.rotate p) = Tetromino.x p /\
   Tetromino.y (Tetromino.rotate p) = Tetromino.y p /\
   Tetromino.rotation (Tetromino.rotate p) =
     (Tetromino.rotation p + 1) mod Z.of_nat (frame_count (Tetromino.type p))) /\
  Nat.iter (frame_count (Tetromino.type p)) Tetromino.rotate p = p /\
  (forall r : Z,
     let q := Tetromino.set_rotation p r in
     let q' := Nat.iter (frame_count (Tetromino.type p)) Tetromino.rotate q in
     Tetromino.rotation q' = r mod Z.of_nat (frame_count (Tetromino.type p)) /\
     Tetromino.type q' = Tetromino.type p /\
     Tetromino.x q' = Tetromino.x p /\ Tetromino.y q' = Tetromino.y p /\
     current_frame q' = current_frame q).
Proof.
  intros Hr. split; [apply (frame_count_length p) |].
  split; [apply rotate_fields |].
  assert (HN : 0 < Z.of_nat (frame_count (Tetromino.type p)))
    by (destruct (Tetromino.type p); simpl; lia).
  assert (Hiter : forall q, Tetromino.type q = Tetromino.type p ->
            Nat.iter (frame_count (Tetromino.type p)) Tetromino.rotate q =
            Tetromino.mk (Tetromino.type q)
              (Tetromino.rotation q mod Z.of_nat (frame_count (Tetromino.type p)))
              (Tetromino.x q) (Tetromino.y q)).
  { intros q Hq. rewrite rotate_iter, Hq.
    destruct (frame_count (Tetromino.type p)) eqn:E; [lia |].
    f_equal. rewrite <- E. rewrite <- (Z.mod_add _ (-1)) by lia. f_equal. lia. }
  split.
  - rewrite Hiter by reflexivity. destruct p as [k r x y]. simpl in *.
    f_equal. apply Z.mod_small. exact Hr.
  - intros r q q'. subst q'. rewrite Hiter by reflexivity. subst q. simpl.
    repeat split.
    pose proof (frame_count_length p) as E. unfold Tetromino.shape in E.
    unfold current_frame, Tetromino.frame_index, Tetromino.shape, Tetromino.set_rotation.
    cbn [Tetromino.type Tetromino.rotation]. rewrite E.
    now rewrite Z.mod_mod by lia.
Qed.

Lemma rotate_cycle_witness :
  Nat.iter 4 Tetromino.rotate (Tetromino.mk Shape.L 3 5 7) = Tetromino.mk Shape.L 3 5 7.
Proof.
  refine (proj1 (proj2 (proj2 (rotate_cycle (Tetromino.mk Shape.L 3 5 7) _)))).
  unfold rotation_in_range. simpl. lia.
Defined.

(** ** [Board.clear_lines] *)

Lemma has_empty_spec (row : list cell) : Board.has_empty row = true <-> EMPTY ∈ row.
Proof.
  unfold Board.has_empty. rewrite existsb_exists. split.
  - intros (c & Hin & Hc). apply is_empty_spec in Hc. subst c. now apply list_elem_of_In.
  - intros Hin. exists EMPTY. split; [now apply list_elem_of_In | now apply is_empty_spec].
Qed.

Lemma scan_rows_spec (rows : list (list cell)) : forall n acc,
  Board.scan_rows rows n acc =
  (n + Z.of_nat (length (List.filter (fun row => negb (Board.has_empty row)) rows)),
   acc ++ List.filter Board.has_empty rows).
Proof.
  induction rows as [| row rows IH]; intros n acc; simpl.
  - now rewrite Z.add_0_r, app_nil_r.
  - destruct (Board.has_empty row); simpl; rewrite IH.
    + now rewrite <- app_assoc.
    + f_equal. lia.
Qed.

Lemma pad_top_fuel (W H : Z) (fuel : nat) : forall g,
  (Z.to_nat (H - Z.of_nat (length g)) <= fuel)%nat ->
  Board.pad_top fuel W H g =
  Ok (replicate (Z.to_nat (H - Z.of_nat (length g))) (Board.empty_row W) ++ g).
Proof.
  induction fuel as [| fuel IH]; intros g Hfuel.
  - simpl. destruct (Z.ltb_spec (Z.of_nat (length g)) H); [lia |].
    now replace (Z.to_nat _) with O by lia.
  - simpl. destruct (Z.ltb_spec (Z.of_nat (length g)) H).
    + rewrite IH by (simpl; lia). f_equal. simpl length.
      replace (Z.to_nat (H - Z.of_nat (length g)))
        with (Datatypes.S (Z.to_nat (H - Z.of_nat (Datatypes.S (length g))))) by lia.
      now rewrite replicate_S_end, <- app_assoc.
    + now replace (Z.to_nat _) with O by lia.
Qed.

Lemma clear_lines_eq (b : Board.t) :
  Board.clear_lines b =
  (Board.set_grid b
     (replicate (Z.to_nat (Board.height b) - length (List.filter Board.has_empty (Board.grid b)))
                (Board.empty_row (Board.width b))
      ++ List.filter Board.has_empty (Board.grid b)),
   Ok (Z.of_nat (length (List.filter (fun row => negb (Board.has_empty row)) (Board.grid b))))).
Proof.
  unfold Board.clear_lines. py_unfold. rewrite scan_rows_spec. simpl.
  rewrite pad_top_fuel by apply Nat.le_refl.
  replace (Z.to_nat (Board.height b - Z.of_nat (length (List.filter Board.has_empty (Board.grid b)))))
    with (Z.to_nat (Board.height b) - length (List.filter Board.has_empty (Board.grid b)))%nat
    by lia.
  reflexivity.
Qed.

Lemma filter_split_length {A} (f : A -> bool) (l : list A) :
  (length (List.filter f l) + length (List.filter (fun a => negb (f a)) l) = length l)%nat.
Proof. induction l as [| a l IH]; simpl; [lia |]. destruct (f a); simpl; lia. Qed.

Lemma filter_none_removed {A} (f : A -> bool) (l : list A) :
  List.filter (fun a => negb (f a)) l = [] -> List.filter f l = l.
Proof.
  induction l as [| a l IH]; simpl; [reflexivity |].
  destruct (f a); simpl; [| discriminate]. intros H. f_equal. now apply IH.
Qed.

(** C3. On a grid of at most [H] rows, [clear_lines] keeps exactly the rows
    that contain an empty cell, in their order and unchanged, puts new rows
    of [W] empty cells above them until the grid has [H] rows, and returns
    the number of rows that had no empty cell (0 when there is none); on a
    grid of exactly [H] rows it adds as many rows as it removed.  Width and
    height are untouched. *)
Theorem clear_lines_spec (b : Board.t) :
  (length (Board.grid b) <= Z.to_nat (Board.height b))%nat ->
  let kept := List.filter Board.has_empty (Board.grid b) in
  let removed := List.filter (fun row => negb (Board.has_empty row)) (Board.grid b) in
  exists k b',
    Board.clear_lines b = (b', Ok (Z.of_nat (length removed))) /\
    Board.grid b' = replicate k (replicate (Z.to_nat (Board.width b)) EMPTY) ++ kept /\
    Board.width b' = Board.width b /\ Board.height b' = Board.height b /\
    length (Board.grid b') = Z.to_nat (Board.height b) /\
    (forall row, row ∈ kept <-> row ∈ Board.grid b /\ EMPTY ∈ row) /\
    (forall row, row ∈ removed <-> row ∈ Board.grid b /\ EMPTY ∉ row) /\
    (length (Board.grid b) = Z.to_nat (Board.height b) -> k = length removed) /\
    (removed = [] -> Board.grid b' = replicate k (replicate (Z.to_nat (Board.width b)) EMPTY)
                                      ++ Board.grid b).
Proof.
  intros Hlen kept removed.
  pose proof (filter_split_length Board.has_empty (Board.grid b)) as Hsplit.
  fold kept removed in Hsplit.
  exists (Z.to_nat (Board.height b) - length kept)%nat, (fst (Board.clear_lines b)).
  rewrite clear_lines_eq. fold kept removed. simpl.
  repeat split; try tauto.
  - rewrite length_app, length_replicate. lia.
  - apply list_elem_of_In, filter_In in H. now apply list_elem_of_In.
  - apply list_elem_of_In, filter_In in H. now apply has_empty_spec.
  - intros [Hin He]. apply list_elem_of_In, filter_In.
    split; [now apply list_elem_of_In | now apply has_empty_spec].
  - apply list_elem_of_In, filter_In in H. now apply list_elem_of_In.
  - apply list_elem_of_In, filter_In in H. destruct H as [_ H].
    rewrite <- has_empty_spec. now destruct (Board.has_empty row).
  - intros [Hin He]. apply list_elem_of_In, filter_In.
    split; [now apply list_elem_of_In |].
    rewrite <- has_empty_spec in He. now destruct (Board.has_empty row).
  - intros Heq. lia.
  - intros Hnone. f_equal. now apply filter_none_removed.
Qed.

Lemma clear_lines_spec_witness :
  exists k b',
    Board.clear_lines (Board.mk 2 3 [["X"; "X"]; ["."; "X"]; ["Z"; "Z"]]%char) =
      (b', Ok 2) /\
    Board.grid b' = replicate k ["."; "."]%char ++ [["."; "X"]%char] /\
    k = 2%nat.
Proof.
  destruct (clear_lines_spec (Board.mk 2 3 [["X"; "X"]; ["."; "X"]; ["Z"; "Z"]]%char))
    as (k & b' & H1 & H2 & _ & _ & _ & _ & _ & H8 & _).
  - simpl. lia.
  - exists k, b'. split; [exact H1 |]. split; [exact H2 |]. apply H8. reflexivity.
Defined.

(** ** [TetrisGame.move_piece] and [TetrisGame.spawn_new_piece] *)

Lemma move_piece_eq (w : TetrisGame.World) (dx dy : Z) :
  TetrisGame.move_piece dx dy w =
  match TetrisGame.current_piece (TetrisGame.game w) with
  | None => (w, Ok false)
  | Some p =>
      match Board.is_valid_position (TetrisGame.board (TetrisGame.game w)) p dx dy with
      | Ok true => (with_game (TetrisGame.set_current_piece (Some (shifted p dx dy))) w, Ok true)
      | Ok false => (w, Ok false)
      | Raise e => (w, Raise e)
      | OutOfFuel => (w, OutOfFuel)
      end
  end.
Proof.
  unfold TetrisGame.move_piece, TetrisGame.setattr. py_unfold.
  destruct (TetrisGame.current_piece (TetrisGame.game w)) as [p |]; [| reflexivity].
  destruct (Board.is_valid_position _ p dx dy) as [[|] | e |]; reflexivity.
Qed.

Lemma spawn_new_piece_eq (w : TetrisGame.World) :
  TetrisGame.spawn_new_piece w =
  match Board.is_valid_position (TetrisGame.board (TetrisGame.game w)) (incoming w) 0 0 with
  | Ok true => (spawned w, Ok tt)
  | Ok false => (with_game (TetrisGame.set_game_over true) (spawned w), Ok tt)
  | Raise e => (spawned w, Raise e)
  | OutOfFuel => (spawned w, OutOfFuel)
  end.
Proof.
  unfold TetrisGame.spawn_new_piece, TetrisGame.setattr, TetrisGame.random_choice,
    TetrisGame.deref, spawned, incoming.
  py_unfold. destruct w as [[b cur [q |] sc lv ln pa go th lt di] ch ck]; simpl;
    destruct (Board.is_valid_position _ _ 0 0) as [[|] | e |]; reflexivity.
Qed.

(** C5. Without a current piece [move_piece] returns [False] and changes
    nothing.  With one: when the offset validates, the stored position grows
    by exactly [(dx, dy)] (kind and rotation stay) and the call returns
    [True]; when it does not, nothing at all changes and the call returns
    [False].  On a board of [H] rows of [W] cells one of the two happens, as
    the moved piece collides or not. *)
Theorem move_piece_spec (w : TetrisGame.World) (dx dy : Z) :
  (TetrisGame.current_piece (TetrisGame.game w) = None ->
   TetrisGame.move_piece dx dy w = (w, Ok false)) /\
  (forall p, TetrisGame.current_piece (TetrisGame.game w) = Some p ->
     (Board.is_valid_position (TetrisGame.board (TetrisGame.game w)) p dx dy = Ok true ->
      TetrisGame.move_piece dx dy w =
        (with_game (TetrisGame.set_current_piece
                      (Some (Tetromino.mk (Tetromino.type p) (Tetromino.rotation p)
                                          (Tetromino.x p + dx) (Tetromino.y p + dy)))) w,
         Ok true)) /\
     (Board.is_valid_position (TetrisGame.board (TetrisGame.game w)) p dx dy = Ok false ->
      TetrisGame.move_piece dx dy w = (w, Ok false)) /\
     (board_wf (TetrisGame.board (TetrisGame.game w)) ->
      (~ collides (TetrisGame.board (TetrisGame.game w)) p dx dy ->
       Board.is_valid_position (TetrisGame.board (TetrisGame.game w)) p dx dy = Ok true) /\
      (collides (TetrisGame.board (TetrisGame.game w)) p dx dy ->
       Board.is_valid_position (TetrisGame.board (TetrisGame.game w)) p dx dy = Ok false) /\
      (collides (TetrisGame.board (TetrisGame.game w)) p dx dy \/
       ~ collides (TetrisGame.board (TetrisGame.game w)) p dx dy))).
Proof.
  rewrite move_piece_eq. split.
  - now intros ->.
  - intros p ->. split; [now intros -> |]. split; [now intros -> |].
    intros Hwf. rewrite (is_valid_position_collidesb _ p dx dy Hwf).
    rewrite <- collidesb_spec. destruct (collidesb _ p dx dy); simpl.
    + split; [intros H; now destruct H |]. split; auto.
    + split; [reflexivity |]. split; [discriminate |]. right. discriminate.
Qed.

(** C8. [move_piece] leaves the score, the level, the line count, the board,
    the paused and game-over flags (and the next piece, the theme, the drop
    timer and the sources of randomness and time) as they were, and changes
    neither the kind nor the rotation of the current piece.  The point of a
    soft drop comes from [handle_input]: on the down key, in a game neither
    paused nor over, the score grows by one exactly when [move_piece(0, 1)]
    returned [True], and the game is otherwise as that call left it. *)
Theorem move_piece_frame (w : TetrisGame.World) (dx dy : Z) :
  (let g := TetrisGame.game w in
   let g' := TetrisGame.game (fst (TetrisGame.move_piece dx dy w)) in
   TetrisGame.score g' = TetrisGame.score g /\
   TetrisGame.level g' = TetrisGame.level g /\
   TetrisGame.lines_cleared g' = TetrisGame.lines_cleared g /\
   TetrisGame.board g' = TetrisGame.board g /\
   TetrisGame.paused g' = TetrisGame.paused g /\
   TetrisGame.game_over g' = TetrisGame.game_over g /\
   TetrisGame.next_piece g' = TetrisGame.next_piece g /\
   TetrisGame.theme g' = TetrisGame.theme g /\
   TetrisGame.last_drop_time g' = TetrisGame.last_drop_time g /\
   TetrisGame.drop_interval g' = TetrisGame.drop_interval g /\
   Tetromino.type <$> TetrisGame.current_piece g' =
     Tetromino.type <$> TetrisGame.current_piece g /\
   Tetromino.rotation <$> TetrisGame.current_piece g' =
     Tetromino.rotation <$> TetrisGame.current_piece g /\
   TetrisGame.choices (fst (TetrisGame.move_piece dx dy w)) = TetrisGame.choices w /\
   TetrisGame.clock (fst (TetrisGame.move_piece dx dy w)) = TetrisGame.clock w) /\
  (TetrisGame.paused (TetrisGame.game w) = false ->
   TetrisGame.game_over (TetrisGame.game w) = false ->
   let w1 := fst (TetrisGame.move_piece 0 1 w) in
   let bonus := match snd (TetrisGame.move_piece 0 1 w) with Ok true => 1 | _ => 0 end in
   fst (TetrisUI.handle_input (Some curses.KEY_DOWN) w) =
     with_game (fun g => TetrisGame.set_score (TetrisGame.score (TetrisGame.game w) + bonus) g) w1).
Proof.
  split.
  - rewrite move_piece_eq.
    destruct (TetrisGame.current_piece (TetrisGame.game w)) as [p |] eqn:Hp; simpl.
    + destruct (Board.is_valid_position _ p dx dy) as [[|] | e |]; simpl;
        rewrite ?Hp; repeat split; reflexivity.
    + rewrite Hp. repeat split; reflexivity.
  - intros Hpause Hover. simpl.
    unfold TetrisUI.handle_input, TetrisGame.setattr. py_unfold. simpl.
    rewrite Hpause, Hover. simpl.
    rewrite move_piece_eq.
    destruct (TetrisGame.current_piece (TetrisGame.game w)) as [p |]; simpl.
    + destruct (Board.is_valid_position _ p 0 1) as [[|] | e |]; simpl;
        unfold with_game; simpl; destruct w as [[] ? ?]; simpl;
        rewrite ?Z.add_0_r; reflexivity.
    + destruct w as [[] ? ?]; unfold with_game; simpl; rewrite ?Z.add_0_r; reflexivity.
Qed.

(** C4. When the piece that [spawn_new_piece] puts at column 4, row 0 fails
    the validity test, the call returns with the game-over flag set and that
    piece as the current piece, still at column 4, row 0; the board is the
    one before the call. *)
Theorem spawn_collision_game_over (w : TetrisGame.World) :
  Board.is_valid_position (TetrisGame.board (TetrisGame.game w)) (incoming w) 0 0 = Ok false ->
  exists w',
    TetrisGame.spawn_new_piece w = (w', Ok tt) /\
    TetrisGame.game_over (TetrisGame.game w') = true /\
    TetrisGame.current_piece (TetrisGame.game w') = Some (incoming w) /\
    Tetromino.x (incoming w) = 4 /\ Tetromino.y (incoming w) = 0 /\
    TetrisGame.board (TetrisGame.game w') = TetrisGame.board (TetrisGame.game w).
Proof.
  intros Hinvalid. rewrite spawn_new_piece_eq, Hinvalid.
  eexists. split; [reflexivity |].
  unfold spawned. destruct (TetrisGame.next_piece (TetrisGame.game w)); simpl; auto.
Qed.

Lemma spawn_collision_game_over_witness :
  exists w',
    TetrisGame.spawn_new_piece blocked_world = (w', Ok tt) /\
    TetrisGame.game_over (TetrisGame.game w') = true /\
    TetrisGame.current_piece (TetrisGame.game w') = Some (incoming blocked_world) /\
    Tetromino.x (incoming blocked_world) = 4 /\ Tetromino.y (incoming blocked_world) = 0 /\
    TetrisGame.board (TetrisGame.game w') = TetrisGame.board (TetrisGame.game blocked_world).
Proof.
  apply (spawn_collision_game_over blocked_world). vm_compute. reflexivity.
Defined.

(** ** [Board.place_piece] *)

Lemma setitem_state {S A} (l : list A) (i : Z) (v : A) (s : S) : fst (setitem l i v s) = s.
Proof.
  unfold setitem. destruct (_ <? 0); [reflexivity |]. now destruct (_ <? _).
Qed.

Lemma setitem_inv {S A} (l : list A) (i : Z) (v : A) (s s' : S) l' :
  setitem l i v s = (s', Ok l') ->
  s' = s /\ l' = <[Z.to_nat (norm_index l i) := v]> l.
Proof.
  unfold setitem. destruct (_ <? 0); [discriminate |].
  destruct (_ <? _); py_unfold; intros [= <- <-]; auto.
Qed.

Lemma setitem_ok {S A} (l : list A) (i : Z) (v : A) (s : S) :
  0 <= i < Z.of_nat (length l) -> setitem l i v s = (s, Ok (<[Z.to_nat i := v]> l)).
Proof.
  intros Hi. unfold setitem, norm_index.
  destruct (Z.ltb_spec i 0); [lia |].
  destruct (Z.ltb_spec i 0); [lia |].
  destruct (Z.ltb_spec i (Z.of_nat (length l))); [reflexivity | lia].
Qed.

Lemma same_frame_refl b : same_frame b b.
Proof. unfold same_frame. auto. Qed.

Lemma same_frame_trans b1 b2 b3 : same_frame b1 b2 -> same_frame b2 b3 -> same_frame b1 b3.
Proof.
  intros (Hw & Hh & Hwf) (Hw' & Hh' & Hwf'). unfold same_frame.
  split; [congruence |]. split; [congruence | auto].
Qed.

Lemma board_wf_insert_row b i row row' :
  board_wf b -> Board.grid b !! i = Some row -> length row' = length row ->
  board_wf (Board.set_grid b (<[i := row']> (Board.grid b))).
Proof.
  intros [Hlen Hrows] Hrow Hlen'. split; simpl.
  - now rewrite length_insert.
  - apply Forall_insert; [exact Hrows |].
    rewrite Forall_lookup in Hrows. rewrite Hlen'. exact (Hrows _ _ Hrow).
Qed.

Lemma grid_write_frame (y x : Z) (c : cell) (b : Board.t) :
  same_frame b (fst (Board.grid_write y x c b)).
Proof.
  unfold Board.grid_write. py_unfold.
  destruct (getitem (Board.grid b) y b) as [s1 [row | e |]] eqn:E1;
    pose proof (getitem_state (Board.grid b) y b) as Hs1; rewrite E1 in Hs1;
    simpl in Hs1; subst s1; try apply same_frame_refl.
  apply getitem_inv in E1 as (_ & Hrow & _).
  destruct (setitem row x c b) as [s2 [row' | e |]] eqn:E2;
    pose proof (setitem_state row x c b) as Hs2; rewrite E2 in Hs2;
    simpl in Hs2; subst s2; try apply same_frame_refl.
  apply setitem_inv in E2 as (_ & ->).
  destruct (setitem (Board.grid b) y _ b) as [s3 [g' | e |]] eqn:E3;
    pose proof (setitem_state (Board.grid b) y (<[Z.to_nat (norm_index row x) := c]> row) b)
      as Hs3; rewrite E3 in Hs3; simpl in Hs3; subst s3; try apply same_frame_refl.
  apply setitem_inv in E3 as (_ & ->). simpl.
  unfold same_frame. simpl. split; [reflexivity |]. split; [reflexivity |]. intros Hwf.
  eapply board_wf_insert_row; eauto. now rewrite length_insert.
Qed.

Lemma grid_write_ok (y x : Z) (c : cell) (b : Board.t) :
  board_wf b -> in_window b (y, x) ->
  exists b', Board.grid_write y x c b = (b', Ok tt) /\ same_frame b b'.
Proof.
  intros Hwf Hin. pose proof (grid_write_frame y x c b) as Hframe.
  destruct (grid_at_wf b y x Hwf Hin) as (row & c0 & Hrow & Hc0 & Hw & _).
  destruct Hin as [Hy Hx]. simpl in Hy, Hx. destruct Hwf as [Hlen _].
  revert Hframe. unfold Board.grid_write. py_unfold.
  destruct (getitem_ok (Board.grid b) y b) as (row' & Hrow' & ->); [lia |].
  assert (row' = row) by congruence. subst row'.
  rewrite setitem_ok by lia. rewrite setitem_ok by lia. simpl.
  intros Hframe. eexists. split; [reflexivity | exact Hframe].
Qed.

(** ** Loops over a mutable state *)

Lemma for_enumerate_keeps {S A R} (I : S -> Prop) (body : Z -> A -> Py S (flow R)) :
  (forall idx a s, I s -> I (fst (body idx a s))) ->
  forall l idx s, I s -> I (fst (for_enumerate body idx l s)).
Proof.
  intros Hbody. induction l as [| a l IH]; intros idx s Hs; simpl; [exact Hs |].
  py_unfold. specialize (Hbody idx a s Hs).
  destruct (body idx a s) as [s' [[| r] | e |]]; simpl in *; auto.
Qed.

Lemma for_enumerate_total {S A R} (I : S -> Prop) (Q : Z -> A -> Prop)
      (body : Z -> A -> Py S (flow R)) :
  (forall idx a s, I s -> Q idx a -> exists s', body idx a s = (s', Ok Next) /\ I s') ->
  forall l idx s, I s ->
    (forall i a, l !! i = Some a -> Q (idx + Z.of_nat i) a) ->
    exists s', for_enumerate body idx l s = (s', Ok Next) /\ I s'.
Proof.
  intros Hbody. induction l as [| a l IH]; intros idx s Hs HQ; simpl.
  - exists s. now split.
  - destruct (Hbody idx a s Hs) as (s1 & Hrun & Hs1).
    { specialize (HQ O a eq_refl). now rewrite Z.add_0_r in HQ. }
    py_unfold. rewrite Hrun. apply IH; [exact Hs1 |].
    intros i x Hi. specialize (HQ (Datatypes.S i) x Hi).
    now replace (idx + 1 + Z.of_nat i) with (idx + Z.of_nat (Datatypes.S i)) by lia.
Qed.

Lemma place_piece_frame (p : Tetromino.t) (b : Board.t) :
  same_frame b (fst (Board.place_piece p b)).
Proof.
  unfold Board.place_piece. py_unfold.
  rewrite (proj1 (get_current_shape_ok p b)).
  match goal with
  | |- context [for_enumerate ?body 0 ?l b] =>
      assert (Hk : same_frame b (fst (for_enumerate body 0 l b)))
  end.
  { apply for_enumerate_keeps; [| apply same_frame_refl].
    intros row_idx row s Hs. apply for_enumerate_keeps; [| exact Hs].
    intros col_idx ch s' Hs'.
    destruct (negb (is_empty ch)); [| exact Hs'].
    destruct (_ >=? 0); [| exact Hs']. py_unfold.
    pose proof (grid_write_frame (Tetromino.y p + row_idx) (Tetromino.x p + col_idx) ch s')
      as Hw.
    destruct (Board.grid_write _ _ ch s') as [s'' [[] | e |]]; simpl in *;
      eapply same_frame_trans; eauto. }
  destruct (for_enumerate _ 0 _ b) as [b' [f | e |]]; exact Hk.
Qed.

Lemma place_piece_ok (p : Tetromino.t) (b : Board.t) :
  board_wf b -> fits b p ->
  exists b', Board.place_piece p b = (b', Ok tt) /\ same_frame b b' /\ board_wf b'.
Proof.
  intros Hwf Hfits. unfold Board.place_piece. py_unfold.
  rewrite (proj1 (get_current_shape_ok p b)).
  match goal with
  | |- context [for_enumerate ?body 0 ?l b] =>
      assert (Hk : exists b', for_enumerate body 0 l b = (b', Ok Next) /\
                              (board_wf b' /\ same_frame b b'))
  end.
  { apply (for_enumerate_total (fun s => board_wf s /\ same_frame b s)
             (fun row_idx row => exists r, row_idx = Z.of_nat r /\ current_frame p !! r = Some row)).
    - intros row_idx row s Hs (r & -> & Hrow).
      apply (for_enumerate_total (fun s => board_wf s /\ same_frame b s)
               (fun col_idx ch => exists c, col_idx = Z.of_nat c /\
                                            list_ascii_of_string row !! c = Some ch)).
      + intros col_idx ch s' [Hwf' Hsame] (c & -> & Hch).
        destruct (negb (is_empty ch)) eqn:Hne; [| exists s'; now split].
        apply not_empty_spec in Hne.
        destruct (Hfits r c) as [Hx Hy]; [now exists row, ch |].
        destruct (Z.geb_spec (Tetromino.y p + Z.of_nat r) 0); [| exists s'; now split].
        destruct Hsame as (Hw & Hh & Hkeep).
        destruct (grid_write_ok (Tetromino.y p + Z.of_nat r) (Tetromino.x p + Z.of_nat c)
                    ch s' Hwf') as (s'' & Hrun & Hsame').
        { split; simpl; lia. }
        py_unfold. rewrite Hrun. exists s''. split; [reflexivity |].
        split; [now apply Hsame' |].
        eapply same_frame_trans; [| exact Hsame']. unfold same_frame. auto.
      + exact Hs.
      + intros c ch Hch. exists c. split; [lia | exact Hch].
    - split; [exact Hwf | apply same_frame_refl].
    - intros r row Hrow. exists r. split; [lia | exact Hrow]. }
  destruct Hk as (b' & -> & Hwf' & Hsame). exists b'. auto.
Qed.

Lemma piece_cell_shifted (p : Tetromino.t) (dx dy : Z) (r c : nat) :
  piece_cell (shifted p dx dy) r c <-> piece_cell p r c.
Proof. reflexivity. Qed.

Lemma not_collides_fits (b : Board.t) (p : Tetromino.t) (dx dy : Z) :
  ~ collides b p dx dy -> fits b (shifted p dx dy).
Proof.
  intros Hno r c Hcell. simpl.
  destruct (Z_lt_dec (Tetromino.x p + dx + Z.of_nat c) 0);
    [exfalso; apply Hno; exists r, c; split; [exact Hcell | left; lia] |].
  destruct (Z_le_dec (Board.width b) (Tetromino.x p + dx + Z.of_nat c));
    [exfalso; apply Hno; exists r, c; split; [exact Hcell | right; left; lia] |].
  destruct (Z_le_dec (Board.height b) (Tetromino.y p + dy + Z.of_nat r));
    [exfalso; apply Hno; exists r, c; split; [exact Hcell | right; right; left; lia] |].
  lia.
Qed.

Lemma valid_fits (b : Board.t) (p : Tetromino.t) (dx dy : Z) :
  board_wf b -> Board.is_valid_position b p dx dy = Ok true -> fits b (shifted p dx dy).
Proof.
  intros Hwf Hvalid. apply not_collides_fits. rewrite <- collidesb_spec.
  rewrite (is_valid_position_collidesb b p dx dy Hwf) in Hvalid.
  destruct (collidesb b p dx dy); [discriminate | discriminate].
Qed.

Lemma clear_lines_wf (b : Board.t) :
  board_wf b ->
  exists b' n,
    Board.clear_lines b = (b', Ok n) /\ 0 <= n /\ same_frame b b' /\ board_wf b'.
Proof.
  intros [Hlen Hrows]. rewrite clear_lines_eq. do 2 eexists. split; [reflexivity |].
  split; [lia |].
  assert (Hwf' : board_wf (Board.set_grid b
            (replicate (Z.to_nat (Board.height b) -
                        length (List.filter Board.has_empty (Board.grid b)))
                       (Board.empty_row (Board.width b))
             ++ List.filter Board.has_empty (Board.grid b)))).
  { pose proof (filter_split_length Board.has_empty (Board.grid b)) as Hsplit.
    split; simpl.
    - rewrite length_app, length_replicate. lia.
    - apply Forall_app. split.
      + apply Forall_replicate. unfold Board.empty_row. now rewrite length_replicate.
      + rewrite Forall_forall in *. intros row Hin. apply Hrows.
        apply list_elem_of_In in Hin. apply filter_In in Hin as [Hin _].
        now apply list_elem_of_In. }
  split; [| exact Hwf']. unfold same_frame. simpl. auto.
Qed.

(** ** [TetrisGame.lock_piece] *)

Lemma int_min_spec (a b : Z) : int_min a b = Z.min a b.
Proof. unfold int_min. destruct (Z.ltb_spec b a); lia. Qed.

Lemma calculate_score_eq (n : Z) (w : TetrisGame.World) :
  TetrisGame._calculate_score n w =
  (w, Ok (base_score n * (TetrisGame.level (TetrisGame.game w) + 1))).
Proof.
  assert (Hout : n < 0 \/ 5 <= n -> base_score n = 0).
  { intros Hn. unfold base_score.
    repeat match goal with
           | |- context [?a =? ?b] => destruct (Z.eqb_spec a b); [lia |]
           end.
    reflexivity. }
  unfold TetrisGame._calculate_score. py_unfold.
  change (Z.of_nat (length TetrisGame.LINE_CLEAR_SCORES)) with 5.
  destruct (Z.ltb_spec n 0); simpl; [rewrite Hout by lia; reflexivity |].
  destruct (Z.geb_spec n 5); simpl; [rewrite Hout by lia; reflexivity |].
  assert (Hn : n = 0 \/ n = 1 \/ n = 2 \/ n = 3 \/ n = 4) by lia.
  destruct Hn as [-> | [-> | [-> | [-> | ->]]]]; reflexivity.
Qed.

Lemma small_int_converts (k : nat) :
  (k < 20)%nat ->
  match binary_normalize prec emax (Z.of_nat k) 0 false with
  | S754_infinity _ => false
  | _ => true
  end = true.
Proof.
  intros Hk. do 20 (destruct k as [| k]; [vm_compute; reflexivity |]). lia.
Qed.

Lemma float_of_int_small {S} (n : Z) (s : S) :
  0 <= n < 20 -> float_of_int n s = (s, Ok (to_float n)).
Proof.
  intros Hn. pose proof (small_int_converts (Z.to_nat n)) as Hk.
  rewrite Z2Nat.id in Hk by lia. unfold float_of_int, to_float.
  destruct (binary_normalize prec emax n 0 false); try reflexivity.
  discriminate Hk. lia.
Qed.

Lemma level_for_lines_bounds (lines : Z) : 0 <= lines -> 1 <= level_for_lines lines <= 20.
Proof.
  intros H. unfold level_for_lines.
  assert (0 <= lines / 10) by (apply Z.div_pos; lia). lia.
Qed.

Lemma on_board_run {A} (m : Py Board.t A) (w : TetrisGame.World) b' r :
  m (TetrisGame.board (TetrisGame.game w)) = (b', r) ->
  TetrisGame.on_board m w = (with_game (TetrisGame.set_board b') w, r).
Proof. intros Hm. unfold TetrisGame.on_board, zoom. now rewrite Hm. Qed.

Lemma lock_piece_run (w : TetrisGame.World) (p : Tetromino.t) (b1 b2 : Board.t) (n : Z) :
  TetrisGame.current_piece (TetrisGame.game w) = Some p ->
  Board.place_piece p (TetrisGame.board (TetrisGame.game w)) = (b1, Ok tt) ->
  Board.clear_lines b1 = (b2, Ok n) ->
  0 <= TetrisGame.lines_cleared (TetrisGame.game w) -> 0 <= n ->
  TetrisGame.lock_piece w =
  TetrisGame.spawn_new_piece (with_game (fun g => scored n (TetrisGame.set_board b2 g)) w).
Proof.
  intros Hp Hplace Hclear Hlines Hn.
  unfold TetrisGame.lock_piece.
  unfold mbind at 1. unfold Py_bind, bind at 1. unfold gets at 1. rewrite Hp.
  unfold mbind at 1. unfold Py_bind, bind at 1.
  rewrite (on_board_run _ w b1 (Ok tt) Hplace).
  unfold mbind at 1. unfold Py_bind, bind at 1.
  rewrite (on_board_run _ (with_game (TetrisGame.set_board b1) w) b2 (Ok n) Hclear).
  unfold mbind at 1. unfold Py_bind, bind at 1.
  unfold scored. destruct (Z.gtb_spec n 0) as [Hpos | Hzero].
  - destruct (Z.ltb_spec 0 n); [| lia].
    unfold TetrisGame.setattr. py_unfold. rewrite calculate_score_eq. simpl.
    rewrite float_of_int_small.
    + simpl. rewrite int_min_spec. reflexivity.
    + rewrite int_min_spec.
      pose proof (level_for_lines_bounds (TetrisGame.lines_cleared (TetrisGame.game w) + n)).
      unfold level_for_lines in *. lia.
  - destruct (Z.ltb_spec 0 n); [lia |]. reflexivity.
Qed.

Lemma fitsb_fits (b : Board.t) (p : Tetromino.t) : fitsb b p = true -> fits b p.
Proof.
  unfold fitsb. intros H. apply negb_true_iff in H.
  assert (Hno : ~ collides (Board.mk (Board.width b) (Board.height b) []) p 0 0).
  { rewrite <- collidesb_spec. now rewrite H. }
  intros r c Hcell. destruct (not_collides_fits _ p 0 0 Hno r c Hcell) as [Hx Hy].
  simpl in Hx, Hy. lia.
Qed.

Lemma spawn_new_piece_post (w : TetrisGame.World) :
  spawn_post w (fst (TetrisGame.spawn_new_piece w)).
Proof.
  rewrite spawn_new_piece_eq. unfold spawn_post, spawned.
  destruct (Board.is_valid_position _ _ 0 0) as [[|] | e |];
    destruct (TetrisGame.next_piece (TetrisGame.game w)); simpl;
    repeat split; eauto.
Qed.

Lemma spawn_new_piece_ok (w : TetrisGame.World) :
  board_wf (TetrisGame.board (TetrisGame.game w)) ->
  snd (TetrisGame.spawn_new_piece w) = Ok tt.
Proof.
  intros Hwf. rewrite spawn_new_piece_eq.
  rewrite (is_valid_position_collidesb _ (incoming w) 0 0 Hwf).
  now destruct (collidesb _ _ 0 0).
Qed.

(** C2. In a game with a current piece that lies inside a board of [H] rows
    of [W] cells, and with a line count that is not negative, [lock_piece]
    commits the piece, clears the lines and returns; the board is the
    cleared one.  With [n > 0] lines cleared the line count grows by [n], the
    score by [base_score n * (L + 1)] for the level [L] before the call, the
    level becomes [min(20, lines / 10 + 1)] and the drop interval
    [max(0.05, 1.0 - (level - 1) * 0.05)]; with [n = 0] the four are
    unchanged.  [_calculate_score] is [base_score n * (level + 1)] for every
    [n], and [base_score] is 0, 40, 100, 300, 1200 on 0..4 and 0 elsewhere. *)
Theorem lock_piece_spec (w : TetrisGame.World) (p : Tetromino.t) :
  TetrisGame.current_piece (TetrisGame.game w) = Some p ->
  board_wf (TetrisGame.board (TetrisGame.game w)) ->
  fits (TetrisGame.board (TetrisGame.game w)) p ->
  0 <= TetrisGame.lines_cleared (TetrisGame.game w) ->
  exists b1 b2 n w',
    Board.place_piece p (TetrisGame.board (TetrisGame.game w)) = (b1, Ok tt) /\
    Board.clear_lines b1 = (b2, Ok n) /\
    TetrisGame.lock_piece w = (w', Ok tt) /\
    TetrisGame.board (TetrisGame.game w') = b2 /\
    0 <= n /\
    (0 < n ->
     TetrisGame.lines_cleared (TetrisGame.game w') =
       TetrisGame.lines_cleared (TetrisGame.game w) + n /\
     TetrisGame.score (TetrisGame.game w') =
       TetrisGame.score (TetrisGame.game w)
       + base_score n * (TetrisGame.level (TetrisGame.game w) + 1) /\
     TetrisGame.level (TetrisGame.game w') =
       Z.min 20 (TetrisGame.lines_cleared (TetrisGame.game w') / 10 + 1) /\
     TetrisGame.drop_interval (TetrisGame.game w') =
       float_max 0.05
         (PrimFloat.sub 1.0
            (PrimFloat.mul (to_float (TetrisGame.level (TetrisGame.game w') - 1)) 0.05))) /\
    (n = 0 ->
     TetrisGame.lines_cleared (TetrisGame.game w') = TetrisGame.lines_cleared (TetrisGame.game w) /\
     TetrisGame.score (TetrisGame.game w') = TetrisGame.score (TetrisGame.game w) /\
     TetrisGame.level (TetrisGame.game w') = TetrisGame.level (TetrisGame.game w) /\
     TetrisGame.drop_interval (TetrisGame.game w') =
       TetrisGame.drop_interval (TetrisGame.game w)) /\
    (forall k v, TetrisGame._calculate_score k v =
                 (v, Ok (base_score k * (TetrisGame.level (TetrisGame.game v) + 1)))) /\
    (base_score 0 = 0 /\ base_score 1 = 40 /\ base_score 2 = 100 /\
     base_score 3 = 300 /\ base_score 4 = 1200 /\
     forall k, k < 0 \/ 4 < k -> base_score k = 0).
Proof.
  intros Hp Hwf Hfits Hlines.
  destruct (place_piece_ok p _ Hwf Hfits) as (b1 & Hplace & Hsame1 & Hwf1).
  destruct (clear_lines_wf b1 Hwf1) as (b2 & n & Hclear & Hn & Hsame2 & Hwf2).
  exists b1, b2, n, (fst (TetrisGame.lock_piece w)).
  rewrite (lock_piece_run w p b1 b2 n Hp Hplace Hclear Hlines Hn).
  set (w2 := with_game (fun g => scored n (TetrisGame.set_board b2 g)) w).
  assert (Hb2 : TetrisGame.board (TetrisGame.game w2) = b2).
  { unfold w2, with_game, scored. simpl. now destruct (0 <? n). }
  pose proof (spawn_new_piece_post w2) as Hpost.
  pose proof (spawn_new_piece_ok w2) as Hok. rewrite Hb2 in Hok. specialize (Hok Hwf2).
  destruct Hpost as (Hb & Hs & Hl & Hc & _ & _ & _ & Hd & _).
  split; [exact Hplace |]. split; [exact Hclear |].
  split; [destruct (TetrisGame.spawn_new_piece w2); simpl in *; now subst |].
  split; [now rewrite Hb |]. split; [exact Hn |].
  rewrite Hs, Hl, Hc, Hd. unfold w2, with_game, scored. simpl.
  split; [| split; [| split]].
  - intros Hpos. destruct (Z.ltb_spec 0 n); [| lia]. simpl. repeat split.
  - intros ->. simpl. repeat split.
  - intros k v. apply calculate_score_eq.
  - repeat split. intros k Hk. unfold base_score.
    repeat match goal with
           | |- context [?a =? ?b] => destruct (Z.eqb_spec a b); [lia |]
           end.
    reflexivity.
Qed.

Lemma lock_piece_spec_witness :
  exists w',
    TetrisGame.lock_piece two_lines_world = (w', Ok tt) /\
    TetrisGame.lines_cleared (TetrisGame.game w') = 11 /\
    TetrisGame.score (TetrisGame.game w') = 700 /\
    TetrisGame.level (TetrisGame.game w') = 2.
Proof.
  destruct (lock_piece_spec two_lines_world (Tetromino.mk Shape.O 0 4 18))
    as (b1 & b2 & n & w' & Hplace & Hclear & Hlock & _ & _ & Hpos & _).
  - reflexivity.
  - split; [reflexivity | repeat constructor].
  - apply fitsb_fits. vm_compute. reflexivity.
  - simpl. lia.
  - exists w'. split; [exact Hlock |].
    assert (Hb1 : b1 = fst (Board.place_piece (Tetromino.mk Shape.O 0 4 18)
                              (TetrisGame.board (TetrisGame.game two_lines_world))))
      by now rewrite Hplace.
    assert (Hn : n = 2).
    { assert (Hr : snd (Board.clear_lines b1) = Ok n) by now rewrite Hclear.
      rewrite Hb1 in Hr. vm_compute in Hr. now injection Hr. }
    subst n. destruct Hpos as (Hl & Hs & Hv & _); [lia |].
    rewrite Hv, Hl, Hs. simpl. repeat split.
Defined.

(** ** Hoare triples for the game methods *)

Lemma triple_ret {A} (P : TetrisGame.World -> Prop) (a : A) :
  triple P (ret a) (fun r w => r = a /\ P w).
Proof. intros w HP. exists w, a. auto. Qed.

Lemma triple_bind {A B} P (m : TetrisGame.M A) Q (k : A -> TetrisGame.M B) R :
  triple P m Q -> (forall a, triple (Q a) (k a) R) -> triple P (x ← m; k x) R.
Proof.
  intros Hm Hk w HP. destruct (Hm w HP) as (w1 & a & Hrun & HQ).
  destruct (Hk a w1 HQ) as (w2 & b & Hrun' & HR).
  exists w2, b. split; [| exact HR]. py_unfold. now rewrite Hrun.
Qed.

Lemma triple_weaken {A} (P P' : TetrisGame.World -> Prop) (m : TetrisGame.M A)
      (Q Q' : A -> TetrisGame.World -> Prop) :
  triple P' m Q' -> (forall w, P w -> P' w) -> (forall a w, Q' a w -> Q a w) ->
  triple P m Q.
Proof.
  intros Hm HP HQ w Hw. destruct (Hm w (HP w Hw)) as (w' & a & Hrun & Hpost).
  exists w', a. auto.
Qed.

Lemma triple_gets {A} P (f : TetrisGame.World -> A) :
  triple P (gets f) (fun a w => P w /\ a = f w).
Proof. intros w HP. exists w, (f w). auto. Qed.

Lemma triple_setattr P (f : TetrisGame.t -> TetrisGame.t) (Q : TetrisGame.World -> Prop) :
  (forall w, P w -> Q (with_game f w)) ->
  triple P (TetrisGame.setattr f) (fun _ w => Q w).
Proof. intros H w HP. exists (with_game f w), tt. split; [reflexivity | auto]. Qed.

Lemma fits_same_dims (b b' : Board.t) (p : Tetromino.t) :
  Board.width b' = Board.width b -> Board.height b' = Board.height b ->
  fits b p -> fits b' p.
Proof. intros Hw Hh Hfits r c Hcell. rewrite Hw, Hh. now apply Hfits. Qed.

Lemma fits_unshifted (b : Board.t) (p : Tetromino.t) : fits b (shifted p 0 0) -> fits b p.
Proof.
  intros Hfits r c Hcell. specialize (Hfits r c Hcell). simpl in Hfits. lia.
Qed.

Lemma spawn_fits (b : Board.t) (k : Shape.t) :
  Board.width b = 10 -> Board.height b = 20 -> fits b (Tetromino.mk k 0 4 0).
Proof.
  intros Hw Hh. apply fitsb_fits. unfold fitsb. rewrite Hw, Hh.
  destruct k; vm_compute; reflexivity.
Qed.

Lemma piece_has_cell (p : Tetromino.t) : exists r c, piece_cell p r c.
Proof.
  assert (Hall : forall k, forallb (fun frame =>
            existsb_from (fun _ row =>
              existsb_from (fun _ ch => negb (is_empty ch)) 0 (list_ascii_of_string row))
              0 frame) (Tetromino.SHAPES k) = true)
    by (intros []; vm_compute; reflexivity).
  destruct (get_current_shape_ok (S := unit) p tt) as [_ Hframe].
  specialize (Hall (Tetromino.type p)). rewrite forallb_forall in Hall.
  specialize (Hall (current_frame p)).
  rewrite existsb_from_spec in Hall.
  destruct Hall as (r & row & Hrow & Hrowhit).
  { apply list_elem_of_In. eapply list_elem_of_lookup_2. exact Hframe. }
  apply existsb_from_spec in Hrowhit as (c & ch & Hch & Hne).
  exists r, c, row, ch. repeat split; auto. now apply not_empty_spec.
Qed.

Ltac inv_split :=
  unfold game_inv;
  refine (conj _ (conj _ (conj _ (conj _ (conj _ (conj _ (conj _ _))))))).

Lemma incoming_unrotated (w : TetrisGame.World) :
  (forall q, TetrisGame.next_piece (TetrisGame.game w) = Some q -> Tetromino.rotation q = 0) ->
  incoming w = Tetromino.mk (Tetromino.type (incoming w)) 0 4 0.
Proof.
  intros Hnext. unfold incoming.
  destruct (TetrisGame.next_piece (TetrisGame.game w)) as [q |]; simpl; [| reflexivity].
  now rewrite (Hnext q eq_refl).
Qed.

Lemma triple_spawn (s0 : Z) :
  triple (Inv s0) TetrisGame.spawn_new_piece (fun _ w => Inv s0 w /\ at_spawn w).
Proof.
  intros w [(Hwf & Hw & Hh & Hcur & Hnext & Hscore & Hlevel & Hlines) Hs0].
  pose proof (spawn_new_piece_post w) as Hpost.
  pose proof (spawn_new_piece_ok w Hwf) as Hok.
  destruct (TetrisGame.spawn_new_piece w) as [w' r]. simpl in *. subst r.
  destruct Hpost as (Hb & Hsc & Hlv & Hln & _ & _ & _ & _ & _ & Hc & (k & Hn) & _).
  pose proof (incoming_unrotated w Hnext) as Hin.
  exists w', tt. split; [reflexivity |]. split; [split |].
  - inv_split; rewrite ?Hb, ?Hsc, ?Hlv, ?Hln, ?Hc, ?Hn; auto.
    + intros p [= <-]. rewrite Hin. now apply spawn_fits.
    + now intros q [= <-].
  - now rewrite Hsc.
  - exists (incoming w). split; [exact Hc |]. rewrite Hin. simpl. auto.
Qed.

Lemma game_inv_set_current (g : TetrisGame.t) (p : Tetromino.t) :
  game_inv g -> fits (TetrisGame.board g) p ->
  game_inv (TetrisGame.set_current_piece (Some p) g).
Proof.
  intros (Hwf & Hw & Hh & Hcur & Hnext & Hscore & Hlevel & Hlines) Hfits.
  inv_split; simpl; auto. now intros q [= <-].
Qed.

Lemma game_inv_add_score (g : TetrisGame.t) (d : Z) :
  game_inv g -> 0 <= d -> game_inv (TetrisGame.set_score (TetrisGame.score g + d) g).
Proof.
  intros (Hwf & Hw & Hh & Hcur & Hnext & Hscore & Hlevel & Hlines) Hd.
  inv_split; simpl; auto. lia.
Qed.

(** What [move_piece] does in a game with the invariant. *)
Lemma move_piece_inv (s0 dx dy : Z) (w : TetrisGame.World) :
  Inv s0 w ->
  exists w' moved,
    TetrisGame.move_piece dx dy w = (w', Ok moved) /\ Inv s0 w' /\
    TetrisGame.score (TetrisGame.game w') = TetrisGame.score (TetrisGame.game w) /\
    match TetrisGame.current_piece (TetrisGame.game w) with
    | Some p =>
        if moved
        then w' = with_game (TetrisGame.set_current_piece (Some (shifted p dx dy))) w /\
             fits (TetrisGame.board (TetrisGame.game w)) (shifted p dx dy)
        else w' = w
    | None => moved = false /\ w' = w
    end.
Proof.
  intros [Hinv Hs0]. rewrite move_piece_eq.
  destruct (TetrisGame.current_piece (TetrisGame.game w)) as [p |] eqn:Hp.
  - pose proof Hinv as (Hwf & _).
    pose proof (valid_fits _ p dx dy Hwf) as Hfits.
    rewrite (is_valid_position_collidesb _ p dx dy Hwf) in *.
    destruct (collidesb _ p dx dy); simpl in *.
    + exists w, false. split; [reflexivity |]. split; [now split |]. now split.
    + specialize (Hfits eq_refl). eexists _, true. split; [reflexivity |].
      split; [split; [now apply game_inv_set_current | exact Hs0] |].
      split; [reflexivity |]. split; [reflexivity | exact Hfits].
  - exists w, false. split; [reflexivity |]. split; [now split |]. now split.
Qed.

Lemma triple_move (s0 dx dy : Z) :
  triple (Inv s0) (TetrisGame.move_piece dx dy) (fun _ => Inv s0).
Proof.
  intros w Hw. destruct (move_piece_inv s0 dx dy w Hw) as (w' & moved & Hrun & Hinv & _).
  now exists w', moved.
Qed.

Lemma rotate_piece_eq (w : TetrisGame.World) :
  TetrisGame.rotate_piece w =
  match TetrisGame.current_piece (TetrisGame.game w) with
  | None => (w, Ok false)
  | Some p =>
      match Board.is_valid_position (TetrisGame.board (TetrisGame.game w))
                                    (Tetromino.rotate p) 0 0 with
      | Ok true =>
          (with_game (TetrisGame.set_current_piece (Some (Tetromino.rotate p))) w, Ok true)
      | Ok false => (w, Ok false)
      | Raise e => (w, Raise e)
      | OutOfFuel => (w, OutOfFuel)
      end
  end.
Proof.
  unfold TetrisGame.rotate_piece, TetrisGame.setattr. py_unfold.
  destruct (TetrisGame.current_piece (TetrisGame.game w)) as [p |]; [| reflexivity].
  destruct (Board.is_valid_position _ _ 0 0) as [[|] | e |]; reflexivity.
Qed.

Lemma triple_rotate (s0 : Z) :
  triple (fun w => Inv s0 w) TetrisGame.rotate_piece
         (fun _ w => Inv s0 w).
Proof.
  intros w [Hinv Hs0]. rewrite rotate_piece_eq.
  destruct (TetrisGame.current_piece (TetrisGame.game w)) as [p |] eqn:Hp.
  - pose proof Hinv as (Hwf & _).
    pose proof (valid_fits _ (Tetromino.rotate p) 0 0 Hwf) as Hfits.
    rewrite (is_valid_position_collidesb _ (Tetromino.rotate p) 0 0 Hwf) in *.
    destruct (collidesb _ _ 0 0); simpl in *.
    + exists w, false. split; [reflexivity | now split].
    + specialize (Hfits eq_refl). apply fits_unshifted in Hfits.
      eexists _, true. split; [reflexivity |]. split; [| exact Hs0].
      now apply game_inv_set_current.
  - exists w, false. split; [reflexivity | now split].
Qed.

(** The [while] loop of [hard_drop] ends before its fuel does. *)
Lemma hard_drop_loop_ok (s0 : Z) (fuel : nat) : forall w p,
  Inv s0 w ->
  TetrisGame.current_piece (TetrisGame.game w) = Some p ->
  (Z.to_nat (20 - Tetromino.y p) <= fuel)%nat ->
  exists w', TetrisGame.hard_drop_loop fuel w = (w', Ok tt) /\ Inv s0 w'.
Proof.
  induction fuel as [| fuel IH]; intros w p Hw Hp Hfuel;
    destruct (move_piece_inv s0 0 1 w Hw) as (w1 & moved & Hrun & Hinv1 & Hsc & Hcase);
    rewrite Hp in Hcase; simpl; py_unfold; rewrite Hrun;
    (destruct moved; [| exists w1; now split]);
    destruct Hcase as [-> Hfits];
    destruct (piece_has_cell p) as (r & c & Hcell);
    destruct (Hfits r c Hcell) as [_ Hy];
    destruct Hw as [Hinv Hs0]; pose proof Hinv as (_ & _ & Hh & _);
    rewrite Hh in Hy; simpl in Hy.
  - lia.
  - unfold TetrisGame.setattr. py_unfold.
    apply (IH _ (shifted p 0 1)).
    + destruct Hinv1 as [Hinv1 Hs1]. split.
      * apply (game_inv_add_score _ 2 Hinv1). lia.
      * simpl in *. unfold TetrisGame.HARD_DROP_POINTS. lia.
    + reflexivity.
    + simpl. lia.
Qed.

Lemma spawn_inv (s0 : Z) (w : TetrisGame.World) :
  Inv s0 w ->
  exists w',
    TetrisGame.spawn_new_piece w = (w', Ok tt) /\ Inv s0 w' /\ at_spawn w' /\
    TetrisGame.score (TetrisGame.game w') = TetrisGame.score (TetrisGame.game w).
Proof.
  intros Hw. destruct (triple_spawn s0 w Hw) as (w' & [] & Hrun & Hinv & Hat).
  exists w'. split; [exact Hrun |]. split; [exact Hinv |]. split; [exact Hat |].
  pose proof (spawn_new_piece_post w) as Hpost. rewrite Hrun in Hpost.
  apply Hpost.
Qed.

Lemma base_score_nonneg (n : Z) : 0 <= base_score n.
Proof.
  unfold base_score.
  repeat match goal with
         | |- context [?a =? ?b] => destruct (Z.eqb_spec a b); [lia |]
         end.
  lia.
Qed.

Lemma game_inv_scored (g : TetrisGame.t) (b2 : Board.t) (n : Z) :
  game_inv g -> board_wf b2 ->
  Board.width b2 = Board.width (TetrisGame.board g) ->
  Board.height b2 = Board.height (TetrisGame.board g) ->
  0 <= n ->
  game_inv (scored n (TetrisGame.set_board b2 g)) /\
  TetrisGame.score g <= TetrisGame.score (scored n (TetrisGame.set_board b2 g)) /\
  TetrisGame.current_piece (scored n (TetrisGame.set_board b2 g)) = TetrisGame.current_piece g.
Proof.
  intros (Hwf & Hw & Hh & Hcur & Hnext & Hscore & Hlevel & Hlines) Hwf2 Hw2 Hh2 Hn.
  assert (Hfits : forall p, TetrisGame.current_piece g = Some p -> fits b2 p).
  { intros p Hp. eapply fits_same_dims; [exact Hw2 | exact Hh2 | now apply Hcur]. }
  pose proof (base_score_nonneg n) as Hbase.
  unfold scored. simpl. destruct (Z.ltb_spec 0 n).
  - pose proof (level_for_lines_bounds (TetrisGame.lines_cleared g + n)) as Hlv.
    split; [| split; [simpl; nia | reflexivity]].
    inv_split; simpl; auto; lia.
  - split; [| split; [simpl; lia | reflexivity]].
    inv_split; simpl; auto; lia.
Qed.

Lemma lock_piece_inv (s0 : Z) (w : TetrisGame.World) :
  Inv s0 w ->
  exists w',
    TetrisGame.lock_piece w = (w', Ok tt) /\ Inv s0 w' /\
    (is_Some (TetrisGame.current_piece (TetrisGame.game w)) -> at_spawn w').
Proof.
  intros [Hinv Hs0].
  destruct (TetrisGame.current_piece (TetrisGame.game w)) as [p |] eqn:Hp.
  - pose proof Hinv as (Hwf & Hw & Hh & Hcur & Hnext & Hscore & Hlevel & Hlines).
    destruct (place_piece_ok p _ Hwf (Hcur p Hp)) as (b1 & Hplace & (Hw1 & Hh1 & _) & Hwf1).
    destruct (clear_lines_wf b1 Hwf1) as (b2 & n & Hclear & Hn & (Hw2 & Hh2 & _) & Hwf2).
    rewrite (lock_piece_run w p b1 b2 n Hp Hplace Hclear Hlines Hn).
    destruct (game_inv_scored (TetrisGame.game w) b2 n Hinv Hwf2) as (Hinv2 & Hsc2 & _);
      [congruence | congruence | exact Hn |].
    destruct (spawn_inv s0 (with_game (fun g => scored n (TetrisGame.set_board b2 g)) w))
      as (w' & Hrun & Hinv' & Hat & _).
    { split; [exact Hinv2 | simpl; lia]. }
    exists w'. auto.
  - exists w. split; [| split; [now split | intros [q Hq]; discriminate]].
    unfold TetrisGame.lock_piece. py_unfold. now rewrite Hp.
Qed.

Lemma preserves_ret {A} (a : A) : preserves (ret a : TetrisGame.M A).
Proof. intros s0 w Hw. now exists w, a. Qed.

Lemma preserves_bind {A B} (m : TetrisGame.M A) (k : A -> TetrisGame.M B) :
  preserves m -> (forall a, preserves (k a)) -> preserves (x ← m; k x).
Proof. intros Hm Hk s0. eapply triple_bind; [apply Hm | intros a; apply Hk]. Qed.

Lemma preserves_gets {A} (f : TetrisGame.World -> A) : preserves (gets f).
Proof. intros s0 w Hw. now exists w, (f w). Qed.

Lemma preserves_setattr (f : TetrisGame.t -> TetrisGame.t) :
  (forall g, game_inv g -> game_inv (f g) /\ TetrisGame.score g <= TetrisGame.score (f g)) ->
  preserves (TetrisGame.setattr f).
Proof.
  intros Hf s0 w [Hinv Hs0]. destruct (Hf _ Hinv) as [Hinv' Hle].
  exists (with_game f w), tt. split; [reflexivity |]. split; [exact Hinv' | simpl; lia].
Qed.

Lemma preserves_spawn : preserves TetrisGame.spawn_new_piece.
Proof.
  intros s0 w Hw. destruct (spawn_inv s0 w Hw) as (w' & Hrun & Hinv & _).
  now exists w', tt.
Qed.

Lemma preserves_move (dx dy : Z) : preserves (TetrisGame.move_piece dx dy).
Proof. intros s0. apply triple_move. Qed.

Lemma preserves_rotate : preserves TetrisGame.rotate_piece.
Proof. intros s0. apply triple_rotate. Qed.

Lemma preserves_lock : preserves TetrisGame.lock_piece.
Proof.
  intros s0 w Hw. destruct (lock_piece_inv s0 w Hw) as (w' & Hrun & Hinv & _).
  now exists w', tt.
Qed.

Lemma preserves_hard_drop : preserves TetrisGame.hard_drop.
Proof.
  intros s0 w Hw. unfold TetrisGame.hard_drop. py_unfold.
  destruct (TetrisGame.current_piece (TetrisGame.game w)) as [p |] eqn:Hp.
  - pose proof Hw as [(_ & _ & Hh & _) _]. rewrite Hh.
    destruct (hard_drop_loop_ok s0 _ w p Hw Hp (Nat.le_refl _)) as (w1 & -> & Hw1).
    now apply preserves_lock.
  - now exists w, tt.
Qed.

Lemma preserves_time_time : preserves TetrisGame.time_time.
Proof. intros s0 w Hw. eexists _, _. split; [reflexivity | exact Hw]. Qed.

Lemma preserves_update : preserves TetrisGame.update.
Proof.
  unfold TetrisGame.update.
  apply preserves_bind; [apply preserves_gets |]. intros self.
  destruct (_ || _); [apply preserves_ret |].
  apply preserves_bind; [apply preserves_time_time |]. intros current_time.
  destruct (PrimFloat.leb _ _); [| apply preserves_ret].
  apply preserves_bind; [apply preserves_move |]. intros moved.
  apply preserves_bind.
  - destruct (negb moved); [apply preserves_lock | apply preserves_ret].
  - intros _. apply preserves_setattr. intros g Hg. split; [exact Hg | simpl; lia].
Qed.

Lemma preserves_toggle_pause : preserves TetrisGame.toggle_pause.
Proof. apply preserves_setattr. intros g Hg. split; [exact Hg | simpl; lia]. Qed.

Lemma preserves_toggle_theme : preserves TetrisGame.toggle_theme.
Proof. apply preserves_setattr. intros g Hg. split; [exact Hg | simpl; lia]. Qed.

(** ** Construction and restart *)

Lemma init_eq (choices : nat -> Shape.t) (clock : nat -> float) :
  TetrisGame.init choices clock =
  (TetrisGame.spawn_new_piece ;; TetrisGame.spawn_new_piece) (fresh_world GREEN choices clock).
Proof. reflexivity. Qed.

Lemma restart_eq (w : TetrisGame.World) :
  TetrisGame.restart w =
  (TetrisGame.spawn_new_piece ;; TetrisGame.spawn_new_piece)
    (fresh_world (TetrisGame.theme (TetrisGame.game w)) (TetrisGame.choices w)
                 (TetrisGame.clock w)).
Proof. reflexivity. Qed.

Lemma fresh_world_inv theme choices clock :
  Inv 0 (fresh_world theme choices clock) /\
  TetrisGame.score (TetrisGame.game (fresh_world theme choices clock)) = 0.
Proof.
  split; [split |]; simpl; try lia.
  inv_split; simpl; auto; try lia; try discriminate. apply board_wf_init.
Qed.

Lemma two_spawns_inv (w : TetrisGame.World) :
  Inv 0 w -> TetrisGame.score (TetrisGame.game w) = 0 ->
  exists w',
    (TetrisGame.spawn_new_piece ;; TetrisGame.spawn_new_piece) w = (w', Ok tt) /\
    game_inv (TetrisGame.game w') /\ TetrisGame.score (TetrisGame.game w') = 0 /\
    at_spawn w'.
Proof.
  intros Hw Hs.
  destruct (spawn_inv 0 w Hw) as (w1 & Hrun1 & Hw1 & _ & Hs1).
  destruct (spawn_inv 0 w1 Hw1) as (w2 & Hrun2 & Hw2 & Hat & Hs2).
  exists w2. py_unfold. rewrite Hrun1. split; [exact Hrun2 |].
  split; [apply Hw2 |]. split; [lia | exact Hat].
Qed.

Lemma init_inv (choices : nat -> Shape.t) (clock : nat -> float) :
  exists w,
    TetrisGame.init choices clock = (w, Ok tt) /\
    game_inv (TetrisGame.game w) /\ TetrisGame.score (TetrisGame.game w) = 0 /\ at_spawn w.
Proof.
  rewrite init_eq. destruct (fresh_world_inv GREEN choices clock) as [Hw Hs].
  now apply two_spawns_inv.
Qed.

Lemma restart_inv (w : TetrisGame.World) :
  exists w',
    TetrisGame.restart w = (w', Ok tt) /\
    game_inv (TetrisGame.game w') /\ TetrisGame.score (TetrisGame.game w') = 0 /\
    at_spawn w'.
Proof.
  rewrite restart_eq.
  destruct (fresh_world_inv (TetrisGame.theme (TetrisGame.game w)) (TetrisGame.choices w)
              (TetrisGame.clock w)) as [Hw Hs].
  now apply two_spawns_inv.
Qed.

(** ** [handle_input] and the operations, one by one *)

Lemma preserves_run {A} (m : TetrisGame.M A) (w : TetrisGame.World) :
  preserves m -> game_inv (TetrisGame.game w) ->
  exists w' a,
    m w = (w', Ok a) /\ game_inv (TetrisGame.game w') /\
    TetrisGame.score (TetrisGame.game w) <= TetrisGame.score (TetrisGame.game w').
Proof.
  intros Hm Hinv.
  destruct (Hm (TetrisGame.score (TetrisGame.game w)) w) as (w' & a & Hrun & Hinv' & Hle).
  { split; [exact Hinv | lia]. }
  now exists w', a.
Qed.

Lemma preserves_play (key : Z) :
  preserves
    (self ← gets TetrisGame.game;
     if negb (TetrisGame.paused self) && negb (TetrisGame.game_over self) then
       if key =? curses.KEY_LEFT then TetrisGame.move_piece (-1) 0 ;; ret tt
       else if key =? curses.KEY_RIGHT then TetrisGame.move_piece 1 0 ;; ret tt
       else if key =? curses.KEY_DOWN then
         moved ← TetrisGame.move_piece 0 1;
         if moved : bool
         then TetrisGame.setattr
                (fun self => TetrisGame.set_score (TetrisGame.score self + 1) self)
         else ret tt
       else if key =? curses.KEY_UP then TetrisGame.rotate_piece ;; ret tt
       else if key =? ord " " then TetrisGame.hard_drop
       else ret tt
     else ret tt).
Proof.
  apply preserves_bind; [apply preserves_gets |]. intros self.
  destruct (_ && _); [| apply preserves_ret].
  destruct (key =? curses.KEY_LEFT).
  { apply preserves_bind; [apply preserves_move | intros _; apply preserves_ret]. }
  destruct (key =? curses.KEY_RIGHT).
  { apply preserves_bind; [apply preserves_move | intros _; apply preserves_ret]. }
  destruct (key =? curses.KEY_DOWN).
  { apply preserves_bind; [apply preserves_move |]. intros [|]; [| apply preserves_ret].
    apply preserves_setattr. intros g Hg. split; [| simpl; lia].
    apply (game_inv_add_score g 1 Hg). lia. }
  destruct (key =? curses.KEY_UP).
  { apply preserves_bind; [apply preserves_rotate | intros _; apply preserves_ret]. }
  destruct (key =? ord " "); [apply preserves_hard_drop | apply preserves_ret].
Qed.

Lemma handle_input_inv (getch : option Z) (w : TetrisGame.World) :
  game_inv (TetrisGame.game w) ->
  exists w' continue,
    TetrisUI.handle_input getch w = (w', Ok continue) /\
    game_inv (TetrisGame.game w') /\ score_step (OpKey getch) w w'.
Proof.
  intros Hinv. unfold score_step, restarts, TetrisUI.handle_input.
  destruct getch as [key |]; [| exists w, true; split; [reflexivity | split; [exact Hinv | lia]]].
  change (ord "q") with 113. change (ord "Q") with 81.
  change (ord "p") with 112. change (ord "P") with 80.
  change (ord "r") with 114. change (ord "R") with 82.
  change (ord "t") with 116. change (ord "T") with 84.
  destruct (Z.eqb_spec key 113) as [-> | Hq];
    [exists w, false; split; [reflexivity | split; [exact Hinv | simpl; lia]] |].
  destruct (Z.eqb_spec key 81) as [-> | HQ];
    [exists w, false; split; [reflexivity | split; [exact Hinv | simpl; lia]] |].
  cbn [orb].
  assert (Hwrap : forall (m : TetrisGame.M unit),
             preserves m -> (key =? 114) || (key =? 82) = false ->
             exists w' continue,
               (m ;; ret true) w = (w', Ok continue) /\ game_inv (TetrisGame.game w') /\
               (if (key =? 114) || (key =? 82)
                then TetrisGame.score (TetrisGame.game w') = 0
                else TetrisGame.score (TetrisGame.game w) <= TetrisGame.score (TetrisGame.game w'))).
  { intros m Hm ->. destruct (preserves_run m w Hm Hinv) as (w' & [] & Hrun & Hinv' & Hle).
    exists w', true. py_unfold. now rewrite Hrun. }
  cbn [orb].
  destruct (Z.eqb_spec key 112) as [-> | Hp];
    [apply Hwrap; [apply preserves_toggle_pause | reflexivity] |].
  destruct (Z.eqb_spec key 80) as [-> | HP];
    [apply Hwrap; [apply preserves_toggle_pause | reflexivity] |].
  cbn [orb].
  destruct (Z.eqb_spec key 114) as [-> | Hr].
  { destruct (restart_inv w) as (w' & Hrun & Hinv' & Hs & _).
    exists w', true. cbn [orb]. py_unfold. rewrite Hrun. auto. }
  destruct (Z.eqb_spec key 82) as [-> | HR].
  { destruct (restart_inv w) as (w' & Hrun & Hinv' & Hs & _).
    exists w', true. cbn [orb]. py_unfold. rewrite Hrun. auto. }
  cbn [orb].
  destruct (Z.eqb_spec key 116) as [-> | Ht];
    [apply (Hwrap _ preserves_toggle_theme eq_refl) |].
  destruct (Z.eqb_spec key 84) as [-> | HT];
    [apply (Hwrap _ preserves_toggle_theme eq_refl) |].
  cbn [orb].
  destruct (preserves_run _ w (preserves_play key) Hinv) as (w' & [] & Hrun & Hinv' & Hle).
  exists w', true. split; [| split; [exact Hinv' | exact Hle]].
  py_unfold. now rewrite Hrun.
Qed.

Lemma run_op_inv (o : op) (w : TetrisGame.World) :
  game_inv (TetrisGame.game w) ->
  exists w', run_op o w = (w', Ok tt) /\ game_inv (TetrisGame.game w') /\ score_step o w w'.
Proof.
  intros Hinv.
  assert (Hkeep : forall A (m : TetrisGame.M A), preserves m ->
            exists w', (m ;; ret tt) w = (w', Ok tt) /\ game_inv (TetrisGame.game w') /\
                       TetrisGame.score (TetrisGame.game w) <= TetrisGame.score (TetrisGame.game w')).
  { intros A m Hm. destruct (preserves_run m w Hm Hinv) as (w' & a & Hrun & Hinv' & Hle).
    exists w'. py_unfold. now rewrite Hrun. }
  assert (Hunit : forall (m : TetrisGame.M unit), preserves m ->
            exists w', m w = (w', Ok tt) /\ game_inv (TetrisGame.game w') /\
                       TetrisGame.score (TetrisGame.game w) <= TetrisGame.score (TetrisGame.game w')).
  { intros m Hm. destruct (preserves_run m w Hm Hinv) as (w' & [] & Hrun & Hinv' & Hle).
    now exists w'. }
  destruct o as [| dx dy | | | | | | | | getch]; unfold score_step; simpl.
  - apply Hunit, preserves_spawn.
  - apply Hkeep, preserves_move.
  - apply Hkeep, preserves_rotate.
  - apply Hunit, preserves_hard_drop.
  - apply Hunit, preserves_lock.
  - apply Hunit, preserves_update.
  - apply Hunit, preserves_toggle_pause.
  - apply Hunit, preserves_toggle_theme.
  - destruct (restart_inv w) as (w' & Hrun & Hinv' & Hs & _). now exists w'.
  - destruct (handle_input_inv getch w Hinv) as (w' & c & Hrun & Hinv' & Hstep).
    exists w'. split; [py_unfold; now rewrite Hrun |]. split; [exact Hinv' | exact Hstep].
Qed.

Lemma reachable_inv (w : TetrisGame.World) : reachable w -> game_inv (TetrisGame.game w).
Proof.
  induction 1 as [choices clock w Hinit | o w w' Hreach IH Hrun].
  - destruct (init_inv choices clock) as (w0 & Hrun & Hinv & _). congruence.
  - destruct (run_op_inv o w IH) as (w0 & Hrun0 & Hinv & _). congruence.
Qed.

(** C7. In every game reachable from [TetrisGame()] by the public
    operations (restart and key presses among them), a call of
    [spawn_new_piece] returns with the current piece at column 4, row 0,
    rotation 0; so do the calls made inside [lock_piece] (when there is a
    piece to lock) and inside [restart], and the two made by [TetrisGame()]
    itself. *)
Theorem spawn_position (w : TetrisGame.World) :
  reachable w ->
  (exists w' p,
     TetrisGame.spawn_new_piece w = (w', Ok tt) /\
     TetrisGame.current_piece (TetrisGame.game w') = Some p /\
     Tetromino.x p = 4 /\ Tetromino.y p = 0 /\ Tetromino.rotation p = 0) /\
  (is_Some (TetrisGame.current_piece (TetrisGame.game w)) ->
   exists w', TetrisGame.lock_piece w = (w', Ok tt) /\ at_spawn w') /\
  (exists w', TetrisGame.restart w = (w', Ok tt) /\ at_spawn w') /\
  (forall choices clock,
     exists w0, TetrisGame.init choices clock = (w0, Ok tt) /\ at_spawn w0).
Proof.
  intros Hreach. pose proof (reachable_inv w Hreach) as Hinv.
  assert (Hw : Inv (TetrisGame.score (TetrisGame.game w)) w) by (split; [exact Hinv | lia]).
  split; [| split; [| split]].
  - destruct (spawn_inv _ w Hw) as (w' & Hrun & _ & (p & Hp & Hx & Hy & Hr) & _).
    now exists w', p.
  - intros Hcur. destruct (lock_piece_inv _ w Hw) as (w' & Hrun & _ & Hat).
    exists w'. auto.
  - destruct (restart_inv w) as (w' & Hrun & _ & _ & Hat). now exists w'.
  - intros choices clock. destruct (init_inv choices clock) as (w0 & Hrun & _ & _ & Hat).
    now exists w0.
Qed.

Lemma spawn_position_witness :
  exists w' p,
    TetrisGame.spawn_new_piece start_world = (w', Ok tt) /\
    TetrisGame.current_piece (TetrisGame.game w') = Some p /\
    Tetromino.x p = 4 /\ Tetromino.y p = 0 /\ Tetromino.rotation p = 0.
Proof.
  refine (proj1 (spawn_position start_world _)).
  apply (reachable_init (fun _ => Shape.O) (fun _ => 0%float)).
  vm_compute. reflexivity.
Defined.

(** C9. In every reachable game the score is at least 0.  Every operation
    returns; one that is not a restart (move, rotate, hard drop, lock,
    update, the two toggles, a spawn, and any key but r) leaves the score at
    least as large as it was; [restart] and the r key set it to 0. *)
Theorem score_monotone (w : TetrisGame.World) :
  reachable w ->
  0 <= TetrisGame.score (TetrisGame.game w) /\
  (forall o,
     exists w',
       run_op o w = (w', Ok tt) /\
       (restarts o = false ->
        TetrisGame.score (TetrisGame.game w) <= TetrisGame.score (TetrisGame.game w')) /\
       (restarts o = true -> TetrisGame.score (TetrisGame.game w') = 0)) /\
  (forall dx dy,
     TetrisGame.score (TetrisGame.game w)
     <= TetrisGame.score (TetrisGame.game (fst (TetrisGame.move_piece dx dy w)))) /\
  TetrisGame.score (TetrisGame.game w)
  <= TetrisGame.score (TetrisGame.game (fst (TetrisGame.rotate_piece w))) /\
  TetrisGame.score (TetrisGame.game w)
  <= TetrisGame.score (TetrisGame.game (fst (TetrisGame.hard_drop w))) /\
  TetrisGame.score (TetrisGame.game w)
  <= TetrisGame.score (TetrisGame.game (fst (TetrisGame.lock_piece w))) /\
  TetrisGame.score (TetrisGame.game w)
  <= TetrisGame.score (TetrisGame.game (fst (TetrisGame.update w))) /\
  TetrisGame.score (TetrisGame.game w)
  <= TetrisGame.score (TetrisGame.game (fst (TetrisGame.toggle_pause w))) /\
  TetrisGame.score (TetrisGame.game w)
  <= TetrisGame.score (TetrisGame.game (fst (TetrisGame.toggle_theme w))) /\
  TetrisGame.score (TetrisGame.game (fst (TetrisGame.restart w))) = 0.
Proof.
  intros Hreach. pose proof (reachable_inv w Hreach) as Hinv.
  assert (Hfst : forall A (m : TetrisGame.M A), preserves m ->
            TetrisGame.score (TetrisGame.game w)
            <= TetrisGame.score (TetrisGame.game (fst (m w)))).
  { intros A m Hm. destruct (preserves_run m w Hm Hinv) as (w' & a & -> & _ & Hle).
    exact Hle. }
  split; [apply Hinv |]. split.
  { intros o. destruct (run_op_inv o w Hinv) as (w' & Hrun & _ & Hstep).
    exists w'. split; [exact Hrun |]. unfold score_step in Hstep.
    destruct (restarts o); split; try discriminate; auto. }
  split; [intros dx dy; apply Hfst, preserves_move |].
  split; [apply Hfst, preserves_rotate |].
  split; [apply Hfst, preserves_hard_drop |].
  split; [apply Hfst, preserves_lock |].
  split; [apply Hfst, preserves_update |].
  split; [apply Hfst, preserves_toggle_pause |].
  split; [apply Hfst, preserves_toggle_theme |].
  destruct (restart_inv w) as (w' & -> & _ & Hs & _). exact Hs.
Qed.

Lemma score_monotone_witness :
  0 <= TetrisGame.score (TetrisGame.game start_world) /\
  TetrisGame.score (TetrisGame.game start_world)
  <= TetrisGame.score (TetrisGame.game (fst (TetrisGame.hard_drop start_world))).
Proof.
  pose proof (score_monotone start_world) as H.
  destruct H as (H0 & _ & _ & _ & Hhard & _).
  - apply (reachable_init (fun _ => Shape.O) (fun _ => 0%float)). vm_compute. reflexivity.
  - split; [exact H0 | exact Hhard].
Defined.

(** ** Fuel: no loop of the model is cut short *)

Lemma fuel_free_ret {S A} (a : A) : fuel_free (ret a : Py S A).
Proof. intros s. discriminate. Qed.

Lemma fuel_free_raise {S A} (e : exn) : fuel_free (raise e : Py S A).
Proof. intros s. discriminate. Qed.

Lemma fuel_free_gets {S A} (f : S -> A) : fuel_free (gets f).
Proof. intros s. discriminate. Qed.

Lemma fuel_free_get {S} : fuel_free (get : Py S S).
Proof. intros s. discriminate. Qed.

Lemma fuel_free_modify {S} (f : S -> S) : fuel_free (modify f).
Proof. intros s. discriminate. Qed.

Lemma fuel_free_lift {S A} (r : result A) : r <> OutOfFuel -> fuel_free (lift r : Py S A).
Proof. intros Hr s. exact Hr. Qed.

Lemma fuel_free_bind {S A B} (m : Py S A) (k : A -> Py S B) :
  fuel_free m -> (forall a, fuel_free (k a)) -> fuel_free (x ← m; k x).
Proof.
  intros Hm Hk s. specialize (Hm s). py_unfold.
  destruct (m s) as [s' [a | e |]]; simpl in *; [apply Hk | discriminate | congruence].
Qed.

Lemma fuel_free_zoom {S T A} (proj : S -> T) (upd : T -> S -> S) (m : Py T A) :
  fuel_free m -> fuel_free (zoom proj upd m).
Proof.
  intros Hm s. specialize (Hm (proj s)). unfold zoom. now destruct (m (proj s)).
Qed.

Lemma fuel_free_getitem {S A} (l : list A) (i : Z) : fuel_free (getitem l i : Py S A).
Proof.
  intros s. unfold getitem. destruct (_ <? 0); [discriminate |].
  destruct (l !! _); discriminate.
Qed.

Lemma fuel_free_setitem {S A} (l : list A) (i : Z) (v : A) :
  fuel_free (setitem l i v : Py S (list A)).
Proof.
  intros s. unfold setitem. destruct (_ <? 0); [discriminate |].
  destruct (_ <? _); discriminate.
Qed.

Lemma fuel_free_for_enumerate {S A R} (body : Z -> A -> Py S (flow R)) (l : list A) :
  (forall idx a, fuel_free (body idx a)) -> forall idx, fuel_free (for_enumerate body idx l).
Proof.
  intros Hbody. induction l as [| a l IH]; intros idx; simpl.
  - apply fuel_free_ret.
  - apply fuel_free_bind; [apply Hbody |]. intros [| r]; [apply IH | apply fuel_free_ret].
Qed.

Ltac fuel_free_step :=
  lazymatch goal with
  | |- fuel_free (ret _) => apply fuel_free_ret
  | |- fuel_free (raise _) => apply fuel_free_raise
  | |- fuel_free (gets _) => apply fuel_free_gets
  | |- fuel_free get => apply fuel_free_get
  | |- fuel_free (modify _) => apply fuel_free_modify
  | |- fuel_free (getitem _ _) => apply fuel_free_getitem
  | |- fuel_free (setitem _ _ _) => apply fuel_free_setitem
  | |- fuel_free (mbind _ _) => apply fuel_free_bind; [| intros ?]
  | |- fuel_free (for_enumerate _ _ _) => apply fuel_free_for_enumerate; intros ? ?
  | |- fuel_free (if ?c then _ else _) => destruct c
  | |- fuel_free (match ?o with Some _ => _ | None => _ end) => destruct o
  end.

Ltac fuel_free_steps := repeat fuel_free_step.

Lemma fuel_free_is_valid_position_log b p dx dy :
  fuel_free (Board.is_valid_position_log b p dx dy).
Proof.
  unfold Board.is_valid_position_log, Tetromino.get_current_shape, Board.blocked,
    Board.grid_read.
  fuel_free_steps. destruct a0; fuel_free_steps.
Qed.

Lemma is_valid_position_fuel b p dx dy : Board.is_valid_position b p dx dy <> OutOfFuel.
Proof. apply fuel_free_is_valid_position_log. Qed.

Lemma fuel_free_place_piece p : fuel_free (Board.place_piece p).
Proof.
  unfold Board.place_piece, Tetromino.get_current_shape, Board.grid_write.
  fuel_free_steps.
Qed.

Lemma fuel_free_clear_lines : fuel_free Board.clear_lines.
Proof. intros b. rewrite clear_lines_eq. discriminate. Qed.

Lemma fuel_free_is_game_over : fuel_free Board.is_game_over.
Proof. unfold Board.is_game_over. fuel_free_steps. Qed.

Lemma fuel_free_setattr f : fuel_free (TetrisGame.setattr f).
Proof. apply fuel_free_modify. Qed.

Lemma fuel_free_random_choice : fuel_free TetrisGame.random_choice.
Proof. intros w. discriminate. Qed.

Lemma fuel_free_time_time : fuel_free TetrisGame.time_time.
Proof. intros w. discriminate. Qed.

Lemma fuel_free_float_of_int {S} (n : Z) : fuel_free (float_of_int n : Py S float).
Proof.
  intros s. unfold float_of_int. destruct (binary_normalize _ _ _ _ _); discriminate.
Qed.

Lemma fuel_free_spawn : fuel_free TetrisGame.spawn_new_piece.
Proof.
  intros w. rewrite spawn_new_piece_eq.
  pose proof (is_valid_position_fuel (TetrisGame.board (TetrisGame.game w)) (incoming w) 0 0).
  destruct (Board.is_valid_position _ _ 0 0) as [[|] | e |]; simpl; congruence.
Qed.

Lemma fuel_free_move dx dy : fuel_free (TetrisGame.move_piece dx dy).
Proof.
  intros w. rewrite move_piece_eq.
  destruct (TetrisGame.current_piece (TetrisGame.game w)) as [p |]; [| discriminate].
  pose proof (is_valid_position_fuel (TetrisGame.board (TetrisGame.game w)) p dx dy).
  destruct (Board.is_valid_position _ _ dx dy) as [[|] | e |]; simpl; congruence.
Qed.

Lemma fuel_free_rotate : fuel_free TetrisGame.rotate_piece.
Proof.
  intros w. rewrite rotate_piece_eq.
  destruct (TetrisGame.current_piece (TetrisGame.game w)) as [p |]; [| discriminate].
  pose proof (is_valid_position_fuel (TetrisGame.board (TetrisGame.game w))
                (Tetromino.rotate p) 0 0).
  destruct (Board.is_valid_position _ _ 0 0) as [[|] | e |]; simpl; congruence.
Qed.

Lemma fuel_free_deref {A} (o : option A) : fuel_free (TetrisGame.deref o).
Proof. destruct o; [apply fuel_free_ret | apply fuel_free_raise]. Qed.

Ltac game_fuel_step :=
  lazymatch goal with
  | |- fuel_free TetrisGame.spawn_new_piece => apply fuel_free_spawn
  | |- fuel_free (TetrisGame.move_piece _ _) => apply fuel_free_move
  | |- fuel_free TetrisGame.rotate_piece => apply fuel_free_rotate
  | |- fuel_free (TetrisGame.setattr _) => apply fuel_free_setattr
  | |- fuel_free (float_of_int _) => apply fuel_free_float_of_int
  | |- fuel_free (zoom _ _ _) => apply fuel_free_zoom
  | |- fuel_free (Board.place_piece _) => apply fuel_free_place_piece
  | |- fuel_free Board.clear_lines => apply fuel_free_clear_lines
  | |- fuel_free TetrisGame.random_choice => apply fuel_free_random_choice
  | |- fuel_free TetrisGame.time_time => apply fuel_free_time_time
  | |- fuel_free (TetrisGame.deref _) => apply fuel_free_deref
  | |- _ => fuel_free_step
  end.

Ltac game_fuel_steps := repeat game_fuel_step.

Lemma fuel_free_lock : fuel_free TetrisGame.lock_piece.
Proof.
  unfold TetrisGame.lock_piece, TetrisGame.on_board, TetrisGame._calculate_score.
  game_fuel_steps.
Qed.

Lemma blocked_false_bounds b X Y log log' :
  Board.blocked b X Y log = (log', Ok false) ->
  0 <= X < Board.width b /\ Y < Board.height b.
Proof.
  unfold Board.blocked.
  destruct (Z.ltb_spec X 0); [discriminate |].
  destruct (Z.geb_spec X (Board.width b)); [discriminate |].
  destruct (Z.geb_spec Y (Board.height b)); [discriminate |].
  intros _. lia.
Qed.

Lemma for_enumerate_next {S A R} (body : Z -> A -> Py S (flow R)) (l : list A) :
  forall idx s s',
    for_enumerate body idx l s = (s', Ok Next) ->
    forall i a, l !! i = Some a ->
      exists s1 s2, body (idx + Z.of_nat i) a s1 = (s2, Ok Next).
Proof.
  induction l as [| x l IH]; intros idx s s' Hrun i a Hi; [now rewrite lookup_nil in Hi |].
  simpl in Hrun. apply bind_inv in Hrun as (s1 & f & Hbody & Hrest).
  destruct f as [| r]; [| discriminate].
  destruct i as [| i]; simpl in Hi.
  - injection Hi as <-. exists s, s1. now rewrite Z.add_0_r.
  - destruct (IH _ _ _ Hrest i a Hi) as (t1 & t2 & Ht). exists t1, t2.
    now replace (idx + Z.of_nat (Datatypes.S i)) with (idx + 1 + Z.of_nat i) by lia.
Qed.

Lemma for_enumerate_return {S A R} (Q : R -> Prop) (body : Z -> A -> Py S (flow R)) :
  (forall idx a s s' r, body idx a s = (s', Ok (Return r)) -> Q r) ->
  forall l idx s s' r, for_enumerate body idx l s = (s', Ok (Return r)) -> Q r.
Proof.
  intros Hbody. induction l as [| x l IH]; intros idx s s' r Hrun; [discriminate |].
  simpl in Hrun. apply bind_inv in Hrun as (s1 & f & Hrun & Hrest).
  destruct f as [| r'].
  - eapply IH. exact Hrest.
  - injection Hrest as _ <-. eapply Hbody. exact Hrun.
Qed.

(** A piece that validates lies inside the board, whatever the grid. *)
Lemma valid_true_fits (b : Board.t) (p : Tetromino.t) (dx dy : Z) :
  Board.is_valid_position b p dx dy = Ok true -> fits b (shifted p dx dy).
Proof.
  unfold Board.is_valid_position, Board.is_valid_position_log. intros Hvalid.
  match type of Hvalid with
  | snd ?t = _ => destruct t as [log r] eqn:Hrun
  end.
  simpl in Hvalid. subst r.
  apply bind_inv in Hrun as (s1 & shape & Hshape & Hrun).
  rewrite (proj1 (get_current_shape_ok p [])) in Hshape. injection Hshape as <- <-.
  apply bind_inv in Hrun as (s2 & f & Hloop & Hret).
  destruct f as [| r].
  - intros r c (row & ch & Hrow & Hch & Hne).
    destruct (for_enumerate_next _ _ _ _ _ Hloop r row Hrow) as (t1 & t2 & Hinner).
    destruct (for_enumerate_next _ _ _ _ _ Hinner c ch Hch) as (u1 & u2 & Hcell).
    apply not_empty_spec in Hne. rewrite Hne in Hcell.
    apply bind_inv in Hcell as (u3 & blocked & Hblocked & Hflow).
    destruct blocked; [unfold ret in Hflow; discriminate Hflow |].
    apply blocked_false_bounds in Hblocked. simpl. lia.
  - assert (Hr : r = false).
    { eapply (for_enumerate_return (fun r => r = false)); [| exact Hloop].
      intros idx row s s' r0 Hin. cbv beta in Hin.
      eapply (for_enumerate_return (fun r => r = false)); [| exact Hin].
      intros idx' ch t t' r1. cbv beta.
      destruct (negb (is_empty ch)); [| intros H; unfold ret in H; discriminate H].
      intros Hcell. apply bind_inv in Hcell as (u & blocked & _ & Hflow).
      unfold ret in Hflow.
      destruct blocked; [now injection Hflow as _ <- | discriminate Hflow]. }
    subst r. discriminate.
Qed.

(** Fuel for [height - y] rounds is enough for the loop of [hard_drop], on
    any board: each round puts the piece one row lower, and a valid piece
    has a cell above the floor. *)
Lemma hard_drop_loop_fuel (fuel : nat) : forall w p,
  TetrisGame.current_piece (TetrisGame.game w) = Some p ->
  (Z.to_nat (Board.height (TetrisGame.board (TetrisGame.game w)) - Tetromino.y p) <= fuel)%nat ->
  snd (TetrisGame.hard_drop_loop fuel w) <> OutOfFuel.
Proof.
  induction fuel as [| fuel IH]; intros w p Hp Hfuel; simpl; py_unfold;
    rewrite move_piece_eq, Hp;
    pose proof (is_valid_position_fuel (TetrisGame.board (TetrisGame.game w)) p 0 1) as Hnf;
    pose proof (valid_true_fits (TetrisGame.board (TetrisGame.game w)) p 0 1) as Hfits;
    destruct (Board.is_valid_position _ p 0 1) as [[|] | e |]; simpl;
    try discriminate; try congruence;
    destruct (piece_has_cell p) as (r & c & Hcell);
    destruct (Hfits eq_refl r c Hcell) as [_ Hy]; simpl in Hy.
  - lia.
  - unfold TetrisGame.setattr. py_unfold.
    apply (IH _ (shifted p 0 1)); [reflexivity |]. simpl. lia.
Qed.

Lemma fuel_free_hard_drop : fuel_free TetrisGame.hard_drop.
Proof.
  intros w. unfold TetrisGame.hard_drop. py_unfold.
  destruct (TetrisGame.current_piece (TetrisGame.game w)) as [p |] eqn:Hp; [| discriminate].
  pose proof (hard_drop_loop_fuel _ w p Hp (Nat.le_refl _)) as Hloop.
  destruct (TetrisGame.hard_drop_loop _ w) as [w1 [[] | e |]]; simpl in *;
    [apply fuel_free_lock | discriminate | congruence].
Qed.

Ltac op_fuel_step :=
  lazymatch goal with
  | |- fuel_free TetrisGame.lock_piece => apply fuel_free_lock
  | |- fuel_free TetrisGame.hard_drop => apply fuel_free_hard_drop
  | |- _ => game_fuel_step
  end.

Lemma fuel_free_update : fuel_free TetrisGame.update.
Proof. unfold TetrisGame.update. repeat op_fuel_step. Qed.

Lemma fuel_free_restart : fuel_free TetrisGame.restart.
Proof. unfold TetrisGame.restart. repeat op_fuel_step. Qed.

Lemma fuel_free_toggle_pause : fuel_free TetrisGame.toggle_pause.
Proof. apply fuel_free_setattr. Qed.

Lemma fuel_free_toggle_theme : fuel_free TetrisGame.toggle_theme.
Proof. apply fuel_free_setattr. Qed.

Lemma fuel_free_handle_input getch : fuel_free (TetrisUI.handle_input getch).
Proof.
  unfold TetrisUI.handle_input.
  repeat lazymatch goal with
         | |- fuel_free TetrisGame.restart => apply fuel_free_restart
         | |- fuel_free TetrisGame.toggle_pause => apply fuel_free_toggle_pause
         | |- fuel_free TetrisGame.toggle_theme => apply fuel_free_toggle_theme
         | |- _ => op_fuel_step
         end.
Qed.

(** No operation of the engine, in any world, is cut short by the fuel of
    the model; nor is the construction of a game. *)
Lemma run_op_fuel (o : op) : fuel_free (run_op o).
Proof.
  destruct o; simpl;
    repeat lazymatch goal with
           | |- fuel_free TetrisGame.restart => apply fuel_free_restart
           | |- fuel_free TetrisGame.update => apply fuel_free_update
           | |- fuel_free TetrisGame.toggle_pause => apply fuel_free_toggle_pause
           | |- fuel_free TetrisGame.toggle_theme => apply fuel_free_toggle_theme
           | |- fuel_free (TetrisUI.handle_input _) => apply fuel_free_handle_input
           | |- _ => op_fuel_step
           end.
Qed.

Lemma init_fuel choices clock : snd (TetrisGame.init choices clock) <> OutOfFuel.
Proof.
  rewrite init_eq.
  apply (fuel_free_bind TetrisGame.spawn_new_piece (fun _ => TetrisGame.spawn_new_piece));
    [apply fuel_free_spawn | intros _; apply fuel_free_spawn].
Qed.

(** ** Scenarios of the specification and of [test_tetris.py] *)

(** Row 19 of an empty 10-wide board filled, then [clear_lines]: it returns
    1, row 19 is empty again and the grid still has 20 rows. *)
Example scenario_fill_row_19 :
  let b := Board.set_grid (Board.init 10 20)
             (<[19%nat := replicate 10 "X"%char]> (Board.grid (Board.init 10 20))) in
  snd (Board.clear_lines b) = Ok 1 /\
  Board.grid (fst (Board.clear_lines b)) !! 19%nat = Some (Board.empty_row 10) /\
  length (Board.grid (fst (Board.clear_lines b))) = 20%nat.
Proof. vm_compute. auto. Qed.

(** [test_board]: an O piece at (4, 18) is valid and is placed; row 19 is
    then filled by hand and one line is cleared, which brings the upper half
    of the O down to row 19. *)
Example scenario_test_board :
  let p := Tetromino.mk Shape.O 0 4 18 in
  let b1 := fst (Board.place_piece p (Board.init 10 20)) in
  let b2 := Board.set_grid b1 (<[19%nat := replicate 10 "X"%char]> (Board.grid b1)) in
  Board.is_valid_position (Board.init 10 20) p 0 0 = Ok true /\
  snd (Board.place_piece p (Board.init 10 20)) = Ok tt /\
  snd (Board.clear_lines b2) = Ok 1 /\
  Board.grid (fst (Board.clear_lines b2)) !! 19%nat =
    Some (replicate 4 EMPTY ++ ["O"; "O"]%char ++ replicate 4 EMPTY).
Proof. vm_compute. auto. Qed.

(** A fresh engine, and a move to the right in it. *)
Example scenario_fresh_engine :
  let g := TetrisGame.game start_world in
  TetrisGame.score g = 0 /\ TetrisGame.level g = 1 /\ TetrisGame.lines_cleared g = 0 /\
  TetrisGame.paused g = false /\ TetrisGame.game_over g = false /\
  TetrisGame.current_piece g = Some (Tetromino.mk Shape.O 0 4 0) /\
  snd (TetrisGame.move_piece 1 0 start_world) = Ok true /\
  TetrisGame.current_piece (TetrisGame.game (fst (TetrisGame.move_piece 1 0 start_world))) =
    Some (Tetromino.mk Shape.O 0 5 0).
Proof. vm_compute. repeat split. Qed.

(** A hard drop of the O piece from row 0 of the empty board: 18 rows, 2
    points each. *)
Example scenario_hard_drop :
  snd (TetrisGame.hard_drop start_world) = Ok tt /\
  TetrisGame.score (TetrisGame.game (fst (TetrisGame.hard_drop start_world))) = 36.
Proof. vm_compute. auto. Qed.

(** The drop interval at the first and at the last level. *)
Example scenario_drop_interval :
  interval_for_level 1 = 1.0%float /\ interval_for_level 20 = 0.05%float /\
  PrimFloat.ltb (interval_for_level 11) (interval_for_level 10) = true.
Proof. vm_compute. auto. Qed.

(** * Further properties of the code *)

(** ** What [place_piece] writes *)

Lemma for_enumerate_ind {S A R} (I : nat -> S -> Prop) (body : Z -> A -> Py S (flow R))
      (l : list A) :
  forall idx,
    (forall i a s, l !! i = Some a -> I i s ->
       exists s', body (idx + Z.of_nat i) a s = (s', Ok Next) /\ I (Datatypes.S i) s') ->
    forall s, I O s ->
    exists s', for_enumerate body idx l s = (s', Ok Next) /\ I (length l) s'.
Proof.
  revert I. induction l as [| a l IH]; intros I idx Hbody s Hs; simpl.
  - exists s. now split.
  - destruct (Hbody O a s eq_refl Hs) as (s1 & Hrun & Hs1).
    rewrite Z.add_0_r in Hrun. py_unfold. rewrite Hrun.
    apply (IH (fun i => I (Datatypes.S i)) (idx + 1)); [| exact Hs1].
    intros i x t Hi Ht. destruct (Hbody (Datatypes.S i) x t Hi Ht) as (t' & Hrun' & Ht').
    exists t'. split; [| exact Ht'].
    now replace (idx + 1 + Z.of_nat i) with (idx + Z.of_nat (Datatypes.S i)) by lia.
Qed.

Lemma grid_at_write (b : Board.t) (i j : nat) (row : list cell) (c : cell) (y x : Z) :
  Board.grid b !! i = Some row -> (j < length row)%nat ->
  grid_at (Board.set_grid b (<[i := <[j := c]> row]> (Board.grid b))) y x =
  if (y =? Z.of_nat i) && (x =? Z.of_nat j) then Some c else grid_at b y x.
Proof.
  intros Hrow Hj. unfold grid_at. simpl.
  destruct (Z.leb_spec 0 y); simpl;
    [| destruct (Z.eqb_spec y (Z.of_nat i)); [lia | reflexivity]].
  destruct (Z.leb_spec 0 x); simpl;
    [| destruct (Z.eqb_spec x (Z.of_nat j)); [lia | now rewrite andb_false_r]].
  destruct (Z.eqb_spec y (Z.of_nat i)) as [-> | Hy]; simpl.
  - rewrite Nat2Z.id, list_lookup_insert_eq by (eapply lookup_lt_Some; eauto). simpl.
    destruct (Z.eqb_spec x (Z.of_nat j)) as [-> | Hx].
    + now rewrite Nat2Z.id, list_lookup_insert_eq.
    + rewrite list_lookup_insert_ne by lia. now rewrite Hrow.
  - rewrite list_lookup_insert_ne by lia. reflexivity.
Qed.

Lemma grid_write_at (y0 x0 : Z) (c : cell) (b : Board.t) :
  board_wf b -> in_window b (y0, x0) ->
  exists b',
    Board.grid_write y0 x0 c b = (b', Ok tt) /\ same_frame b b' /\ board_wf b' /\
    forall y x, grid_at b' y x = if (y =? y0) && (x =? x0) then Some c else grid_at b y x.
Proof.
  intros Hwf Hin. pose proof (grid_write_frame y0 x0 c b) as Hframe.
  destruct (grid_at_wf b y0 x0 Hwf Hin) as (row & c0 & Hrow & Hc0 & Hw & _).
  destruct Hin as [Hy Hx]. simpl in Hy, Hx. pose proof Hwf as [Hlen _].
  revert Hframe. unfold Board.grid_write. py_unfold.
  destruct (getitem_ok (Board.grid b) y0 b) as (row' & Hrow' & ->); [lia |].
  assert (row' = row) by congruence. subst row'.
  rewrite setitem_ok by lia. rewrite setitem_ok by lia. simpl.
  intros Hframe. eexists. split; [reflexivity |]. split; [exact Hframe |].
  split; [now apply Hframe |].
  intros y x. rewrite (grid_at_write b _ _ row c y x Hrow) by lia.
  now rewrite !Z2Nat.id by lia.
Qed.

Lemma piece_at_cell (p : Tetromino.t) (r j : nat) (row : string) (ch : cell) :
  current_frame p !! r = Some row -> list_ascii_of_string row !! j = Some ch ->
  piece_at p (Tetromino.y p + Z.of_nat r) (Tetromino.x p + Z.of_nat j) =
  if is_empty ch then None else Some ch.
Proof.
  intros Hrow Hch. unfold piece_at, frame_cell.
  destruct (Z.leb_spec (Tetromino.y p) (Tetromino.y p + Z.of_nat r)); [| lia].
  destruct (Z.leb_spec (Tetromino.x p) (Tetromino.x p + Z.of_nat j)); [| lia]. simpl.
  replace (Z.to_nat (Tetromino.y p + Z.of_nat r - Tetromino.y p)) with r by lia.
  replace (Z.to_nat (Tetromino.x p + Z.of_nat j - Tetromino.x p)) with j by lia.
  rewrite Hrow. simpl. now rewrite Hch.
Qed.

Lemma piece_at_inv (p : Tetromino.t) (y x : Z) (ch : cell) :
  piece_at p y x = Some ch ->
  exists r c,
    y = Tetromino.y p + Z.of_nat r /\ x = Tetromino.x p + Z.of_nat c /\
    frame_cell p r c = Some ch /\ piece_cell p r c.
Proof.
  unfold piece_at. destruct (Z.leb_spec (Tetromino.y p) y); [| discriminate].
  destruct (Z.leb_spec (Tetromino.x p) x); [| discriminate]. simpl.
  destruct (frame_cell p _ _) as [c0 |] eqn:Hcell; [| discriminate].
  destruct (is_empty c0) eqn:He; [discriminate |]. intros [= <-].
  exists (Z.to_nat (y - Tetromino.y p)), (Z.to_nat (x - Tetromino.x p)).
  split; [lia |]. split; [lia |]. split; [exact Hcell |].
  unfold frame_cell in Hcell. unfold piece_cell.
  destruct (current_frame p !! _) as [row |]; [| discriminate]. simpl in Hcell.
  exists row, c0. split; [reflexivity |]. split; [exact Hcell |].
  apply not_empty_spec. now rewrite He.
Qed.

Ltac passed_cases :=
  unfold passed;
  repeat match goal with
         | |- context [?a <? ?b] => destruct (Z.ltb_spec a b)
         | |- context [?a =? ?b] => destruct (Z.eqb_spec a b)
         end;
  simpl; try lia; try reflexivity.

Lemma stamped_skip (b0 : Board.t) (p : Tetromino.t) (r j : nat) (s : Board.t) :
  stamped b0 p r j s ->
  piece_at p (Tetromino.y p + Z.of_nat r) (Tetromino.x p + Z.of_nat j) = None \/
  Tetromino.y p + Z.of_nat r < 0 ->
  stamped b0 p r (Datatypes.S j) s.
Proof.
  intros (Hwf & Hsame & Hgrid) Hskip. split; [exact Hwf |]. split; [exact Hsame |].
  intros y x Hy. rewrite (Hgrid y x Hy).
  destruct (piece_at p y x) as [ch |] eqn:Hat; [| reflexivity].
  assert (Hpos : (y = Tetromino.y p + Z.of_nat r /\ x = Tetromino.x p + Z.of_nat j) \/
                 passed p r (Datatypes.S j) y x = passed p r j y x).
  { destruct (Z.eq_dec y (Tetromino.y p + Z.of_nat r));
      destruct (Z.eq_dec x (Tetromino.x p + Z.of_nat j)); auto; right; passed_cases. }
  destruct Hpos as [[-> ->] | ->]; [| reflexivity].
  destruct Hskip as [Hnone | Hneg]; [congruence | lia].
Qed.

Lemma stamped_write (b0 : Board.t) (p : Tetromino.t) (r j : nat) (s s' : Board.t) (ch : cell) :
  stamped b0 p r j s ->
  piece_at p (Tetromino.y p + Z.of_nat r) (Tetromino.x p + Z.of_nat j) = Some ch ->
  same_frame s s' -> board_wf s' ->
  (forall y x, grid_at s' y x =
     if (y =? Tetromino.y p + Z.of_nat r) && (x =? Tetromino.x p + Z.of_nat j)
     then Some ch else grid_at s y x) ->
  stamped b0 p r (Datatypes.S j) s'.
Proof.
  intros (Hwf & Hsame & Hgrid) Hat Hsame' Hwf' Hgrid'.
  split; [exact Hwf' |]. split; [eapply same_frame_trans; eauto |].
  intros y x Hy. rewrite Hgrid', (Hgrid y x Hy).
  destruct (Z.eqb_spec y (Tetromino.y p + Z.of_nat r)) as [-> | Hny]; simpl.
  - destruct (Z.eqb_spec x (Tetromino.x p + Z.of_nat j)) as [-> | Hnx].
    + rewrite Hat. replace (passed p r (Datatypes.S j) _ _) with true; [reflexivity |].
      symmetry. passed_cases.
    + destruct (piece_at p _ x); [| reflexivity].
      replace (passed p r (Datatypes.S j) (Tetromino.y p + Z.of_nat r) x)
        with (passed p r j (Tetromino.y p + Z.of_nat r) x); [reflexivity |].
      passed_cases.
  - destruct (piece_at p y x); [| reflexivity].
    replace (passed p r (Datatypes.S j) y x) with (passed p r j y x); [reflexivity |].
    passed_cases.
Qed.

Lemma frame_cell_lt (p : Tetromino.t) (r c : nat) (ch : cell) (row : string) :
  frame_cell p r c = Some ch -> current_frame p !! r = Some row ->
  (c < length (list_ascii_of_string row))%nat.
Proof.
  unfold frame_cell. intros Hcell Hrow. rewrite Hrow in Hcell. simpl in Hcell.
  eapply lookup_lt_Some. exact Hcell.
Qed.

Lemma stamped_next_row (b0 : Board.t) (p : Tetromino.t) (r : nat) (row : string) (s : Board.t) :
  current_frame p !! r = Some row ->
  stamped b0 p r (length (list_ascii_of_string row)) s ->
  stamped b0 p (Datatypes.S r) O s.
Proof.
  intros Hrow (Hwf & Hsame & Hgrid). split; [exact Hwf |]. split; [exact Hsame |].
  intros y x Hy. rewrite (Hgrid y x Hy).
  destruct (piece_at p y x) as [ch |] eqn:Hat; [| reflexivity].
  destruct (piece_at_inv p y x ch Hat) as (r' & c' & -> & -> & Hcell & _).
  replace (passed p (Datatypes.S r) O _ _)
    with (passed p r (length (list_ascii_of_string row))
            (Tetromino.y p + Z.of_nat r') (Tetromino.x p + Z.of_nat c')); [reflexivity |].
  destruct (Nat.eq_dec r' r) as [-> | Hne].
  - pose proof (frame_cell_lt p r c' ch row Hcell Hrow). passed_cases.
  - passed_cases.
Qed.

Lemma place_piece_stamped (p : Tetromino.t) (b0 : Board.t) :
  board_wf b0 -> fits b0 p ->
  exists b',
    Board.place_piece p b0 = (b', Ok tt) /\
    stamped b0 p (length (current_frame p)) O b'.
Proof.
  intros Hwf Hfits. unfold Board.place_piece. py_unfold.
  rewrite (proj1 (get_current_shape_ok p b0)).
  match goal with
  | |- context [for_enumerate ?body 0 ?l b0] =>
      destruct (for_enumerate_ind (fun r s => stamped b0 p r O s) body l 0)
        with (s := b0) as (b' & Hrun & Hb')
  end.
  - intros r row s Hrow Hs. rewrite Z.add_0_l.
    match goal with
    | |- context [for_enumerate ?body 0 ?l s] =>
        destruct (for_enumerate_ind (fun j t => stamped b0 p r j t) body l 0)
          with (s := s) as (s' & Hrun & Hs')
    end.
    + intros j ch t Hch Ht. rewrite Z.add_0_l.
      pose proof (piece_at_cell p r j row ch Hrow Hch) as Hat.
      destruct (is_empty ch) eqn:He; simpl.
      { exists t. split; [reflexivity |]. apply stamped_skip; auto. }
      destruct (Z.geb_spec (Tetromino.y p + Z.of_nat r) 0).
      2: { exists t. split; [reflexivity |]. apply stamped_skip; auto. }
      destruct (Hfits r j) as [Hx Hy].
      { exists row, ch. repeat split; auto. apply not_empty_spec. now rewrite He. }
      pose proof Ht as (Hwft & (Hw & Hh & _) & _).
      destruct (grid_write_at (Tetromino.y p + Z.of_nat r) (Tetromino.x p + Z.of_nat j) ch t Hwft)
        as (t' & Hwrite & Hsame' & Hwf' & Hgrid').
      { split; simpl; lia. }
      py_unfold. rewrite Hwrite. exists t'. split; [reflexivity |].
      eapply stamped_write; eauto.
    + exact Hs.
    + exists s'. split; [exact Hrun |]. eapply stamped_next_row; eauto.
  - split; [exact Hwf |]. split; [apply same_frame_refl |].
    intros y x Hy. destruct (piece_at p y x) eqn:Hat; [| reflexivity].
    destruct (piece_at_inv p y x c Hat) as (r' & c' & -> & -> & _).
    replace (passed p O O _ _) with false; [reflexivity |]. symmetry. passed_cases.
  - rewrite Hrun. exists b'. split; [reflexivity | exact Hb'].
Qed.

(** X1. A piece that lies inside a board of [H] rows of [W] cells is
    committed without an exception; afterwards every grid cell under a block
    of the piece holds that block's character, every other cell is as
    before, and width, height and grid shape are kept.  Blocks above row 0
    are not written. *)
Theorem place_piece_effect (b : Board.t) (p : Tetromino.t) :
  board_wf b -> fits b p ->
  exists b',
    Board.place_piece p b = (b', Ok tt) /\
    Board.width b' = Board.width b /\ Board.height b' = Board.height b /\ board_wf b' /\
    (forall y x, 0 <= y ->
       grid_at b' y x = match piece_at p y x with
                        | Some ch => Some ch
                        | None => grid_at b y x
                        end) /\
    (forall r c, piece_cell p r c -> 0 <= Tetromino.y p + Z.of_nat r ->
       occupied_at b' (Tetromino.y p + Z.of_nat r) (Tetromino.x p + Z.of_nat c)) /\
    (forall y x, y < 0 -> grid_at b' y x = None).
Proof.
  intros Hwf Hfits.
  destruct (place_piece_stamped p b Hwf Hfits) as (b' & Hrun & Hwf' & (Hw & Hh & _) & Hgrid).
  assert (Hall : forall y x, 0 <= y ->
            grid_at b' y x = match piece_at p y x with
                             | Some ch => Some ch
                             | None => grid_at b y x
                             end).
  { intros y x Hy. rewrite (Hgrid y x Hy).
    destruct (piece_at p y x) as [ch |] eqn:Hat; [| reflexivity].
    destruct (piece_at_inv p y x ch Hat) as (r' & c' & -> & -> & Hcell & _).
    replace (passed p _ O _ _) with true; [reflexivity |].
    assert (r' < length (current_frame p))%nat.
    { unfold frame_cell in Hcell.
      destruct (current_frame p !! r') eqn:E; [| discriminate].
      eapply lookup_lt_Some; eauto. }
    symmetry. passed_cases. }
  exists b'. split; [exact Hrun |]. split; [exact Hw |]. split; [exact Hh |].
  split; [exact Hwf' |]. split; [exact Hall |]. split.
  - intros r c (row & ch & Hrow & Hch & Hne) Hy. exists ch. split; [| exact Hne].
    rewrite (Hall _ _ Hy), (piece_at_cell p r c row ch Hrow Hch).
    apply not_empty_spec in Hne. apply negb_true_iff in Hne. now rewrite Hne.
  - intros y x Hy. unfold grid_at. destruct (Z.leb_spec 0 y); [lia | reflexivity].
Qed.

Lemma place_piece_effect_witness :
  exists b',
    Board.place_piece (Tetromino.mk Shape.T 0 3 (-1)) (Board.init 10 20) = (b', Ok tt) /\
    grid_at b' 0 3 = Some "T"%char /\ grid_at b' 0 2 = Some EMPTY.
Proof.
  destruct (place_piece_effect (Board.init 10 20) (Tetromino.mk Shape.T 0 3 (-1)))
    as (b' & Hrun & _ & _ & _ & Hgrid & _).
  - split; [reflexivity | repeat constructor].
  - apply fitsb_fits. vm_compute. reflexivity.
  - exists b'. split; [exact Hrun |]. split; rewrite Hgrid by lia; reflexivity.
Defined.

(** ** What [place_piece] does with a piece that was not validated *)

Lemma index_errors_only_ret {S A} (a : A) : index_errors_only (ret a : Py S A).
Proof. intros s e H. discriminate H. Qed.

Lemma index_errors_only_raise {S A} : index_errors_only (raise IndexError : Py S A).
Proof. intros s e H. now injection H as <-. Qed.

Lemma index_errors_only_get {S} : index_errors_only (get : Py S S).
Proof. intros s e H. discriminate H. Qed.

Lemma index_errors_only_modify {S} (f : S -> S) : index_errors_only (modify f).
Proof. intros s e H. discriminate H. Qed.

Lemma index_errors_only_getitem {S A} (l : list A) (i : Z) :
  index_errors_only (getitem l i : Py S A).
Proof.
  intros s e. unfold getitem. destruct (_ <? 0); [apply index_errors_only_raise |].
  destruct (l !! _); [apply index_errors_only_ret | apply index_errors_only_raise].
Qed.

Lemma index_errors_only_setitem {S A} (l : list A) (i : Z) (v : A) :
  index_errors_only (setitem l i v : Py S (list A)).
Proof.
  intros s e. unfold setitem. destruct (_ <? 0); [apply index_errors_only_raise |].
  destruct (_ <? _); [apply index_errors_only_ret | apply index_errors_only_raise].
Qed.

Lemma index_errors_only_bind {S A B} (m : Py S A) (k : A -> Py S B) :
  index_errors_only m -> (forall a, index_errors_only (k a)) ->
  index_errors_only (x ← m; k x).
Proof.
  intros Hm Hk s e. specialize (Hm s). py_unfold.
  destruct (m s) as [s' [a | e' |]]; simpl in *.
  - apply Hk.
  - intros [= <-]. now apply Hm.
  - discriminate.
Qed.

Lemma index_errors_only_for_enumerate {S A R} (body : Z -> A -> Py S (flow R)) (l : list A) :
  (forall idx a, index_errors_only (body idx a)) ->
  forall idx, index_errors_only (for_enumerate body idx l).
Proof.
  intros Hbody. induction l as [| a l IH]; intros idx; simpl.
  - apply index_errors_only_ret.
  - apply index_errors_only_bind; [apply Hbody |].
    intros [| r]; [apply IH | apply index_errors_only_ret].
Qed.

Ltac index_errors_step :=
  lazymatch goal with
  | |- index_errors_only (ret _) => apply index_errors_only_ret
  | |- index_errors_only get => apply index_errors_only_get
  | |- index_errors_only (modify _) => apply index_errors_only_modify
  | |- index_errors_only (getitem _ _) => apply index_errors_only_getitem
  | |- index_errors_only (setitem _ _ _) => apply index_errors_only_setitem
  | |- index_errors_only (mbind _ _) => apply index_errors_only_bind; [| intros ?]
  | |- index_errors_only (for_enumerate _ _ _) =>
      apply index_errors_only_for_enumerate; intros ? ?
  | |- index_errors_only (if ?c then _ else _) => destruct c
  end.

Lemma index_errors_only_place_piece (p : Tetromino.t) :
  index_errors_only (Board.place_piece p).
Proof.
  unfold Board.place_piece, Tetromino.get_current_shape, Board.grid_write.
  repeat index_errors_step.
Qed.

Lemma setitem_bounds {S A} (l : list A) (i : Z) (v : A) (s s' : S) l' :
  setitem l i v s = (s', Ok l') -> 0 <= norm_index l i < Z.of_nat (length l).
Proof.
  unfold setitem. destruct (Z.ltb_spec (norm_index l i) 0); [discriminate |].
  destruct (Z.ltb_spec (norm_index l i) (Z.of_nat (length l))); [lia | discriminate].
Qed.

Lemma setitem_wrap_ok {S A} (l : list A) (i : Z) (v : A) (s : S) :
  - Z.of_nat (length l) <= i < Z.of_nat (length l) ->
  setitem l i v s = (s, Ok (<[Z.to_nat (norm_index l i) := v]> l)).
Proof.
  intros Hi. unfold setitem.
  assert (0 <= norm_index l i < Z.of_nat (length l))
    by (unfold norm_index; destruct (Z.ltb_spec i 0); lia).
  destruct (Z.ltb_spec (norm_index l i) 0); [lia |].
  destruct (Z.ltb_spec (norm_index l i) (Z.of_nat (length l))); [reflexivity | lia].
Qed.

Lemma grid_write_wrap_ok (y x : Z) (c : cell) (b : Board.t) :
  board_wf b -> 0 <= y < Board.height b -> - Board.width b <= x < Board.width b ->
  snd (Board.grid_write y x c b) = Ok tt.
Proof.
  intros [Hlen Hrows] Hy Hx. unfold Board.grid_write. py_unfold.
  destruct (getitem_ok (Board.grid b) y b) as (row & Hrow & ->); [lia |].
  assert (Hw : length row = Z.to_nat (Board.width b)).
  { rewrite Forall_lookup in Hrows. exact (Hrows _ _ Hrow). }
  rewrite setitem_wrap_ok by lia. rewrite setitem_ok by lia. reflexivity.
Qed.

Lemma grid_write_ok_bounds (y x : Z) (c : cell) (b b' : Board.t) :
  board_wf b -> 0 <= y -> Board.grid_write y x c b = (b', Ok tt) ->
  y < Board.height b /\ - Board.width b <= x < Board.width b.
Proof.
  intros [Hlen Hrows] Hy Hrun. unfold Board.grid_write in Hrun.
  apply bind_inv in Hrun as (s1 & self & Hget & Hrun). injection Hget as <- <-.
  apply bind_inv in Hrun as (s2 & row & Hrow & Hrun).
  apply getitem_inv in Hrow as (-> & Hrow & _).
  apply bind_inv in Hrun as (s3 & row' & Hset & _).
  apply setitem_bounds in Hset.
  assert (Hny : norm_index (Board.grid b) y = y)
    by (unfold norm_index; destruct (Z.ltb_spec y 0); lia).
  rewrite Hny in Hrow.
  assert (Hw : length row = Z.to_nat (Board.width b)).
  { rewrite Forall_lookup in Hrows. exact (Hrows _ _ Hrow). }
  apply lookup_lt_Some in Hrow.
  unfold norm_index in Hset. destruct (Z.ltb_spec x 0); lia.
Qed.

Lemma for_enumerate_next_inv {S A R} (I : S -> Prop) (body : Z -> A -> Py S (flow R)) :
  (forall idx a s, I s -> I (fst (body idx a s))) ->
  forall l idx s s',
    I s -> for_enumerate body idx l s = (s', Ok Next) ->
    forall i a, l !! i = Some a ->
      exists s1 s2, I s1 /\ body (idx + Z.of_nat i) a s1 = (s2, Ok Next).
Proof.
  intros Hkeep. induction l as [| x l IH]; intros idx s s' Hs Hrun i a Hi;
    [now rewrite lookup_nil in Hi |].
  simpl in Hrun. apply bind_inv in Hrun as (s1 & f & Hbody & Hrest).
  destruct f as [| r]; [| discriminate].
  destruct i as [| i]; simpl in Hi.
  - injection Hi as <-. exists s, s1. now rewrite Z.add_0_r.
  - assert (Hs1 : I s1) by (specialize (Hkeep idx x s Hs); now rewrite Hbody in Hkeep).
    destruct (IH _ _ _ Hs1 Hrest i a Hi) as (t1 & t2 & Ht1 & Ht).
    exists t1, t2. split; [exact Ht1 |].
    now replace (idx + Z.of_nat (Datatypes.S i)) with (idx + 1 + Z.of_nat i) by lia.
Qed.

Lemma shaped_like_write (b s : Board.t) (y x : Z) (c : cell) :
  shaped_like b s -> shaped_like b (fst (Board.grid_write y x c s)).
Proof.
  intros (Hwf & Hw & Hh). destruct (grid_write_frame y x c s) as (Hw' & Hh' & Hwf').
  split; [auto |]. split; congruence.
Qed.

Lemma place_cell_shaped (b : Board.t) (p : Tetromino.t) (row_idx col_idx : Z) (ch : cell)
      (s : Board.t) :
  shaped_like b s ->
  shaped_like b
    (fst ((if negb (is_empty ch) then
             if Tetromino.y p + row_idx >=? 0
             then Board.grid_write (Tetromino.y p + row_idx)
                                   (Tetromino.x p + col_idx) ch ;; ret Next
             else ret Next
           else ret Next : Py Board.t (flow unit)) s)).
Proof.
  intros Hs. destruct (negb (is_empty ch)); [| exact Hs].
  destruct (_ >=? 0); [| exact Hs]. py_unfold.
  pose proof (shaped_like_write b s (Tetromino.y p + row_idx) (Tetromino.x p + col_idx) ch Hs)
    as Hw.
  destruct (Board.grid_write _ _ ch s) as [s' [[] | e |]]; exact Hw.
Qed.

Lemma place_row_shaped (b : Board.t) (p : Tetromino.t) (row_idx : Z) (chars : list cell) :
  forall idx s,
    shaped_like b s ->
    shaped_like b
      (fst (for_enumerate (R := unit) (fun col_idx cell =>
              if negb (is_empty cell) then
                if Tetromino.y p + row_idx >=? 0
                then Board.grid_write (Tetromino.y p + row_idx)
                                      (Tetromino.x p + col_idx) cell ;; ret Next
                else ret Next
              else ret Next) idx chars s)).
Proof.
  intros idx s Hs. apply for_enumerate_keeps; [| exact Hs].
  intros col_idx ch t Ht. now apply place_cell_shaped.
Qed.

Lemma place_piece_ok_writable (b : Board.t) (p : Tetromino.t) (b' : Board.t) :
  board_wf b -> Board.place_piece p b = (b', Ok tt) -> writable b p.
Proof.
  intros Hwf Hrun. unfold Board.place_piece in Hrun.
  apply bind_inv in Hrun as (s1 & shape & Hshape & Hrun).
  rewrite (proj1 (get_current_shape_ok p b)) in Hshape. injection Hshape as <- <-.
  apply bind_inv in Hrun as (s2 & f & Hloop & _).
  assert (Hb : shaped_like b b) by (split; [exact Hwf | split; reflexivity]).
  destruct f as [| []].
  2: { exfalso. revert Hloop. apply (for_enumerate_return (fun _ => False)).
       intros idx row s s' r. apply (for_enumerate_return (fun _ => False)).
       intros idx' ch t t' r'. cbv beta.
       destruct (negb (is_empty ch)); [| intros H; unfold ret in H; discriminate H].
       destruct (_ >=? 0); [| intros H; unfold ret in H; discriminate H].
       intros H. apply bind_inv in H as (u & [] & _ & H). unfold ret in H. discriminate H. }
  intros r c (row & ch & Hrow & Hch & Hne) Hy.
  destruct (for_enumerate_next_inv (shaped_like b) _
              (fun idx a s Hs => place_row_shaped b p idx (list_ascii_of_string a) 0 s Hs)
              _ _ _ _ Hb Hloop r row Hrow) as (t1 & t2 & Ht1 & Hinner).
  cbv beta in Hinner. rewrite Z.add_0_l in Hinner.
  destruct (for_enumerate_next_inv (shaped_like b) _
              (fun idx a s Hs => place_cell_shaped b p (Z.of_nat r) idx a s Hs)
              _ _ _ _ Ht1 Hinner c ch Hch) as (u1 & u2 & Hu1 & Hcell).
  cbv beta in Hcell. rewrite Z.add_0_l in Hcell.
  apply not_empty_spec in Hne. rewrite Hne in Hcell.
  destruct (Z.geb_spec (Tetromino.y p + Z.of_nat r) 0); [| lia].
  apply bind_inv in Hcell as (u3 & [] & Hwrite & _).
  destruct Hu1 as (Hwfu & Hwu & Hhu).
  destruct (grid_write_ok_bounds _ _ _ _ _ Hwfu Hy Hwrite) as [Hyb Hxb]. lia.
Qed.

Lemma place_piece_writable_ok (b : Board.t) (p : Tetromino.t) :
  board_wf b -> writable b p -> snd (Board.place_piece p b) = Ok tt.
Proof.
  intros Hwf Hwr. unfold Board.place_piece. py_unfold.
  rewrite (proj1 (get_current_shape_ok p b)).
  match goal with
  | |- context [for_enumerate ?body 0 ?l b] =>
      assert (Hk : exists b', for_enumerate body 0 l b = (b', Ok Next) /\ shaped_like b b')
  end.
  { apply (for_enumerate_total (shaped_like b)
             (fun row_idx row => exists r, row_idx = Z.of_nat r /\ current_frame p !! r = Some row)).
    - intros row_idx row s Hs (r & -> & Hrow).
      apply (for_enumerate_total (shaped_like b)
               (fun col_idx ch => exists c, col_idx = Z.of_nat c /\
                                            list_ascii_of_string row !! c = Some ch)).
      + intros col_idx ch s' Hs' (c & -> & Hch).
        pose proof (place_cell_shaped b p (Z.of_nat r) (Z.of_nat c) ch s' Hs') as Hkeep.
        revert Hkeep.
        destruct (negb (is_empty ch)) eqn:Hne; [| intros Hkeep; exists s'; now split].
        apply not_empty_spec in Hne.
        destruct (Z.geb_spec (Tetromino.y p + Z.of_nat r) 0);
          [| intros Hkeep; exists s'; now split].
        destruct (Hwr r c) as [Hy Hx]; [now exists row, ch | lia |].
        destruct Hs' as (Hwf' & Hw' & Hh').
        pose proof (grid_write_wrap_ok (Tetromino.y p + Z.of_nat r)
                      (Tetromino.x p + Z.of_nat c) ch s' Hwf') as Hok.
        rewrite Hw', Hh' in Hok. specialize (Hok ltac:(lia) ltac:(lia)).
        py_unfold. destruct (Board.grid_write _ _ ch s') as [s'' r0]. simpl in Hok. subst r0.
        intros Hkeep. exists s''. now split.
      + exact Hs.
      + intros c ch Hch. exists c. split; [lia | exact Hch].
    - split; [exact Hwf | split; reflexivity].
    - intros r row Hrow. exists r. split; [lia | exact Hrow]. }
  destruct Hk as (b' & -> & _). reflexivity.
Qed.

(** X2. [place_piece] checks nothing.  On a board of [H] rows of [W] cells
    it returns exactly when every block of the piece at a row [>= 0] has its
    row below [H] and its column in [[-W, W)] (a negative column counts from
    the right end of the row); otherwise it raises, and what it raises is an
    [IndexError].  Blocks above row 0 are skipped whatever their column. *)
Theorem place_piece_unchecked (b : Board.t) (p : Tetromino.t) :
  board_wf b ->
  (snd (Board.place_piece p b) = Ok tt <-> writable b p) /\
  (snd (Board.place_piece p b) = Ok tt \/ snd (Board.place_piece p b) = Raise IndexError).
Proof.
  intros Hwf. split; [split |].
  - intros Hok. destruct (Board.place_piece p b) as [b' r] eqn:Hrun. simpl in Hok. subst r.
    now apply (place_piece_ok_writable b p b').
  - now apply place_piece_writable_ok.
  - pose proof (index_errors_only_place_piece p b) as Herr.
    pose proof (fuel_free_place_piece p b) as Hfuel.
    destruct (snd (Board.place_piece p b)) as [[] | e |]; auto.
    + right. now rewrite (Herr e eq_refl).
    + congruence.
Qed.

Lemma place_piece_unchecked_witness :
  snd (Board.place_piece (Tetromino.mk Shape.O 0 (-1) 18) (Board.init 10 20)) = Ok tt /\
  snd (Board.place_piece (Tetromino.mk Shape.O 0 4 19) (Board.init 10 20)) = Raise IndexError.
Proof.
  pose proof (place_piece_unchecked (Board.init 10 20) (Tetromino.mk Shape.O 0 4 19)) as H.
  split; [vm_compute; reflexivity |].
  destruct H as [_ [Hok | Herr]].
  - split; [reflexivity | repeat constructor].
  - vm_compute in Hok. discriminate Hok.
  - exact Herr.
Defined.

(** X3. Committing is not repeatable: once a piece that lies inside the
    board, with a block at a row [>= 0], has been placed, the same piece at
    the same position no longer validates, nor does it after it has been
    placed a second time. *)
Theorem placed_piece_blocks_itself (b : Board.t) (p : Tetromino.t) :
  board_wf b -> fits b p ->
  (exists r c, piece_cell p r c /\ 0 <= Tetromino.y p + Z.of_nat r) ->
  Board.is_valid_position (fst (Board.place_piece p b)) p 0 0 = Ok false /\
  Board.is_valid_position
    (fst (Board.place_piece p (fst (Board.place_piece p b)))) p 0 0 = Ok false.
Proof.
  intros Hwf Hfits (r & c & Hcell & Hy).
  assert (Hone : forall b0, board_wf b0 -> fits b0 p ->
            board_wf (fst (Board.place_piece p b0)) /\
            fits (fst (Board.place_piece p b0)) p /\
            Board.is_valid_position (fst (Board.place_piece p b0)) p 0 0 = Ok false).
  { intros b0 Hwf0 Hfits0.
    destruct (place_piece_stamped p b0 Hwf0 Hfits0) as (b' & Hrun & Hwf' & (Hw & Hh & _) & Hgrid).
    rewrite Hrun. simpl. split; [exact Hwf' |].
    split; [eapply fits_same_dims; eauto |].
    rewrite (is_valid_position_collidesb b' p 0 0 Hwf').
    replace (collidesb b' p 0 0) with true; [reflexivity |].
    symmetry. apply collidesb_spec. exists r, c. split; [exact Hcell |].
    right; right; right. rewrite !Z.add_0_r. split; [exact Hy |].
    destruct Hcell as (row & ch & Hrow & Hch & Hne). exists ch. split; [| exact Hne].
    rewrite (Hgrid _ _ Hy), (piece_at_cell p r c row ch Hrow Hch).
    apply not_empty_spec in Hne. apply negb_true_iff in Hne. rewrite Hne.
    replace (passed p _ O _ _) with true; [reflexivity |].
    apply lookup_lt_Some in Hrow. symmetry. passed_cases. }
  destruct (Hone b Hwf Hfits) as (Hwf1 & Hfits1 & Hv1).
  split; [exact Hv1 |]. now apply Hone.
Qed.

Lemma placed_piece_blocks_itself_witness :
  Board.is_valid_position
    (fst (Board.place_piece (Tetromino.mk Shape.S 1 0 17) (Board.init 10 20)))
    (Tetromino.mk Shape.S 1 0 17) 0 0 = Ok false.
Proof.
  refine (proj1 (placed_piece_blocks_itself (Board.init 10 20)
                   (Tetromino.mk Shape.S 1 0 17) _ _ _)).
  - split; [reflexivity | repeat constructor].
  - apply fitsb_fits. vm_compute. reflexivity.
  - exists 0%nat, 1%nat. split; [| simpl; lia].
    exists ".S."%string, "S"%char. repeat split. discriminate.
Defined.

(** ** [clear_lines] again, and [is_game_over] *)

Lemma filter_has_empty_all (rows : list (list cell)) :
  Forall (fun row => Board.has_empty row = true) rows ->
  List.filter Board.has_empty rows = rows /\
  List.filter (fun row => negb (Board.has_empty row)) rows = [].
Proof.
  induction 1 as [| row rows Hrow _ [IH1 IH2]]; [now split |].
  simpl. rewrite Hrow. simpl. now rewrite IH1, IH2.
Qed.

Lemma has_empty_empty_row (W : Z) : 0 < W -> Board.has_empty (Board.empty_row W) = true.
Proof.
  intros HW. apply has_empty_spec. unfold Board.empty_row.
  destruct (Z.to_nat W) as [| n] eqn:E; [lia |]. simpl. left.
Qed.

Lemma has_empty_no_cells (rows : list (list cell)) :
  Forall (fun row => length row = O) rows ->
  List.filter Board.has_empty rows = [] /\
  List.filter (fun row => negb (Board.has_empty row)) rows = rows.
Proof.
  induction 1 as [| row rows Hrow _ [IH1 IH2]]; [now split |].
  destruct row; [| discriminate]. simpl. now rewrite IH1, IH2.
Qed.

(** X4. On a board of [H] rows of [W >= 1] cells a second [clear_lines]
    finds nothing to clear: it returns 0 and leaves the board that the first
    call produced.  On a board without columns ([W <= 0]) every row counts as
    complete: each call returns the number of rows and leaves the grid as it
    is. *)
Theorem clear_lines_twice (b : Board.t) :
  board_wf b ->
  (0 < Board.width b ->
   Board.clear_lines (fst (Board.clear_lines b)) = (fst (Board.clear_lines b), Ok 0)) /\
  (Board.width b <= 0 ->
   Board.clear_lines b = (b, Ok (Z.of_nat (length (Board.grid b))))).
Proof.
  intros [Hlen Hrows]. split.
  - intros HW. rewrite (clear_lines_eq b). simpl.
    set (kept := List.filter Board.has_empty (Board.grid b)).
    set (k := (Z.to_nat (Board.height b) - length kept)%nat).
    assert (Hall : Forall (fun row => Board.has_empty row = true)
                     (replicate k (Board.empty_row (Board.width b)) ++ kept)).
    { apply Forall_app. split.
      - apply Forall_replicate. now apply has_empty_empty_row.
      - apply Forall_forall. intros row Hin. apply list_elem_of_In in Hin.
        now apply filter_In in Hin as [_ Hin]. }
    destruct (filter_has_empty_all _ Hall) as [Hkeep Hnone].
    rewrite clear_lines_eq. simpl. rewrite Hkeep, Hnone. simpl.
    pose proof (filter_split_length Board.has_empty (Board.grid b)) as Hsplit.
    fold kept in Hsplit.
    replace (Z.to_nat (Board.height b) -
             length (replicate k (Board.empty_row (Board.width b)) ++ kept))%nat with O
      by (rewrite length_app, length_replicate; unfold k; lia).
    reflexivity.
  - intros HW. rewrite clear_lines_eq.
    assert (Hnil : Forall (fun row : list cell => length row = O) (Board.grid b)).
    { eapply Forall_impl; [exact Hrows |]. simpl. intros row Hrow. lia. }
    destruct (has_empty_no_cells _ Hnil) as [-> ->]. simpl.
    rewrite Nat.sub_0_r, app_nil_r. f_equal.
    destruct b as [W H g]. unfold Board.set_grid. simpl in *. f_equal.
    rewrite <- Hlen. clear Hlen. unfold Board.empty_row.
    replace (Z.to_nat W) with O by lia. simpl.
    induction Hnil as [| row rows Hrow _ IH]; [reflexivity |].
    destruct row; [| discriminate]. simpl. f_equal. apply IH. now inversion Hrows.
Qed.

Lemma clear_lines_twice_witness :
  Board.clear_lines
    (fst (Board.clear_lines (Board.mk 2 3 [["X"; "X"]; ["."; "X"]; ["Z"; "Z"]]%char))) =
  (fst (Board.clear_lines (Board.mk 2 3 [["X"; "X"]; ["."; "X"]; ["Z"; "Z"]]%char)), Ok 0).
Proof.
  refine (proj1 (clear_lines_twice (Board.mk 2 3 [["X"; "X"]; ["."; "X"]; ["Z"; "Z"]]%char) _) _).
  - split; [reflexivity | repeat constructor].
  - simpl. lia.
Defined.

(** X5. The two mutating methods of [Board] keep the shape of the grid:
    after [place_piece] (also when it raised half way) and after
    [clear_lines] the width and height are the same and a grid of [H] rows
    of [W] cells is still one; a new [Board(w, h)] has that shape, for
    negative arguments too (an empty grid). *)
Theorem board_shape_kept (b : Board.t) (p : Tetromino.t) :
  board_wf b ->
  shaped_like b (fst (Board.place_piece p b)) /\
  shaped_like b (fst (Board.clear_lines b)) /\
  (forall w h, board_wf (Board.init w h) /\
               length (Board.grid (Board.init w h)) = Z.to_nat h).
Proof.
  intros Hwf. split; [| split].
  - destruct (place_piece_frame p b) as (Hw & Hh & Hkeep).
    split; [auto | split; assumption].
  - destruct (clear_lines_wf b Hwf) as (b' & n & Hrun & _ & (Hw & Hh & _) & Hwf').
    rewrite Hrun. simpl. split; [exact Hwf' | split; assumption].
  - intros w h. split; [apply board_wf_init |]. simpl. apply length_replicate.
Qed.

Lemma board_shape_kept_witness :
  shaped_like (Board.init 10 20)
    (fst (Board.place_piece (Tetromino.mk Shape.I 1 8 18) (Board.init 10 20))) /\
  snd (Board.place_piece (Tetromino.mk Shape.I 1 8 18) (Board.init 10 20)) = Raise IndexError.
Proof.
  split; [| vm_compute; reflexivity].
  refine (proj1 (board_shape_kept (Board.init 10 20) (Tetromino.mk Shape.I 1 8 18) _)).
  split; [reflexivity | repeat constructor].
Defined.

Lemma is_game_over_eq (b : Board.t) :
  Board.is_game_over b =
  match Board.grid b with
  | [] => (b, Raise IndexError)
  | row :: _ => (b, Ok (existsb (fun c => negb (is_empty c)) row))
  end.
Proof.
  unfold Board.is_game_over, getitem, norm_index. py_unfold. simpl.
  destruct (Board.grid b); reflexivity.
Qed.

(** X6. [is_game_over] reads row 0 only and changes nothing: on a board of
    [H >= 1] rows of [W] cells it returns whether some cell of row 0 is
    occupied; on a board without rows it raises [IndexError]. *)
Theorem is_game_over_spec (b : Board.t) :
  board_wf b ->
  fst (Board.is_game_over b) = b /\
  (0 < Board.height b ->
   exists v, snd (Board.is_game_over b) = Ok v /\
             (v = true <-> exists x, occupied_at b 0 x)) /\
  (Board.height b <= 0 -> snd (Board.is_game_over b) = Raise IndexError).
Proof.
  intros [Hlen Hrows]. rewrite is_game_over_eq.
  destruct (Board.grid b) as [| row rows] eqn:Hgrid; simpl in *.
  - split; [reflexivity |]. split; [intros; lia | reflexivity].
  - split; [reflexivity |]. split; [| intros; lia].
    intros _. eexists. split; [reflexivity |].
    rewrite existsb_exists. unfold occupied_at, grid_at. rewrite Hgrid. split.
    + intros (c & Hin & Hc). apply list_elem_of_In, list_elem_of_lookup in Hin as [i Hi].
      exists (Z.of_nat i), c. simpl.
      destruct (Z.leb_spec 0 (Z.of_nat i)); [| lia]. simpl.
      rewrite Nat2Z.id. split; [exact Hi | now apply not_empty_spec].
    + intros (x & c & Hat & Hne). simpl in Hat.
      destruct (0 <=? x); [| discriminate]. simpl in Hat.
      exists c. split; [| now apply not_empty_spec].
      apply list_elem_of_In. eapply list_elem_of_lookup_2. exact Hat.
Qed.

Lemma is_game_over_spec_witness :
  snd (Board.is_game_over (Board.init 10 0)) = Raise IndexError.
Proof.
  refine (proj2 (proj2 (is_game_over_spec (Board.init 10 0) _)) _).
  - split; [reflexivity | constructor].
  - simpl. lia.
Defined.

(** ** Moving and rotating the current piece *)

Lemma collides_shifted (b : Board.t) (p : Tetromino.t) (dx dy dx' dy' : Z) :
  collides b (shifted p dx dy) dx' dy' <-> collides b p (dx + dx') (dy + dy').
Proof.
  unfold collides. simpl.
  split; intros (r & c & Hcell & Hb); exists r, c; (split; [exact Hcell |]).
  - replace (Tetromino.x p + Z.of_nat c + (dx + dx'))
      with (Tetromino.x p + dx + Z.of_nat c + dx') by lia.
    now replace (Tetromino.y p + Z.of_nat r + (dy + dy'))
      with (Tetromino.y p + dy + Z.of_nat r + dy') by lia.
  - replace (Tetromino.x p + dx + Z.of_nat c + dx')
      with (Tetromino.x p + Z.of_nat c + (dx + dx')) by lia.
    now replace (Tetromino.y p + dy + Z.of_nat r + dy')
      with (Tetromino.y p + Z.of_nat r + (dy + dy')) by lia.
Qed.

Lemma collidesb_shifted (b : Board.t) (p : Tetromino.t) (dx dy dx' dy' : Z) :
  collidesb b (shifted p dx dy) dx' dy' = collidesb b p (dx + dx') (dy + dy').
Proof.
  pose proof (collides_shifted b p dx dy dx' dy') as H.
  rewrite <- !collidesb_spec in H.
  destruct (collidesb b (shifted p dx dy) dx' dy'), (collidesb b p (dx + dx') (dy + dy'));
    try reflexivity; [symmetry |]; now apply H.
Qed.

(** X7. The offsets of [is_valid_position] and the stored position add up:
    on a board of [H] rows of [W] cells, validating a piece that was moved
    by [(dx, dy)] at the offset [(dx', dy')] gives the verdict of the
    unmoved piece at [(dx + dx', dy + dy')]. *)
Theorem offsets_add_up (b : Board.t) (p : Tetromino.t) (dx dy dx' dy' : Z) :
  board_wf b ->
  Board.is_valid_position b
    (Tetromino.mk (Tetromino.type p) (Tetromino.rotation p)
                  (Tetromino.x p + dx) (Tetromino.y p + dy)) dx' dy' =
  Board.is_valid_position b p (dx + dx') (dy + dy').
Proof.
  intros Hwf. fold (shifted p dx dy).
  rewrite !is_valid_position_collidesb by exact Hwf.
  now rewrite collidesb_shifted.
Qed.

Lemma offsets_add_up_witness :
  Board.is_valid_position (Board.init 10 20) (Tetromino.mk Shape.L 2 (5 + 3) (0 + 1)) (-1) 0 =
  Board.is_valid_position (Board.init 10 20) (Tetromino.mk Shape.L 2 5 0) (3 + -1) (1 + 0).
Proof.
  apply (offsets_add_up (Board.init 10 20) (Tetromino.mk Shape.L 2 5 0) 3 1 (-1) 0).
  split; [reflexivity | repeat constructor].
Defined.

Lemma shifted_back (p : Tetromino.t) (dx dy : Z) :
  shifted (shifted p dx dy) (- dx) (- dy) = p.
Proof. destruct p as [k r x y]. unfold shifted. simpl. f_equal; lia. Qed.

Lemma with_game_current_back (w : TetrisGame.World) (p q : Tetromino.t) :
  TetrisGame.current_piece (TetrisGame.game w) = Some p ->
  with_game (TetrisGame.set_current_piece (Some p))
            (with_game (TetrisGame.set_current_piece (Some q)) w) = w.
Proof.
  destruct w as [[b cur nxt sc lv ln pa go th lt di] ch ck]. simpl. now intros ->.
Qed.

(** X8. A move can be taken back: in a game whose board has [H] rows of [W]
    cells and whose current piece stands at a valid position, when
    [move_piece(dx, dy)] succeeds then [move_piece(-dx, -dy)] succeeds too
    and gives back the very world before the first move. *)
Theorem move_piece_undo (w w1 : TetrisGame.World) (p : Tetromino.t) (dx dy : Z) :
  board_wf (TetrisGame.board (TetrisGame.game w)) ->
  TetrisGame.current_piece (TetrisGame.game w) = Some p ->
  Board.is_valid_position (TetrisGame.board (TetrisGame.game w)) p 0 0 = Ok true ->
  TetrisGame.move_piece dx dy w = (w1, Ok true) ->
  TetrisGame.move_piece (- dx) (- dy) w1 = (w, Ok true).
Proof.
  intros Hwf Hp Hvalid Hmove. rewrite move_piece_eq, Hp in Hmove.
  destruct (Board.is_valid_position _ p dx dy) as [[|] | e |]; try discriminate.
  injection Hmove as <-. rewrite move_piece_eq. simpl.
  rewrite (is_valid_position_collidesb _ _ _ _ Hwf), collidesb_shifted.
  rewrite (is_valid_position_collidesb _ _ _ _ Hwf) in Hvalid.
  replace (dx + - dx) with 0 by lia. replace (dy + - dy) with 0 by lia.
  destruct (collidesb _ p 0 0); [discriminate |]. simpl.
  rewrite shifted_back. now rewrite with_game_current_back.
Qed.

Lemma move_piece_undo_witness :
  TetrisGame.move_piece (- 3) (- 2) (fst (TetrisGame.move_piece 3 2 start_world)) =
  (start_world, Ok true).
Proof.
  apply (move_piece_undo start_world _ (Tetromino.mk Shape.O 0 4 0) 3 2).
  - split; [reflexivity | repeat constructor].
  - reflexivity.
  - vm_compute. reflexivity.
  - vm_compute. reflexivity.
Defined.

(** X9. [rotate_piece] does no wall kick.  Without a current piece it
    returns [False] and changes nothing.  With one it validates the rotated
    piece at the same position: when that is valid the current piece becomes
    the rotated one (same kind and position, rotation advanced by one modulo
    the frame count) and the call returns [True]; when it is not, nothing
    changes and the call returns [False].  In every case only the current
    piece can differ afterwards, and its position never does. *)
Theorem rotate_piece_spec (w : TetrisGame.World) :
  (TetrisGame.current_piece (TetrisGame.game w) = None ->
   TetrisGame.rotate_piece w = (w, Ok false)) /\
  (forall p, TetrisGame.current_piece (TetrisGame.game w) = Some p ->
     let rotated :=
       Tetromino.mk (Tetromino.type p)
         ((Tetromino.rotation p + 1) mod Z.of_nat (frame_count (Tetromino.type p)))
         (Tetromino.x p) (Tetromino.y p) in
     (Board.is_valid_position (TetrisGame.board (TetrisGame.game w)) rotated 0 0 = Ok true ->
      TetrisGame.rotate_piece w =
        (with_game (TetrisGame.set_current_piece (Some rotated)) w, Ok true)) /\
     (Board.is_valid_position (TetrisGame.board (TetrisGame.game w)) rotated 0 0 = Ok false ->
      TetrisGame.rotate_piece w = (w, Ok false))) /\
  (exists cur,
     fst (TetrisGame.rotate_piece w) = with_game (TetrisGame.set_current_piece cur) w /\
     Tetromino.x <$> cur = Tetromino.x <$> TetrisGame.current_piece (TetrisGame.game w) /\
     Tetromino.y <$> cur = Tetromino.y <$> TetrisGame.current_piece (TetrisGame.game w) /\
     Tetromino.type <$> cur = Tetromino.type <$> TetrisGame.current_piece (TetrisGame.game w)).
Proof.
  rewrite rotate_piece_eq.
  assert (Hrot : forall p, Tetromino.rotate p =
            Tetromino.mk (Tetromino.type p)
              ((Tetromino.rotation p + 1) mod Z.of_nat (frame_count (Tetromino.type p)))
              (Tetromino.x p) (Tetromino.y p)).
  { intros p. unfold Tetromino.rotate. simpl. now rewrite frame_count_length. }
  assert (Hsame : forall cur, TetrisGame.current_piece (TetrisGame.game w) = cur ->
            w = with_game (TetrisGame.set_current_piece cur) w).
  { intros cur <-. now destruct w as [[] ? ?]. }
  split; [now intros -> |]. split.
  - intros p Hp rotated. rewrite Hp, Hrot. fold rotated.
    split; intros ->; reflexivity.
  - destruct (TetrisGame.current_piece (TetrisGame.game w)) as [p |] eqn:Hp.
    + destruct (Board.is_valid_position _ (Tetromino.rotate p) 0 0) as [[|] | e |]; simpl;
        try (exists (Some p); split; [now apply Hsame | now rewrite ?Hp]).
      exists (Some (Tetromino.rotate p)). split; [reflexivity |]. now rewrite Hrot.
    + exists None. split; [now apply Hsame | now rewrite ?Hp].
Qed.

(** ** [hard_drop] *)

Lemma drop_world_0 (w : TetrisGame.World) (p : Tetromino.t) :
  TetrisGame.current_piece (TetrisGame.game w) = Some p -> drop_world w p O = w.
Proof.
  destruct w as [[b cur nxt sc lv ln pa go th lt di] ch ck]. simpl. intros ->.
  unfold drop_world, with_game, lowered. simpl.
  destruct p as [k r x y]. simpl. rewrite !Z.add_0_r. reflexivity.
Qed.

Lemma drop_world_step (w : TetrisGame.World) (p : Tetromino.t) (k : nat) :
  drop_world
    (with_game (fun g => TetrisGame.set_score
                           (TetrisGame.score g + TetrisGame.HARD_DROP_POINTS) g)
       (with_game (TetrisGame.set_current_piece (Some (shifted p 0 1))) w))
    (shifted p 0 1) k =
  drop_world w p (Datatypes.S k).
Proof.
  destruct w as [[b cur nxt sc lv ln pa go th lt di] ch ck].
  unfold drop_world, with_game, lowered, shifted, TetrisGame.HARD_DROP_POINTS,
    TetrisGame.set_score, TetrisGame.set_current_piece.
  simpl.
  replace (sc + 2 + 2 * Z.of_nat k) with (sc + 2 * Z.of_nat (Datatypes.S k)) by lia.
  replace (Tetromino.x p + 0) with (Tetromino.x p) by lia.
  replace (Tetromino.y p + 1 + Z.of_nat k)
    with (Tetromino.y p + Z.of_nat (Datatypes.S k)) by lia.
  reflexivity.
Qed.

Lemma hard_drop_loop_run (fuel : nat) : forall w p,
  board_wf (TetrisGame.board (TetrisGame.game w)) ->
  TetrisGame.current_piece (TetrisGame.game w) = Some p ->
  (Z.to_nat (Board.height (TetrisGame.board (TetrisGame.game w)) - Tetromino.y p) <= fuel)%nat ->
  exists k,
    drop_distance (TetrisGame.board (TetrisGame.game w)) p k /\
    TetrisGame.hard_drop_loop fuel w = (drop_world w p k, Ok tt).
Proof.
  induction fuel as [| fuel IH]; intros w p Hwf Hp Hfuel; simpl; py_unfold;
    rewrite move_piece_eq, Hp;
    pose proof (valid_true_fits (TetrisGame.board (TetrisGame.game w)) p 0 1) as Hfits;
    pose proof (collidesb_spec (TetrisGame.board (TetrisGame.game w)) p 0 1) as Hspec;
    rewrite (is_valid_position_collidesb _ p 0 1 Hwf) in *;
    destruct (collidesb _ p 0 1) eqn:Hc; simpl.
  - exists O. split; [| now rewrite drop_world_0].
    split; [intros j Hj; lia | now apply Hspec].
  - destruct (piece_has_cell p) as (r & c & Hcell).
    destruct (Hfits eq_refl r c Hcell) as [_ Hy]. simpl in Hy. lia.
  - exists O. split; [| now rewrite drop_world_0].
    split; [intros j Hj; lia | now apply Hspec].
  - destruct (piece_has_cell p) as (r & c & Hcell).
    destruct (Hfits eq_refl r c Hcell) as [_ Hy]. simpl in Hy.
    unfold TetrisGame.setattr. py_unfold.
    destruct (IH (with_game (fun g => TetrisGame.set_score
                                       (TetrisGame.score g + TetrisGame.HARD_DROP_POINTS) g)
                    (with_game (TetrisGame.set_current_piece (Some (shifted p 0 1))) w))
                 (shifted p 0 1)) as (k & [Hfree Hstop] & Hrun).
    + exact Hwf.
    + reflexivity.
    + simpl. lia.
    + exists (Datatypes.S k). split; [split |].
      * intros j Hj. destruct (Z.eq_dec j 1) as [-> | Hne].
        -- intros Hcol. apply Hspec in Hcol. discriminate.
        -- intros Hcol. apply (Hfree (j - 1)); [lia |].
           apply collides_shifted. simpl. now replace (1 + (j - 1)) with j by lia.
      * simpl in Hstop. apply collides_shifted in Hstop. simpl in Hstop.
        now replace (Z.of_nat (Datatypes.S k) + 1) with (1 + (Z.of_nat k + 1)) by lia.
      * rewrite <- drop_world_step. exact Hrun.
Qed.

(** X10. [hard_drop] lets the piece fall as far as it can and locks it
    there.  On a board of [H] rows of [W] cells, with a current piece, there
    is a [k] such that the [k] rows below the piece are free for it and the
    next is not; the call is [lock_piece] run on the game with the piece
    [k] rows lower (same column, kind and rotation) and [2 * k] points more.
    Without a current piece the call changes nothing. *)
Theorem hard_drop_spec (w : TetrisGame.World) :
  board_wf (TetrisGame.board (TetrisGame.game w)) ->
  (forall p, TetrisGame.current_piece (TetrisGame.game w) = Some p ->
     exists k,
       drop_distance (TetrisGame.board (TetrisGame.game w)) p k /\
       TetrisGame.hard_drop w =
         TetrisGame.lock_piece
           (with_game (fun g =>
              TetrisGame.set_score (TetrisGame.score g + 2 * Z.of_nat k)
                (TetrisGame.set_current_piece
                   (Some (Tetromino.mk (Tetromino.type p) (Tetromino.rotation p)
                                       (Tetromino.x p) (Tetromino.y p + Z.of_nat k))) g)) w)) /\
  (TetrisGame.current_piece (TetrisGame.game w) = None ->
   TetrisGame.hard_drop w = (w, Ok tt)).
Proof.
  intros Hwf. split.
  - intros p Hp.
    destruct (hard_drop_loop_run _ w p Hwf Hp (Nat.le_refl _)) as (k & Hdist & Hrun).
    exists k. split; [exact Hdist |].
    unfold TetrisGame.hard_drop. py_unfold. rewrite Hp, Hrun. reflexivity.
  - intros Hp. unfold TetrisGame.hard_drop. py_unfold. now rewrite Hp.
Qed.

Lemma hard_drop_spec_witness :
  exists k,
    drop_distance (TetrisGame.board (TetrisGame.game two_lines_world))
                  (Tetromino.mk Shape.O 0 4 18) k /\
    TetrisGame.hard_drop two_lines_world =
      TetrisGame.lock_piece
        (with_game (fun g =>
           TetrisGame.set_score (TetrisGame.score g + 2 * Z.of_nat k)
             (TetrisGame.set_current_piece
                (Some (Tetromino.mk Shape.O 0 4 (18 + Z.of_nat k))) g)) two_lines_world).
Proof.
  refine (proj1 (hard_drop_spec two_lines_world _) (Tetromino.mk Shape.O 0 4 18) _).
  - split; [reflexivity | repeat constructor].
  - reflexivity.
Defined.

(** ** What holds in every reachable game *)

Lemma steady_ret {A} (a : A) : steady (ret a : TetrisGame.M A).
Proof. intros w Hw. now exists w, a. Qed.

Lemma steady_bind {A B} (m : TetrisGame.M A) (k : A -> TetrisGame.M B) :
  steady m -> (forall a, steady (k a)) -> steady (x ← m; k x).
Proof. intros Hm Hk. eapply triple_bind; [apply Hm | intros a; apply Hk]. Qed.

Lemma steady_gets {A} (f : TetrisGame.World -> A) : steady (gets f).
Proof. intros w Hw. now exists w, (f w). Qed.

Lemma steady_time_time : steady TetrisGame.time_time.
Proof. intros w Hw. eexists _, _. split; [reflexivity | exact Hw]. Qed.

Lemma steady_from {A} (m : TetrisGame.M A) :
  preserves m -> (forall w, Steady w -> in_play (TetrisGame.game (fst (m w)))) -> steady m.
Proof.
  intros Hm Hkeep w Hw.
  destruct (preserves_run m w Hm (proj1 Hw)) as (w' & a & Hrun & Hinv & _).
  exists w', a. split; [exact Hrun |]. split; [exact Hinv |].
  specialize (Hkeep w Hw). now rewrite Hrun in Hkeep.
Qed.

(** Attributes that [in_play] does not read. *)
Lemma in_play_same (g g' : TetrisGame.t) :
  TetrisGame.board g' = TetrisGame.board g ->
  TetrisGame.current_piece g' = TetrisGame.current_piece g ->
  TetrisGame.next_piece g' = TetrisGame.next_piece g ->
  TetrisGame.level g' = TetrisGame.level g ->
  TetrisGame.lines_cleared g' = TetrisGame.lines_cleared g ->
  TetrisGame.drop_interval g' = TetrisGame.drop_interval g ->
  (TetrisGame.game_over g' = false -> TetrisGame.game_over g = false) ->
  in_play g -> in_play g'.
Proof.
  intros Hb Hc Hn Hl Hln Hd Hgo ((p & Hp & Hr & Hfree) & Hnext & Hlv & Hdi).
  split; [| split; [| split]].
  - exists p. rewrite Hc, Hb. auto.
  - now rewrite Hn.
  - now rewrite Hl, Hln.
  - now rewrite Hd, Hl.
Qed.

Lemma in_play_set_current (g : TetrisGame.t) (p : Tetromino.t) :
  in_play g -> rotation_in_range p ->
  (TetrisGame.game_over g = false -> ~ collides (TetrisGame.board g) p 0 0) ->
  in_play (TetrisGame.set_current_piece (Some p) g).
Proof.
  intros (_ & Hnext & Hprog) Hr Hfree. split; [| split; assumption].
  exists p. auto.
Qed.

Lemma steady_setattr (f : TetrisGame.t -> TetrisGame.t) :
  (forall g, game_inv g -> in_play g -> game_inv (f g) /\ in_play (f g)) ->
  steady (TetrisGame.setattr f).
Proof.
  intros Hf w [Hinv Hplay]. exists (with_game f w), tt. split; [reflexivity |].
  now apply Hf.
Qed.

Lemma valid_not_collides (b : Board.t) (p : Tetromino.t) (dx dy : Z) :
  board_wf b -> Board.is_valid_position b p dx dy = Ok true -> ~ collides b p dx dy.
Proof.
  intros Hwf Hvalid. rewrite (is_valid_position_collidesb b p dx dy Hwf) in Hvalid.
  rewrite <- collidesb_spec. destruct (collidesb b p dx dy); [discriminate | discriminate].
Qed.

Lemma steady_move (dx dy : Z) : steady (TetrisGame.move_piece dx dy).
Proof.
  apply steady_from; [apply preserves_move |].
  intros w [Hinv Hplay]. rewrite move_piece_eq.
  pose proof Hplay as ((p & Hp & Hr & Hfree) & _). rewrite Hp.
  pose proof (valid_not_collides (TetrisGame.board (TetrisGame.game w)) p dx dy (proj1 Hinv))
    as Hvalid.
  destruct (Board.is_valid_position _ p dx dy) as [[|] | e |]; simpl; try exact Hplay.
  apply in_play_set_current; [exact Hplay | exact Hr |].
  intros _ Hcol. apply (Hvalid eq_refl).
  apply collides_shifted in Hcol. now rewrite !Z.add_0_r in Hcol.
Qed.

Lemma frame_count_pos (k : Shape.t) : 0 < Z.of_nat (frame_count k).
Proof. destruct k; simpl; lia. Qed.

Lemma steady_rotate : steady TetrisGame.rotate_piece.
Proof.
  apply steady_from; [apply preserves_rotate |].
  intros w [Hinv Hplay]. rewrite rotate_piece_eq.
  pose proof Hplay as ((p & Hp & Hr & Hfree) & _). rewrite Hp.
  pose proof (valid_not_collides (TetrisGame.board (TetrisGame.game w)) (Tetromino.rotate p) 0 0
                (proj1 Hinv)) as Hvalid.
  destruct (Board.is_valid_position _ (Tetromino.rotate p) 0 0) as [[|] | e |]; simpl;
    try exact Hplay.
  apply in_play_set_current; [exact Hplay | | intros _; now apply Hvalid].
  unfold rotation_in_range. destruct (rotate_fields p) as (-> & _ & _ & ->).
  apply Z.mod_pos_bound, frame_count_pos.
Qed.

(** [spawn_new_piece] needs no piece in place: it makes one. *)
Lemma spawn_steady (w : TetrisGame.World) :
  game_inv (TetrisGame.game w) -> progress_ok (TetrisGame.game w) ->
  exists w', TetrisGame.spawn_new_piece w = (w', Ok tt) /\ Steady w'.
Proof.
  intros Hinv Hprog.
  destruct (spawn_inv 0 w) as (w' & Hrun & [Hinv' _] & _ & _).
  { split; [exact Hinv | apply Hinv]. }
  exists w'. split; [exact Hrun |]. split; [exact Hinv' |].
  pose proof (spawn_new_piece_post w) as Hpost. rewrite Hrun in Hpost.
  destruct Hpost as (Hb & _ & Hlv & Hln & _ & _ & _ & Hdi & _ & Hc & (k & Hn) & _).
  simpl in *.
  pose proof Hinv as (Hwf & _ & _ & _ & Hnext & _).
  split; [| split; [| split]].
  - exists (incoming w). split; [exact Hc |]. split.
    + rewrite (incoming_unrotated w Hnext). unfold rotation_in_range. simpl.
      split; [lia | apply frame_count_pos].
    + intros Hover Hcol. rewrite Hb in Hcol. apply collidesb_spec in Hcol.
      rewrite spawn_new_piece_eq, (is_valid_position_collidesb _ _ 0 0 Hwf), Hcol in Hrun.
      simpl in Hrun. injection Hrun as <-. simpl in Hover. discriminate.
  - rewrite Hn. now exists (Tetromino.init k).
  - rewrite Hlv, Hln. apply Hprog.
  - rewrite Hdi, Hlv. apply Hprog.
Qed.

Lemma steady_spawn : steady TetrisGame.spawn_new_piece.
Proof.
  intros w [Hinv (_ & _ & Hprog)].
  destruct (spawn_steady w Hinv Hprog) as (w' & Hrun & Hw'). now exists w', tt.
Qed.

Lemma progress_ok_scored (g : TetrisGame.t) (b : Board.t) (n : Z) :
  progress_ok g -> progress_ok (scored n (TetrisGame.set_board b g)).
Proof.
  intros Hprog. unfold scored. destruct (0 <? n); [split; reflexivity | exact Hprog].
Qed.

Lemma steady_lock : steady TetrisGame.lock_piece.
Proof.
  intros w [Hinv Hplay].
  pose proof Hplay as ((p & Hp & _) & _ & Hprog).
  pose proof Hinv as (Hwf & Hw & Hh & Hcur & Hnext & Hscore & Hlevel & Hlines).
  destruct (place_piece_ok p _ Hwf (Hcur p Hp)) as (b1 & Hplace & (Hw1 & Hh1 & _) & Hwf1).
  destruct (clear_lines_wf b1 Hwf1) as (b2 & n & Hclear & Hn & (Hw2 & Hh2 & _) & Hwf2).
  rewrite (lock_piece_run w p b1 b2 n Hp Hplace Hclear Hlines Hn).
  destruct (game_inv_scored (TetrisGame.game w) b2 n Hinv Hwf2) as (Hinv2 & _ & _);
    [congruence | congruence | exact Hn |].
  destruct (spawn_steady (with_game (fun g => scored n (TetrisGame.set_board b2 g)) w))
    as (w' & Hrun & Hw').
  - exact Hinv2.
  - simpl. now apply progress_ok_scored.
  - now exists w', tt.
Qed.

Lemma collides_lowered (b : Board.t) (p : Tetromino.t) (k : nat) :
  collides b (lowered p k) 0 0 <-> collides b p 0 (Z.of_nat k).
Proof.
  rewrite <- (Z.add_0_r (Z.of_nat k)) at 1. rewrite <- (Z.add_0_l 0) at 3.
  rewrite <- collides_shifted. unfold lowered, shifted. now rewrite Z.add_0_r.
Qed.

Lemma steady_hard_drop : steady TetrisGame.hard_drop.
Proof.
  intros w [Hinv Hplay].
  pose proof Hplay as ((p & Hp & Hr & Hfree) & Hnext & Hprog).
  pose proof Hinv as (Hwf & _ & Hh & _).
  unfold TetrisGame.hard_drop. py_unfold. rewrite Hp.
  destruct (hard_drop_loop_run _ w p Hwf Hp (Nat.le_refl _)) as (k & [Hclear Hstop] & Hrun).
  destruct (hard_drop_loop_ok 0
              (Z.to_nat (Board.height (TetrisGame.board (TetrisGame.game w)) - Tetromino.y p))
              w p)
    as (w1 & Hrun1 & [Hinv1 _]).
  { split; [exact Hinv | apply Hinv]. }
  { exact Hp. }
  { rewrite Hh. apply Nat.le_refl. }
  rewrite Hrun in Hrun1. injection Hrun1 as <-. rewrite Hrun.
  apply steady_lock. split; [exact Hinv1 |].
  split; [| split; [exact Hnext | exact Hprog]].
  exists (lowered p k). split; [reflexivity |]. split; [exact Hr |].
  simpl. intros Hover Hcol. apply collides_lowered in Hcol.
  destruct k as [| k]; [now apply (Hfree Hover) |].
  apply (Hclear (Z.of_nat (Datatypes.S k))); [lia | exact Hcol].
Qed.

(** ** Construction and restart, in full *)

Lemma spawn_valid_empty (k : Shape.t) :
  Board.is_valid_position (Board.init 10 20) (Tetromino.mk k 0 4 0) 0 0 = Ok true.
Proof. destruct k; vm_compute; reflexivity. Qed.

Lemma two_spawns_fresh theme choices clock :
  (TetrisGame.spawn_new_piece ;; TetrisGame.spawn_new_piece) (fresh_world theme choices clock) =
  (started theme choices clock, Ok tt).
Proof.
  unfold mbind, Py_bind, bind. rewrite spawn_new_piece_eq.
  change (incoming (fresh_world theme choices clock)) with (Tetromino.mk (choices O) 0 4 0).
  change (TetrisGame.board (TetrisGame.game (fresh_world theme choices clock)))
    with (Board.init 10 20).
  rewrite spawn_valid_empty, spawn_new_piece_eq.
  change (incoming (spawned (fresh_world theme choices clock)))
    with (Tetromino.mk (choices 1%nat) 0 4 0).
  change (TetrisGame.board (TetrisGame.game (spawned (fresh_world theme choices clock))))
    with (Board.init 10 20).
  rewrite spawn_valid_empty. reflexivity.
Qed.

Lemma init_started choices clock :
  TetrisGame.init choices clock = (started GREEN choices clock, Ok tt).
Proof. rewrite init_eq. apply two_spawns_fresh. Qed.

Lemma restart_started (w : TetrisGame.World) :
  TetrisGame.restart w =
  (started (TetrisGame.theme (TetrisGame.game w)) (TetrisGame.choices w) (TetrisGame.clock w),
   Ok tt).
Proof. rewrite restart_eq. apply two_spawns_fresh. Qed.

Lemma started_steady theme choices clock : Steady (started theme choices clock).
Proof.
  split.
  - inv_split; simpl; try lia; try reflexivity.
    + apply board_wf_init.
    + intros p [= <-]. now apply spawn_fits.
    + now intros q [= <-].
  - split; [| split; [| split]]; simpl.
    + eexists. split; [reflexivity |]. split.
      * unfold rotation_in_range. simpl. split; [lia | apply frame_count_pos].
      * intros _. apply valid_not_collides; [apply board_wf_init | apply spawn_valid_empty].
    + now eexists.
    + reflexivity.
    + vm_compute. reflexivity.
Qed.

Lemma steady_restart : steady TetrisGame.restart.
Proof.
  intros w _. rewrite restart_started. eexists _, tt. split; [reflexivity |].
  apply started_steady.
Qed.

Lemma steady_keep (f : TetrisGame.t -> TetrisGame.t) :
  (forall g, game_inv g -> game_inv (f g)) ->
  (forall g, in_play g -> in_play (f g)) ->
  steady (TetrisGame.setattr f).
Proof. intros Hinv Hplay. apply steady_setattr. intros g Hg Hp. split; auto. Qed.

Lemma steady_toggle_pause : steady TetrisGame.toggle_pause.
Proof. apply steady_keep; intros g Hg; exact Hg. Qed.

Lemma steady_toggle_theme : steady TetrisGame.toggle_theme.
Proof. apply steady_keep; intros g Hg; exact Hg. Qed.

Lemma steady_update : steady TetrisGame.update.
Proof.
  unfold TetrisGame.update.
  apply steady_bind; [apply steady_gets |]. intros self.
  destruct (_ || _); [apply steady_ret |].
  apply steady_bind; [apply steady_time_time |]. intros current_time.
  destruct (PrimFloat.leb _ _); [| apply steady_ret].
  apply steady_bind; [apply steady_move |]. intros moved.
  apply steady_bind.
  - destruct (negb moved); [apply steady_lock | apply steady_ret].
  - intros _. apply steady_keep; intros g Hg; exact Hg.
Qed.

Lemma steady_handle_input (getch : option Z) : steady (TetrisUI.handle_input getch).
Proof.
  unfold TetrisUI.handle_input. destruct getch as [key |]; [| apply steady_ret].
  destruct ((key =? ord "q") || (key =? ord "Q")); [apply steady_ret |].
  destruct ((key =? ord "p") || (key =? ord "P")).
  { apply steady_bind; [apply steady_toggle_pause | intros _; apply steady_ret]. }
  destruct ((key =? ord "r") || (key =? ord "R")).
  { apply steady_bind; [apply steady_restart | intros _; apply steady_ret]. }
  destruct ((key =? ord "t") || (key =? ord "T")).
  { apply steady_bind; [apply steady_toggle_theme | intros _; apply steady_ret]. }
  apply steady_bind; [apply steady_gets |]. intros self.
  apply steady_bind; [| intros ?; apply steady_ret].
  destruct (_ && _); [| apply steady_ret].
  destruct (key =? curses.KEY_LEFT).
  { apply steady_bind; [apply steady_move | intros _; apply steady_ret]. }
  destruct (key =? curses.KEY_RIGHT).
  { apply steady_bind; [apply steady_move | intros _; apply steady_ret]. }
  destruct (key =? curses.KEY_DOWN).
  { apply steady_bind; [apply steady_move |]. intros [|]; [| apply steady_ret].
    apply steady_keep; [| intros g Hg; exact Hg].
    intros g Hg. apply (game_inv_add_score g 1 Hg). lia. }
  destruct (key =? curses.KEY_UP).
  { apply steady_bind; [apply steady_rotate | intros _; apply steady_ret]. }
  destruct (key =? ord " "); [apply steady_hard_drop | apply steady_ret].
Qed.

Lemma steady_run_op (o : op) : steady (run_op o).
Proof.
  destruct o as [| dx dy | | | | | | | | getch]; simpl.
  - apply steady_spawn.
  - apply steady_bind; [apply steady_move | intros _; apply steady_ret].
  - apply steady_bind; [apply steady_rotate | intros _; apply steady_ret].
  - apply steady_hard_drop.
  - apply steady_lock.
  - apply steady_update.
  - apply steady_toggle_pause.
  - apply steady_toggle_theme.
  - apply steady_restart.
  - apply steady_bind; [apply steady_handle_input | intros _; apply steady_ret].
Qed.

Lemma reachable_steady (w : TetrisGame.World) : reachable w -> Steady w.
Proof.
  induction 1 as [choices clock w Hinit | o w w' Hreach IH Hrun].
  - rewrite init_started in Hinit. injection Hinit as <-. apply started_steady.
  - destruct (steady_run_op o w IH) as (w0 & a & Hrun0 & Hw0). congruence.
Qed.

(** ** What the methods carry over *)

Lemma carried_refl (g : TetrisGame.t) : carried g g.
Proof. unfold carried. refine (conj _ (conj _ (conj _ _))); auto. lia. Qed.

Lemma carried_trans (g1 g2 g3 : TetrisGame.t) :
  carried g1 g2 -> carried g2 g3 -> carried g1 g3.
Proof.
  intros (Ht & Hp & Hgo & Hl) (Ht' & Hp' & Hgo' & Hl').
  refine (conj _ (conj _ (conj _ _))); [congruence | congruence | auto | lia].
Qed.

Lemma carried_fields (g g' : TetrisGame.t) :
  TetrisGame.theme g' = TetrisGame.theme g ->
  TetrisGame.paused g' = TetrisGame.paused g ->
  TetrisGame.game_over g' = TetrisGame.game_over g ->
  TetrisGame.lines_cleared g' = TetrisGame.lines_cleared g ->
  carried g g'.
Proof.
  intros Ht Hp Hgo Hl. refine (conj _ (conj _ (conj _ _))); [auto | auto | congruence | lia].
Qed.

Lemma carries_same {A} (m : TetrisGame.M A) :
  (forall w, TetrisGame.game (fst (m w)) = TetrisGame.game w) -> carries m.
Proof. intros Hm w. rewrite Hm. apply carried_refl. Qed.

Lemma carries_ret {A} (a : A) : carries (ret a : TetrisGame.M A).
Proof. now apply carries_same. Qed.

Lemma carries_raise {A} (e : exn) : carries (raise e : TetrisGame.M A).
Proof. now apply carries_same. Qed.

Lemma carries_lift {A} (r : result A) : carries (lift r : TetrisGame.M A).
Proof. now apply carries_same. Qed.

Lemma carries_gets {A} (f : TetrisGame.World -> A) : carries (gets f).
Proof. now apply carries_same. Qed.

Lemma carries_random_choice : carries TetrisGame.random_choice.
Proof. now apply carries_same. Qed.

Lemma carries_time_time : carries TetrisGame.time_time.
Proof. now apply carries_same. Qed.

Lemma carries_deref {A} (o : option A) : carries (TetrisGame.deref o).
Proof. destruct o; [apply carries_ret | apply carries_raise]. Qed.

Lemma carries_float_of_int (n : Z) : carries (float_of_int n : TetrisGame.M float).
Proof.
  apply carries_same. intros w. unfold float_of_int.
  now destruct (binary_normalize _ _ _ _ _).
Qed.

Lemma carries_calculate_score (n : Z) : carries (TetrisGame._calculate_score n).
Proof. apply carries_same. intros w. now rewrite calculate_score_eq. Qed.

Lemma carries_bind {A B} (m : TetrisGame.M A) (k : A -> TetrisGame.M B) :
  carries m -> (forall a, carries (k a)) -> carries (x ← m; k x).
Proof.
  intros Hm Hk w. specialize (Hm w). py_unfold.
  destruct (m w) as [w1 [a | e |]]; simpl in *; try exact Hm.
  eapply carried_trans; [exact Hm | apply Hk].
Qed.

Lemma carries_setattr (f : TetrisGame.t -> TetrisGame.t) :
  (forall g, carried g (f g)) -> carries (TetrisGame.setattr f).
Proof. intros Hf w. apply Hf. Qed.

Lemma carries_on_board {A} (m : Py Board.t A) : carries (TetrisGame.on_board m).
Proof.
  intros w. unfold TetrisGame.on_board, zoom.
  destruct (m _) as [b' r]. now apply carried_fields.
Qed.

Lemma carries_spawn : carries TetrisGame.spawn_new_piece.
Proof.
  intros w. destruct (spawn_new_piece_post w)
    as (_ & _ & _ & Hl & Hp & Ht & _ & _ & _ & _ & _ & Hgo).
  refine (conj _ (conj _ (conj _ _))); auto. lia.
Qed.

Lemma carries_move (dx dy : Z) : carries (TetrisGame.move_piece dx dy).
Proof.
  intros w. rewrite move_piece_eq.
  destruct (TetrisGame.current_piece _) as [p |]; [| apply carried_refl].
  destruct (Board.is_valid_position _ p dx dy) as [[|] | e |]; now apply carried_fields.
Qed.

Lemma carries_rotate : carries TetrisGame.rotate_piece.
Proof.
  intros w. rewrite rotate_piece_eq.
  destruct (TetrisGame.current_piece _) as [p |]; [| apply carried_refl].
  destruct (Board.is_valid_position _ _ 0 0) as [[|] | e |]; now apply carried_fields.
Qed.

Ltac carries_step :=
  lazymatch goal with
  | |- carries (ret _) => apply carries_ret
  | |- carries (raise _) => apply carries_raise
  | |- carries (lift _) => apply carries_lift
  | |- carries (gets _) => apply carries_gets
  | |- carries TetrisGame.random_choice => apply carries_random_choice
  | |- carries TetrisGame.time_time => apply carries_time_time
  | |- carries (TetrisGame.deref _) => apply carries_deref
  | |- carries (float_of_int _) => apply carries_float_of_int
  | |- carries (TetrisGame._calculate_score _) => apply carries_calculate_score
  | |- carries (TetrisGame.on_board _) => apply carries_on_board
  | |- carries TetrisGame.spawn_new_piece => apply carries_spawn
  | |- carries (TetrisGame.move_piece _ _) => apply carries_move
  | |- carries TetrisGame.rotate_piece => apply carries_rotate
  | |- carries (TetrisGame.setattr _) =>
      apply carries_setattr; intros ?; unfold carried; simpl;
      refine (conj _ (conj _ (conj _ _))); [reflexivity | reflexivity | auto | lia]
  | |- carries (mbind _ _) => apply carries_bind; [| intros ?]
  | |- carries (if ?c then _ else _) => destruct c
  | |- carries (match ?o with Some _ => _ | None => _ end) => destruct o
  end.

Lemma carries_lock : carries TetrisGame.lock_piece.
Proof.
  unfold TetrisGame.lock_piece.
  apply carries_bind; [apply carries_gets |]. intros self.
  destruct (TetrisGame.current_piece self); [| apply carries_ret].
  apply carries_bind; [apply carries_on_board |]. intros _.
  apply carries_bind; [apply carries_on_board |]. intros lines.
  apply carries_bind; [| intros _; apply carries_spawn].
  destruct (Z.gtb_spec lines 0); [| apply carries_ret].
  repeat carries_step.
Qed.

Lemma carries_hard_drop_loop (fuel : nat) : carries (TetrisGame.hard_drop_loop fuel).
Proof.
  induction fuel as [| fuel IH]; simpl; repeat carries_step. exact IH.
Qed.

Lemma carries_hard_drop : carries TetrisGame.hard_drop.
Proof.
  unfold TetrisGame.hard_drop.
  apply carries_bind; [apply carries_gets |]. intros self.
  destruct (TetrisGame.current_piece self); [| apply carries_ret].
  apply carries_bind; [apply carries_hard_drop_loop | intros _; apply carries_lock].
Qed.

Lemma carries_update : carries TetrisGame.update.
Proof.
  unfold TetrisGame.update.
  repeat lazymatch goal with
         | |- carries TetrisGame.lock_piece => apply carries_lock
         | |- _ => carries_step
         end.
Qed.

(** A key that is none of p, r, t (either case). *)
Lemma carries_handle_input (key : Z) :
  toggles_pause (OpKey (Some key)) = false ->
  restarts (OpKey (Some key)) = false ->
  toggles_theme (OpKey (Some key)) = false ->
  carries (TetrisUI.handle_input (Some key)).
Proof.
  unfold toggles_pause, restarts, toggles_theme, TetrisUI.handle_input.
  intros -> -> ->.
  repeat lazymatch goal with
         | |- carries TetrisGame.hard_drop => apply carries_hard_drop
         | |- _ => carries_step
         end.
Qed.

Lemma handle_input_pause_key (key : Z) (w : TetrisGame.World) :
  (key =? ord "p") || (key =? ord "P") = true ->
  TetrisUI.handle_input (Some key) w =
  (with_game (fun g => TetrisGame.set_paused (negb (TetrisGame.paused g)) g) w, Ok true).
Proof.
  intros H. apply orb_true_iff in H as [H | H]; apply Z.eqb_eq in H; subst key; reflexivity.
Qed.

Lemma handle_input_theme_key (key : Z) (w : TetrisGame.World) :
  (key =? ord "t") || (key =? ord "T") = true ->
  TetrisUI.handle_input (Some key) w =
  (with_game (fun g => TetrisGame.set_theme (other_theme (TetrisGame.theme g)) g) w, Ok true).
Proof.
  intros H. apply orb_true_iff in H as [H | H]; apply Z.eqb_eq in H; subst key; reflexivity.
Qed.

Lemma handle_input_restart_key (key : Z) (w : TetrisGame.World) :
  (key =? ord "r") || (key =? ord "R") = true ->
  TetrisUI.handle_input (Some key) w =
  (started (TetrisGame.theme (TetrisGame.game w)) (TetrisGame.choices w) (TetrisGame.clock w),
   Ok true).
Proof.
  intros H.
  assert (Hrun : TetrisUI.handle_input (Some key) w = (TetrisGame.restart ;; ret true) w)
    by (apply orb_true_iff in H as [H | H]; apply Z.eqb_eq in H; subst key; reflexivity).
  rewrite Hrun. py_unfold. now rewrite restart_started.
Qed.

Lemma key_classes (key : Z) :
  let o := OpKey (Some key) in
  (toggles_pause o = true -> restarts o = false /\ toggles_theme o = false) /\
  (restarts o = true -> toggles_pause o = false /\ toggles_theme o = false) /\
  (toggles_theme o = true -> toggles_pause o = false /\ restarts o = false).
Proof.
  simpl.
  change (ord "p") with 112. change (ord "P") with 80.
  change (ord "r") with 114. change (ord "R") with 82.
  change (ord "t") with 116. change (ord "T") with 84.
  repeat match goal with
         | |- context [?a =? ?b] => destruct (Z.eqb_spec a b); [subst; simpl |]
         end; simpl; repeat split; intros; try reflexivity; try discriminate; try lia.
Qed.

Lemma flags_of_carried (o : op) (g g' : TetrisGame.t) :
  toggles_pause o = false -> restarts o = false -> toggles_theme o = false ->
  carried g g' -> flags_step o g g'.
Proof. unfold flags_step. now intros -> -> ->. Qed.

Lemma run_op_flags (o : op) (w : TetrisGame.World) :
  flags_step o (TetrisGame.game w) (TetrisGame.game (fst (run_op o w))).
Proof.
  assert (Hthen : forall A (m : TetrisGame.M A), carries m -> carries (m ;; ret tt))
    by (intros A m Hm; apply carries_bind; [exact Hm | intros _; apply carries_ret]).
  destruct o as [| dx dy | | | | | | | | [key |]];
    try (apply flags_of_carried; [reflexivity | reflexivity | reflexivity |]).
  - apply carries_spawn.
  - apply (Hthen _ _ (carries_move dx dy)).
  - apply (Hthen _ _ carries_rotate).
  - apply carries_hard_drop.
  - apply carries_lock.
  - apply carries_update.
  - unfold flags_step. simpl. refine (conj _ (conj _ (conj _ _))); auto. lia.
  - unfold flags_step. simpl. refine (conj _ (conj _ (conj _ _))); auto. lia.
  - unfold flags_step. simpl run_op. rewrite restart_started. simpl.
    refine (conj _ (conj _ (conj _ _))); reflexivity.
  - destruct (key_classes key) as (Hp & Hr & Ht).
    unfold flags_step, run_op. unfold toggles_pause, restarts, toggles_theme in *.
    unfold mbind, Py_bind, bind.
    destruct ((key =? ord "p") || (key =? ord "P")) eqn:Ep.
    { destruct (Hp eq_refl) as [-> ->].
      rewrite (handle_input_pause_key key w Ep). simpl.
      refine (conj _ (conj _ (conj _ _))); auto. lia. }
    destruct ((key =? ord "r") || (key =? ord "R")) eqn:Er.
    { destruct (Hr eq_refl) as [_ ->].
      rewrite (handle_input_restart_key key w Er). simpl.
      refine (conj _ (conj _ (conj _ _))); reflexivity. }
    destruct ((key =? ord "t") || (key =? ord "T")) eqn:Et.
    { rewrite (handle_input_theme_key key w Et). simpl.
      refine (conj _ (conj _ (conj _ _))); auto. lia. }
    pose proof (carries_handle_input key Ep Er Et w) as Hcar.
    destruct (TetrisUI.handle_input (Some key) w) as [w' [b | e |]]; exact Hcar.
  - apply carried_refl.
Qed.

(** X11. The three flags and the line count, for every operation in every
    world, whether the operation returns or raises.  The theme changes only
    by [toggle_theme] and the t key, which flip it; [restart] keeps it.  The
    pause flag changes only by [toggle_pause] and the p key, which flip it,
    and by a restart, which clears it.  A game that is over stays over until
    a restart ([restart] or the r key), which always leaves a game that is
    not over; nothing else clears the flag.  The line count never goes down,
    except to 0 by a restart. *)
Theorem flags_frame (o : op) (w : TetrisGame.World) :
  let g := TetrisGame.game w in
  let g' := TetrisGame.game (fst (run_op o w)) in
  TetrisGame.theme g' =
    (if toggles_theme o then other_theme (TetrisGame.theme g) else TetrisGame.theme g) /\
  TetrisGame.paused g' =
    (if restarts o then false
     else if toggles_pause o then negb (TetrisGame.paused g) else TetrisGame.paused g) /\
  (if restarts o then TetrisGame.game_over g' = false
   else TetrisGame.game_over g = true -> TetrisGame.game_over g' = true) /\
  (if restarts o then TetrisGame.lines_cleared g' = 0
   else TetrisGame.lines_cleared g <= TetrisGame.lines_cleared g').
Proof. exact (run_op_flags o w). Qed.

Lemma level_for_lines_mono (a b : Z) : a <= b -> level_for_lines a <= level_for_lines b.
Proof.
  intros H. unfold level_for_lines.
  pose proof (Z.div_le_mono a b 10 ltac:(lia) H). lia.
Qed.

Lemma interval_table :
  forallb (fun a =>
    PrimFloat.leb 0.05 (interval_for_level a) && PrimFloat.leb (interval_for_level a) 1.0 &&
    forallb (fun b =>
      implb (a <=? b) (PrimFloat.leb (interval_for_level b) (interval_for_level a)))
      (List.map Z.of_nat (seq 1 20)))
    (List.map Z.of_nat (seq 1 20)) = true.
Proof. vm_compute. reflexivity. Qed.

Lemma level_listed (l : Z) : 1 <= l <= 20 -> In l (List.map Z.of_nat (seq 1 20)).
Proof.
  intros Hl. apply in_map_iff. exists (Z.to_nat l). split; [lia |].
  apply in_seq. lia.
Qed.

Lemma interval_bounds (l : Z) :
  1 <= l <= 20 ->
  PrimFloat.leb 0.05 (interval_for_level l) = true /\
  PrimFloat.leb (interval_for_level l) 1.0 = true.
Proof.
  intros Hl. pose proof interval_table as Htab. rewrite forallb_forall in Htab.
  specialize (Htab l (level_listed l Hl)).
  apply andb_true_iff in Htab as [Hb _]. now apply andb_true_iff in Hb.
Qed.

Lemma interval_antitone (a b : Z) :
  1 <= a -> a <= b -> b <= 20 ->
  PrimFloat.leb (interval_for_level b) (interval_for_level a) = true.
Proof.
  intros Ha Hab Hb. pose proof interval_table as Htab. rewrite forallb_forall in Htab.
  specialize (Htab a (level_listed a ltac:(lia))).
  apply andb_true_iff in Htab as [_ Hall]. rewrite forallb_forall in Hall.
  specialize (Hall b (level_listed b ltac:(lia))).
  destruct (Z.leb_spec a b); [exact Hall | lia].
Qed.

Lemma free_cells (b : Board.t) (p : Tetromino.t) (r c : nat) :
  board_wf b -> ~ collides b p 0 0 -> piece_cell p r c ->
  0 <= Tetromino.y p + Z.of_nat r ->
  grid_at b (Tetromino.y p + Z.of_nat r) (Tetromino.x p + Z.of_nat c) = Some EMPTY.
Proof.
  intros Hwf Hno Hcell Hy.
  destruct (not_collides_fits b p 0 0 Hno r c Hcell) as [Hx Hh]. simpl in Hx, Hh.
  destruct (grid_at_wf b (Tetromino.y p + Z.of_nat r) (Tetromino.x p + Z.of_nat c) Hwf)
    as (row & c0 & _ & _ & _ & Hat); [split; simpl; lia |].
  rewrite Hat. f_equal.
  destruct (ascii_dec c0 EMPTY) as [-> | Hne]; [reflexivity |].
  exfalso. apply Hno. exists r, c. split; [exact Hcell |].
  right; right; right. rewrite !Z.add_0_r. split; [exact Hy |]. now exists c0.
Qed.

(** X12. In every game reachable from [TetrisGame()] there is a current
    piece and a next piece.  The current piece has a rotation inside its
    frame list and lies between the walls and above the floor; as long as
    the game is not over it validates where it stands, and each of its
    blocks at a row [>= 0] is over an empty cell of the grid: a piece never
    overlaps the blocks already placed.  The next piece is unrotated.  The
    board has 20 rows of 10 cells. *)
Theorem pieces_never_overlap (w : TetrisGame.World) :
  reachable w ->
  let g := TetrisGame.game w in
  exists p q,
    TetrisGame.current_piece g = Some p /\ TetrisGame.next_piece g = Some q /\
    rotation_in_range p /\ fits (TetrisGame.board g) p /\
    (TetrisGame.game_over g = false ->
     Board.is_valid_position (TetrisGame.board g) p 0 0 = Ok true /\
     forall r c, piece_cell p r c -> 0 <= Tetromino.y p + Z.of_nat r ->
       grid_at (TetrisGame.board g) (Tetromino.y p + Z.of_nat r) (Tetromino.x p + Z.of_nat c) =
       Some EMPTY) /\
    Tetromino.rotation q = 0 /\
    board_wf (TetrisGame.board g) /\
    Board.width (TetrisGame.board g) = 10 /\ Board.height (TetrisGame.board g) = 20.
Proof.
  intros Hreach g. subst g.
  destruct (reachable_steady w Hreach)
    as [(Hwf & Hw & Hh & Hcur & Hnext & _) ((p & Hp & Hr & Hfree) & [q Hq] & _)].
  exists p, q. split; [exact Hp |]. split; [exact Hq |]. split; [exact Hr |].
  split; [now apply Hcur |]. split; [| split; [now apply Hnext | auto]].
  intros Hover. specialize (Hfree Hover). split.
  - rewrite (is_valid_position_collidesb _ p 0 0 Hwf).
    rewrite <- collidesb_spec in Hfree. now destruct (collidesb _ p 0 0).
  - intros r c Hcell Hy. now apply free_cells.
Qed.

Lemma pieces_never_overlap_witness :
  exists p q,
    TetrisGame.current_piece (TetrisGame.game start_world) = Some p /\
    TetrisGame.next_piece (TetrisGame.game start_world) = Some q /\
    rotation_in_range p /\ fits (TetrisGame.board (TetrisGame.game start_world)) p /\
    (TetrisGame.game_over (TetrisGame.game start_world) = false ->
     Board.is_valid_position (TetrisGame.board (TetrisGame.game start_world)) p 0 0 = Ok true /\
     forall r c, piece_cell p r c -> 0 <= Tetromino.y p + Z.of_nat r ->
       grid_at (TetrisGame.board (TetrisGame.game start_world))
               (Tetromino.y p + Z.of_nat r) (Tetromino.x p + Z.of_nat c) =
       Some EMPTY) /\
    Tetromino.rotation q = 0 /\
    board_wf (TetrisGame.board (TetrisGame.game start_world)) /\
    Board.width (TetrisGame.board (TetrisGame.game start_world)) = 10 /\
    Board.height (TetrisGame.board (TetrisGame.game start_world)) = 20.
Proof.
  apply (pieces_never_overlap start_world).
  apply (reachable_init (fun _ => Shape.O) (fun _ => 0%float)). vm_compute. reflexivity.
Defined.

(** X13. In every reachable game the level is [min(20, lines / 10 + 1)] for
    the lines cleared so far and the drop interval is that of the level,
    between 0.05 and 1 second.  An operation that returns and is not a
    restart lowers neither the line count nor the level, and does not
    lengthen the drop interval. *)
Theorem level_follows_lines (w : TetrisGame.World) :
  reachable w ->
  let g := TetrisGame.game w in
  0 <= TetrisGame.lines_cleared g /\
  TetrisGame.level g = Z.min 20 (TetrisGame.lines_cleared g / 10 + 1) /\
  TetrisGame.drop_interval g =
    float_max 0.05
      (PrimFloat.sub 1.0 (PrimFloat.mul (to_float (TetrisGame.level g - 1)) 0.05)) /\
  PrimFloat.leb 0.05 (TetrisGame.drop_interval g) = true /\
  PrimFloat.leb (TetrisGame.drop_interval g) 1.0 = true /\
  (forall o w', run_op o w = (w', Ok tt) -> restarts o = false ->
     TetrisGame.lines_cleared g <= TetrisGame.lines_cleared (TetrisGame.game w') /\
     TetrisGame.level g <= TetrisGame.level (TetrisGame.game w') /\
     PrimFloat.leb (TetrisGame.drop_interval (TetrisGame.game w'))
                   (TetrisGame.drop_interval g) = true).
Proof.
  intros Hreach g. subst g.
  destruct (reachable_steady w Hreach)
    as [(_ & _ & _ & _ & _ & _ & Hlevel & Hlines) (_ & _ & Hlv & Hdi)].
  split; [exact Hlines |]. split; [exact Hlv |]. split; [exact Hdi |].
  destruct (interval_bounds _ Hlevel) as [Hlo Hhi]. rewrite <- Hdi in Hlo, Hhi.
  split; [exact Hlo |]. split; [exact Hhi |].
  intros o w' Hrun Hnot.
  destruct (reachable_steady w' (reachable_step o w w' Hreach Hrun))
    as [(_ & _ & _ & _ & _ & _ & Hlevel' & _) (_ & _ & Hlv' & Hdi')].
  pose proof (run_op_flags o w) as (_ & _ & _ & Hmono).
  rewrite Hrun, Hnot in Hmono. simpl in Hmono.
  split; [exact Hmono |].
  assert (Hle : TetrisGame.level (TetrisGame.game w) <= TetrisGame.level (TetrisGame.game w'))
    by (rewrite Hlv, Hlv'; now apply level_for_lines_mono).
  split; [exact Hle |].
  rewrite Hdi, Hdi'. apply interval_antitone; lia.
Qed.

Lemma level_follows_lines_witness :
  TetrisGame.level (TetrisGame.game start_world) =
    Z.min 20 (TetrisGame.lines_cleared (TetrisGame.game start_world) / 10 + 1) /\
  PrimFloat.leb 0.05 (TetrisGame.drop_interval (TetrisGame.game start_world)) = true.
Proof.
  pose proof (level_follows_lines start_world) as H. simpl in H.
  destruct H as (_ & Hlv & _ & Hlo & _).
  - apply (reachable_init (fun _ => Shape.O) (fun _ => 0%float)). vm_compute. reflexivity.
  - split; [exact Hlv | exact Hlo].
Defined.

(** X14. [TetrisGame()] always returns.  The new game has an empty board of
    20 rows of 10 cells, score 0, level 1, no lines, the green theme, a drop
    interval of 1 second, and is neither paused nor over; the clock was read
    once, for the drop timer.  Three kinds were drawn: the first is
    discarded by the second spawn, the second is the current piece at column
    4, row 0, unrotated, the third is the next piece. *)
Theorem new_game_spec (choices : nat -> Shape.t) (clock : nat -> float) :
  TetrisGame.init choices clock =
  (TetrisGame.mkWorld
     {| TetrisGame.board := Board.init 10 20;
        TetrisGame.current_piece := Some (Tetromino.mk (choices 1%nat) 0 4 0);
        TetrisGame.next_piece := Some (Tetromino.mk (choices 2%nat) 0 4 0);
        TetrisGame.score := 0;
        TetrisGame.level := 1;
        TetrisGame.lines_cleared := 0;
        TetrisGame.paused := false;
        TetrisGame.game_over := false;
        TetrisGame.theme := GREEN;
        TetrisGame.last_drop_time := clock O;
        TetrisGame.drop_interval := 1.0 |}
     (fun n => choices (3 + n)%nat)
     (fun n => clock (1 + n)%nat),
   Ok tt).
Proof. exact (init_started choices clock). Qed.

(** X15. [restart] returns in every world, whatever the state of the game
    (over, paused, or with attributes that no run of the program produces).
    It leaves the game that [TetrisGame()] would make with the same draws
    and clock, except that the theme is kept: empty board, score 0, level 1,
    no lines, not paused, not over, the second draw in play and the third in
    preview. *)
Theorem restart_spec (w : TetrisGame.World) :
  TetrisGame.restart w =
    (started (TetrisGame.theme (TetrisGame.game w)) (TetrisGame.choices w) (TetrisGame.clock w),
     Ok tt) /\
  (TetrisGame.theme (TetrisGame.game w) = GREEN ->
   TetrisGame.restart w = TetrisGame.init (TetrisGame.choices w) (TetrisGame.clock w)) /\
  TetrisGame.game (fst (TetrisGame.restart w)) =
    TetrisGame.set_theme (TetrisGame.theme (TetrisGame.game w))
      (TetrisGame.game (fst (TetrisGame.init (TetrisGame.choices w) (TetrisGame.clock w)))).
Proof.
  rewrite restart_started, init_started. split; [reflexivity |].
  split; [now intros -> | reflexivity].
Qed.

(** ** [update]: gravity *)

(** X16. [update] in a game whose board has [H] rows of [W] cells.  Paused
    or over, it does nothing: not even the clock is read.  Otherwise it
    reads the clock once.  If less than the drop interval has passed since
    the last drop, nothing else changes.  If the interval has passed and the
    current piece can go down one row, it does (no point is scored), and the
    time just read becomes the time of the last drop; if the piece cannot go
    down, [update] is [lock_piece] followed by that assignment. *)
Theorem update_spec (w : TetrisGame.World) :
  board_wf (TetrisGame.board (TetrisGame.game w)) ->
  let g := TetrisGame.game w in
  let now := TetrisGame.clock w O in
  let ticked :=
    TetrisGame.mkWorld g (TetrisGame.choices w) (fun n => TetrisGame.clock w (Datatypes.S n)) in
  let due :=
    PrimFloat.leb (TetrisGame.drop_interval g)
                  (PrimFloat.sub now (TetrisGame.last_drop_time g)) in
  (TetrisGame.paused g = true \/ TetrisGame.game_over g = true ->
   TetrisGame.update w = (w, Ok tt)) /\
  (TetrisGame.paused g = false -> TetrisGame.game_over g = false ->
   (due = false -> TetrisGame.update w = (ticked, Ok tt)) /\
   (due = true ->
    forall p, TetrisGame.current_piece g = Some p ->
      (~ collides (TetrisGame.board g) p 0 1 ->
       TetrisGame.update w =
         (with_game (fun g =>
            TetrisGame.set_last_drop_time now
              (TetrisGame.set_current_piece
                 (Some (Tetromino.mk (Tetromino.type p) (Tetromino.rotation p)
                                     (Tetromino.x p) (Tetromino.y p + 1))) g)) ticked,
          Ok tt)) /\
      (collides (TetrisGame.board g) p 0 1 ->
       TetrisGame.update w =
         (TetrisGame.lock_piece ;; TetrisGame.setattr (TetrisGame.set_last_drop_time now))
           ticked))).
Proof.
  intros Hwf g now ticked due. split.
  - intros Hfrozen. unfold TetrisGame.update. py_unfold.
    replace (TetrisGame.paused (TetrisGame.game w) || TetrisGame.game_over (TetrisGame.game w))
      with true; [reflexivity |].
    symmetry. apply orb_true_iff. exact Hfrozen.
  - intros Hpaused Hover.
    assert (Hrun : TetrisGame.update w =
              if due then
                (moved ← TetrisGame.move_piece 0 1;
                 (if negb moved then TetrisGame.lock_piece else ret tt) ;;
                 TetrisGame.setattr (TetrisGame.set_last_drop_time now)) ticked
              else (ticked, Ok tt)).
    { unfold TetrisGame.update, TetrisGame.time_time. py_unfold.
      fold g. rewrite Hpaused, Hover. simpl. fold now due. now destruct due. }
    rewrite Hrun. split; [now intros -> |].
    intros -> p Hp. py_unfold. rewrite move_piece_eq.
    change (TetrisGame.game ticked) with g. rewrite Hp.
    fold g in Hwf. rewrite (is_valid_position_collidesb _ p 0 1 Hwf).
    pose proof (collidesb_spec (TetrisGame.board g) p 0 1) as Hspec.
    destruct (collidesb _ p 0 1); simpl.
    + split; [intros Hno; destruct Hno; now apply Hspec | reflexivity].
    + split; [| intros Hcol; apply Hspec in Hcol; discriminate].
      intros _. unfold TetrisGame.setattr, modify, with_game, shifted. simpl.
      now rewrite Z.add_0_r.
Qed.

Lemma update_spec_witness :
  TetrisGame.update due_world =
  (with_game (fun g =>
     TetrisGame.set_last_drop_time (TetrisGame.clock due_world O)
       (TetrisGame.set_current_piece (Some (Tetromino.mk Shape.O 0 4 (0 + 1))) g))
     (TetrisGame.mkWorld (TetrisGame.game due_world) (TetrisGame.choices due_world)
        (fun n => TetrisGame.clock due_world (Datatypes.S n))),
   Ok tt).
Proof.
  assert (Hwf : board_wf (TetrisGame.board (TetrisGame.game due_world)))
    by (split; [reflexivity | repeat constructor]).
  assert (Hdue : PrimFloat.leb (TetrisGame.drop_interval (TetrisGame.game due_world))
                   (PrimFloat.sub (TetrisGame.clock due_world O)
                      (TetrisGame.last_drop_time (TetrisGame.game due_world))) = true)
    by (vm_compute; reflexivity).
  assert (Hfree : ~ collides (TetrisGame.board (TetrisGame.game due_world))
                      (Tetromino.mk Shape.O 0 4 0) 0 1)
    by (rewrite <- collidesb_spec; vm_compute; discriminate).
  exact (proj1 (proj2 (proj2 (update_spec due_world Hwf) eq_refl eq_refl) Hdue
                  (Tetromino.mk Shape.O 0 4 0) eq_refl) Hfree).
Defined.

(** ** [handle_input] *)

Lemma then_true (m : TetrisGame.M unit) (w w' : TetrisGame.World) (continue : bool) :
  (m ;; ret true) w = (w', Ok continue) -> continue = true.
Proof.
  intros H. apply bind_inv in H as (w1 & a & _ & H). unfold ret in H. now injection H.
Qed.

(** X17. What [handle_input] answers and when it acts.  Whenever it returns,
    the answer is [False] for the q key (either case) and [True] for
    anything else; on q nothing changes.  When [getch] raised, nothing
    changes.  A key other than q, p, r, t changes nothing at all when the
    game is paused or over, or when it is none of left, right, down, up and
    space. *)
Theorem handle_input_spec (getch : option Z) (w : TetrisGame.World) :
  (forall w' continue,
     TetrisUI.handle_input getch w = (w', Ok continue) -> continue = negb (quits getch)) /\
  (quits getch = true -> TetrisUI.handle_input getch w = (w, Ok false)) /\
  (getch = None -> TetrisUI.handle_input getch w = (w, Ok true)) /\
  (forall key, getch = Some key ->
     quits getch = false -> toggles_pause (OpKey getch) = false ->
     restarts (OpKey getch) = false -> toggles_theme (OpKey getch) = false ->
     TetrisGame.paused (TetrisGame.game w) || TetrisGame.game_over (TetrisGame.game w) = true \/
     plays key = false ->
     TetrisUI.handle_input getch w = (w, Ok true)).
Proof.
  destruct getch as [key |]; simpl quits.
  2: { split; [now intros w' c [= <- <-] |]. split; [discriminate |]. split; [reflexivity |].
       intros key; discriminate. }
  unfold TetrisUI.handle_input, toggles_pause, restarts, toggles_theme.
  destruct ((key =? ord "q") || (key =? ord "Q")) eqn:Eq.
  { split; [now intros w' c [= <- <-] |]. split; [reflexivity |]. split; [discriminate |].
    intros key' _; discriminate. }
  split; [| split; [discriminate | split; [discriminate |]]].
  - intros w' c. simpl negb.
    destruct ((key =? ord "p") || (key =? ord "P")); [apply then_true |].
    destruct ((key =? ord "r") || (key =? ord "R")); [apply then_true |].
    destruct ((key =? ord "t") || (key =? ord "T")); [apply then_true |].
    intros H. apply bind_inv in H as (w1 & self & _ & H). now apply then_true in H.
  - intros key' [= <-] _ -> -> -> Hidle. py_unfold.
    destruct Hidle as [Hfrozen | Hplay].
    + replace (negb (TetrisGame.paused (TetrisGame.game w)) &&
               negb (TetrisGame.game_over (TetrisGame.game w))) with false; [reflexivity |].
      destruct (TetrisGame.paused _), (TetrisGame.game_over _); simpl in *; congruence.
    + unfold plays in Hplay. repeat (apply orb_false_iff in Hplay as [Hplay ?]).
      repeat match goal with H : (_ =? _) = false |- _ => rewrite H; clear H end.
      now destruct (negb _ && negb _).
Qed.

(** ** The shape catalogue *)

Lemma frames_checked (k : Shape.t) :
  forallb (fun frame =>
    forallb (fun ch => Ascii.eqb ch (letter k)) (blocks frame) &&
    (length (blocks frame) =? 4)%nat &&
    (length frame =? side k)%nat &&
    forallb (fun row => (length (list_ascii_of_string row) =? side k)%nat) frame)
    (Tetromino.SHAPES k) = true.
Proof. destruct k; vm_compute; reflexivity. Qed.

Lemma forallb_eqb_replicate (l : list cell) (c : cell) :
  forallb (fun ch => Ascii.eqb ch c) l = true -> l = replicate (length l) c.
Proof.
  induction l as [| a l IH]; [reflexivity |]. simpl. intros H.
  apply andb_true_iff in H as [Ha Hl]. apply Ascii.eqb_eq in Ha. subst a.
  now rewrite <- IH.
Qed.

(** X18. Every frame of the catalogue is a tetromino.  For every kind and
    every integer rotation (negative ones too), [get_current_shape] returns
    a frame with exactly four blocks, each the letter of the kind; the frame
    is a square of side 4 for I, 2 for O and 3 for the other kinds, so every
    block has its row and column offset below 4. *)
Theorem four_blocks (p : Tetromino.t) :
  exists frame,
    (forall (S : Type) (s : S), Tetromino.get_current_shape p s = (s, Ok frame)) /\
    blocks frame = replicate 4 (letter (Tetromino.type p)) /\
    length frame = side (Tetromino.type p) /\
    Forall (fun row => length (list_ascii_of_string row) = side (Tetromino.type p)) frame /\
    (forall r c, piece_cell p r c ->
       (r < side (Tetromino.type p))%nat /\ (c < side (Tetromino.type p))%nat /\
       (side (Tetromino.type p) <= 4)%nat /\
       exists row, frame !! r = Some row /\
                   list_ascii_of_string row !! c = Some (letter (Tetromino.type p))).
Proof.
  exists (current_frame p).
  split; [intros S s; apply get_current_shape_ok |].
  pose proof (frames_checked (Tetromino.type p)) as Hall. rewrite forallb_forall in Hall.
  destruct (get_current_shape_ok (S := unit) p tt) as [_ Hframe].
  assert (Hin : In (current_frame p) (Tetromino.SHAPES (Tetromino.type p)))
    by (apply list_elem_of_In; eapply list_elem_of_lookup_2; exact Hframe).
  specialize (Hall (current_frame p) Hin).
  destruct (andb_prop _ _ Hall) as [H123 Hrows].
  destruct (andb_prop _ _ H123) as [H12 Hside].
  destruct (andb_prop _ _ H12) as [Hletters Hfour].
  apply Nat.eqb_eq in Hfour, Hside.
  assert (Hrows' : Forall (fun row => length (list_ascii_of_string row) =
                                      side (Tetromino.type p)) (current_frame p)).
  { apply Forall_forall. intros row Hrow. rewrite forallb_forall in Hrows.
    apply Nat.eqb_eq, Hrows. now apply list_elem_of_In. }
  split; [rewrite (forallb_eqb_replicate _ _ Hletters), Hfour; reflexivity |].
  split; [exact Hside |]. split; [exact Hrows' |].
  intros r c (row & ch & Hrow & Hch & Hne).
  pose proof (lookup_lt_Some _ _ _ Hrow) as Hr. rewrite Hside in Hr.
  pose proof (lookup_lt_Some _ _ _ Hch) as Hc.
  rewrite Forall_lookup in Hrows'. pose proof (Hrows' _ _ Hrow) as Hlen.
  unfold cell in Hc. rewrite Hlen in Hc.
  split; [exact Hr |]. split; [exact Hc |].
  split; [destruct (Tetromino.type p); simpl; lia |].
  exists row. split; [exact Hrow |]. rewrite Hch. f_equal.
  rewrite forallb_forall in Hletters. apply Ascii.eqb_eq, Hletters.
  unfold blocks. apply filter_In. split.
  - apply in_concat. exists (list_ascii_of_string row). split.
    + apply in_map. apply list_elem_of_In. eapply list_elem_of_lookup_2. exact Hrow.
    + apply list_elem_of_In. eapply list_elem_of_lookup_2. exact Hch.
  - now apply not_empty_spec.
Qed.

(** ** [spawn_new_piece]: the preview and the draws *)

(** X19. [spawn_new_piece] in any world, whether the validity test returns
    or raises.  The piece shown as next becomes the current piece, with its
    kind and rotation, at column 4, row 0; without a next piece one kind is
    drawn for it first.  One more kind is drawn for the new next piece, a
    fresh unrotated piece.  The clock is not read; board, score, level, line
    count, pause flag, theme and drop timer are kept.  The game-over flag is
    never cleared: it is set afterwards exactly when it was set before or
    the new piece failed the validity test. *)
Theorem spawn_new_piece_frame (w : TetrisGame.World) :
  let w' := fst (TetrisGame.spawn_new_piece w) in
  let g := TetrisGame.game w in
  let g' := TetrisGame.game w' in
  TetrisGame.current_piece g' = Some (incoming w) /\
  (forall q, TetrisGame.next_piece g = Some q ->
     incoming w = Tetromino.mk (Tetromino.type q) (Tetromino.rotation q) 4 0) /\
  (TetrisGame.next_piece g = None -> incoming w = Tetromino.mk (TetrisGame.choices w O) 0 4 0) /\
  TetrisGame.next_piece g' =
    Some (Tetromino.mk (TetrisGame.choices w (draws w - 1)%nat) 0 4 0) /\
  (forall n, TetrisGame.choices w' n = TetrisGame.choices w (draws w + n)%nat) /\
  TetrisGame.clock w' = TetrisGame.clock w /\
  TetrisGame.board g' = TetrisGame.board g /\
  TetrisGame.score g' = TetrisGame.score g /\
  TetrisGame.level g' = TetrisGame.level g /\
  TetrisGame.lines_cleared g' = TetrisGame.lines_cleared g /\
  TetrisGame.paused g' = TetrisGame.paused g /\
  TetrisGame.theme g' = TetrisGame.theme g /\
  TetrisGame.last_drop_time g' = TetrisGame.last_drop_time g /\
  TetrisGame.drop_interval g' = TetrisGame.drop_interval g /\
  (TetrisGame.game_over g' = true <->
   TetrisGame.game_over g = true \/
   Board.is_valid_position (TetrisGame.board g) (incoming w) 0 0 = Ok false).
Proof.
  simpl. rewrite spawn_new_piece_eq. unfold draws, spawned, incoming.
  destruct w as [[b cur [q |] sc lv ln pa go th lt di] ch ck]; simpl;
    destruct (Board.is_valid_position _ _ 0 0) as [[|] | e |]; simpl;
    repeat lazymatch goal with
           | |- _ /\ _ => split
           | |- _ <-> _ => split
           end;
    try reflexivity; try discriminate; try (intros ? [= <-]; reflexivity);
    try (intros [? | ?]; congruence); try (intros ->; now left); try (intros _; now right);
    auto.
Qed.

(** ** Colour pairs *)

(** X20. Every colour pair that [get_color_pair] names has been set up by
    [setup_colors], in the colour of the theme of the game: for a border,
    white on the theme colour; for a filled block, the theme colour on
    itself; for text, the theme colour on the default background.  A border
    takes precedence over a filled block.  Different uses and different
    themes get different pairs.  [setup_colors] calls [start_color] and
    [use_default_colors] before it initialises the six pairs, each once. *)
Theorem colour_pairs_set_up (g : TetrisGame.t) (is_filled is_border : bool) :
  (exists fg bg,
     pair_content TetrisUI.setup_colors (TetrisUI.get_color_pair g is_filled is_border) =
       Some (fg, bg) /\
     (is_border = true ->
      fg = curses.COLOR_WHITE /\ bg = theme_colour (TetrisGame.theme g)) /\
     (is_border = false ->
      fg = theme_colour (TetrisGame.theme g) /\
      bg = if is_filled then theme_colour (TetrisGame.theme g) else -1)) /\
  (forall g' is_filled' is_border',
     TetrisUI.get_color_pair g' is_filled' is_border' =
     TetrisUI.get_color_pair g is_filled is_border ->
     TetrisGame.theme g' = TetrisGame.theme g /\ is_border' = is_border /\
     (is_border = false -> is_filled' = is_filled)) /\
  (exists rest,
     TetrisUI.setup_colors = curses.start_color :: curses.use_default_colors :: rest /\
     pairs_set rest = pairs_set TetrisUI.setup_colors /\
     NoDup (pairs_set rest) /\
     forall n, In n (pairs_set rest) <-> 1 <= n <= 6).
Proof.
  split; [| split].
  - unfold TetrisUI.get_color_pair.
    destruct (TetrisGame.theme g), is_border, is_filled; simpl;
      eexists _, _; (split; [reflexivity |]); split; intros H; try discriminate H; now split.
  - intros g' f' b'. unfold TetrisUI.get_color_pair.
    destruct (TetrisGame.theme g), (TetrisGame.theme g'), is_border, is_filled, b', f';
      simpl; intros H; try discriminate H; repeat split; intros H'; try discriminate H';
      reflexivity.
  - eexists. split; [reflexivity |]. split; [reflexivity |]. split.
    + simpl.
      repeat (constructor; [intros Hin; apply list_elem_of_In in Hin; simpl in Hin; lia |]).
      constructor.
    + intros n. simpl. split; [intros H; repeat destruct H as [<- | H]; try lia; contradiction |].
      intros Hn. lia.
Qed.

(** ** [draw_board] *)

Lemma for_each_log {A B} (body : A -> Py (list B) unit) (f : A -> list B) (l : list A) :
  (forall a, In a l -> forall log, body a log = (log ++ f a, Ok tt)) ->
  forall log, for_each body l log = (log ++ flat_map f l, Ok tt).
Proof.
  induction l as [| a l IH]; intros Hbody log; simpl.
  - now rewrite app_nil_r.
  - py_unfold. rewrite (Hbody a (or_introl eq_refl)).
    rewrite IH by (intros x Hx; apply Hbody; now right).
    now rewrite <- app_assoc.
Qed.

Lemma for_enumerate_log {A B} (body : Z -> A -> Py (list B) (flow unit))
      (f : Z -> A -> list B) (l : list A) :
  forall idx,
    (forall i a, l !! i = Some a ->
       forall log, body (idx + Z.of_nat i) a log = (log ++ f (idx + Z.of_nat i) a, Ok Next)) ->
    forall log, for_enumerate body idx l log = (log ++ flat_enum f idx l, Ok Next).
Proof.
  induction l as [| a l IH]; intros idx Hbody log; simpl.
  - now rewrite app_nil_r.
  - py_unfold. pose proof (Hbody O a eq_refl log) as H0. rewrite Z.add_0_r in H0.
    rewrite H0. rewrite IH.
    + now rewrite <- app_assoc.
    + intros i x Hx log'.
      replace (idx + 1 + Z.of_nat i) with (idx + Z.of_nat (Datatypes.S i)) by lia.
      now apply Hbody.
Qed.

Lemma In_flat_enum {A B} (f : Z -> A -> list B) (l : list A) (b : B) :
  forall idx,
    In b (flat_enum f idx l) <-> exists i a, l !! i = Some a /\ In b (f (idx + Z.of_nat i) a).
Proof.
  induction l as [| x l IH]; intros idx; simpl.
  - split; [intros [] | intros (i & a & Hi & _); now rewrite lookup_nil in Hi].
  - rewrite in_app_iff, IH. split.
    + intros [Hb | (i & a & Hi & Hb)].
      * exists O, x. now rewrite Z.add_0_r.
      * exists (Datatypes.S i), a. split; [exact Hi |].
        now replace (idx + Z.of_nat (Datatypes.S i)) with (idx + 1 + Z.of_nat i) by lia.
    + intros ([| i] & a & Hi & Hb); simpl in Hi.
      * injection Hi as <-. left. now rewrite Z.add_0_r in Hb.
      * right. exists i, a. split; [exact Hi |].
        now replace (idx + 1 + Z.of_nat i) with (idx + Z.of_nat (Datatypes.S i)) by lia.
Qed.

Lemma In_range (n a : Z) : In a (range n) <-> 0 <= a < n.
Proof.
  unfold range. rewrite in_map_iff. split.
  - intros (k & <- & Hk). apply in_seq in Hk. lia.
  - intros Ha. exists (Z.to_nat a). split; [lia |]. apply in_seq. lia.
Qed.

Lemma length_range (n : Z) : length (range n) = Z.to_nat n.
Proof. unfold range. now rewrite length_map, length_seq. Qed.

Lemma length_flat_map_const {A B} (f : A -> list B) (l : list A) (n : nat) :
  (forall a, In a l -> length (f a) = n) -> length (flat_map f l) = (length l * n)%nat.
Proof.
  induction l as [| a l IH]; intros Hf; simpl; [reflexivity |].
  rewrite length_app, (Hf a (or_introl eq_refl)), IH; [reflexivity |].
  intros x Hx. apply Hf. now right.
Qed.

Lemma draw_border_run (g : TetrisGame.t) (log : list curses.screen_call) :
  for_each (fun y =>
    for_each (fun x =>
      if (y =? 0) || (y =? Board.height (TetrisGame.board g) + 1) ||
         (x =? 0) || (x =? Board.width (TetrisGame.board g) + 1)
      then TetrisUI.addstr (2 + y) (2 + x * 2) "[]" (TetrisUI.get_color_pair g false true)
      else ret tt)
      (range (Board.width (TetrisGame.board g) + 2)))
    (range (Board.height (TetrisGame.board g) + 2)) log =
  (log ++ border_calls g, Ok tt).
Proof.
  unfold border_calls. apply for_each_log. intros y _ log1.
  apply for_each_log. intros x _ log2.
  destruct (_ || _); [reflexivity |]. unfold ret. now rewrite app_nil_r.
Qed.

Lemma draw_content_run (g : TetrisGame.t) (log : list curses.screen_call) :
  board_wf (TetrisGame.board g) ->
  for_each (fun y =>
    for_each (fun x =>
      row ← getitem (Board.grid (TetrisGame.board g)) y;
      cell ← getitem row x;
      if negb (is_empty cell)
      then TetrisUI.addstr (2 + y + 1) (2 + (x + 1) * 2) "[]"
             (TetrisUI.get_color_pair g true false)
      else TetrisUI.addstr (2 + y + 1) (2 + (x + 1) * 2) "  "
             (TetrisUI.get_color_pair g false false))
      (range (Board.width (TetrisGame.board g))))
    (range (Board.height (TetrisGame.board g))) log =
  (log ++ content_calls g, Ok tt).
Proof.
  intros Hwf. unfold content_calls. apply for_each_log. intros y Hy log1.
  apply for_each_log. intros x Hx log2.
  apply In_range in Hy, Hx.
  destruct (grid_at_wf (TetrisGame.board g) y x Hwf) as (row & c & Hrow & Hc & Hlen & Hat);
    [split; simpl; lia |].
  rewrite Hat.
  destruct (getitem_ok (Board.grid (TetrisGame.board g)) y log2) as (row' & Hrow' & Hget).
  { destruct Hwf as [Hrows _]. lia. }
  rewrite Hrow in Hrow'. injection Hrow' as <-.
  destruct (getitem_ok row x log2) as (c' & Hc' & Hget'); [lia |].
  rewrite Hc in Hc'. injection Hc' as <-.
  py_unfold. rewrite Hget, Hget'. unfold cell_call, TetrisUI.addstr, modify.
  now destruct (negb (is_empty c)).
Qed.

Lemma draw_piece_run (LINES COLS : Z) (g : TetrisGame.t) (p : Tetromino.t)
      (log : list curses.screen_call) :
  for_enumerate (R := unit) (fun row_idx row =>
    for_enumerate (R := unit) (fun col_idx cell =>
      if negb (is_empty cell) then
        if (0 <=? 2 + Tetromino.y p + row_idx + 1) && (2 + Tetromino.y p + row_idx + 1 <? LINES) &&
           (0 <=? 2 + (Tetromino.x p + col_idx + 1) * 2) &&
           (2 + (Tetromino.x p + col_idx + 1) * 2 <? COLS - 1)
        then TetrisUI.addstr (2 + Tetromino.y p + row_idx + 1)
               (2 + (Tetromino.x p + col_idx + 1) * 2) "[]"
               (TetrisUI.get_color_pair g true false) ;;
             ret Next
        else ret Next
      else ret Next)
      0 (list_ascii_of_string row))
    0 (current_frame p) log =
  (log ++ flat_enum (fun row_idx row =>
            flat_enum (block_calls LINES COLS g p row_idx) 0 (list_ascii_of_string row))
            0 (current_frame p),
   Ok Next).
Proof.
  apply for_enumerate_log. intros r row _ log1.
  apply for_enumerate_log. intros c ch _ log2.
  unfold block_calls. cbv zeta.
  destruct (negb (is_empty ch)); simpl; [| unfold ret; now rewrite app_nil_r].
  destruct (_ && _); [reflexivity | unfold ret; now rewrite app_nil_r].
Qed.

Lemma draw_board_run (LINES COLS : Z) (g : TetrisGame.t) (log : list curses.screen_call) :
  board_wf (TetrisGame.board g) ->
  TetrisUI.draw_board LINES COLS g log =
  (log ++ border_calls g ++ content_calls g ++ piece_calls LINES COLS g, Ok tt).
Proof.
  intros Hwf. unfold TetrisUI.draw_board. cbv zeta.
  unfold mbind at 1. unfold Py_bind, bind at 1. rewrite draw_border_run.
  unfold mbind at 1. unfold Py_bind, bind at 1. rewrite (draw_content_run g _ Hwf).
  unfold piece_calls. destruct (TetrisGame.current_piece g) as [p |].
  - unfold mbind at 1. unfold Py_bind, bind at 1.
    rewrite (proj1 (get_current_shape_ok p _)).
    unfold mbind at 1. unfold Py_bind, bind at 1.
    rewrite draw_piece_run. unfold ret. now rewrite <- !app_assoc.
  - unfold ret. now rewrite app_nil_r, <- app_assoc.
Qed.

Lemma In_border_calls (g : TetrisGame.t) (call : curses.screen_call) :
  In call (border_calls g) <->
  exists y x,
    -1 <= y <= Board.height (TetrisGame.board g) /\
    -1 <= x <= Board.width (TetrisGame.board g) /\
    (y = -1 \/ y = Board.height (TetrisGame.board g) \/
     x = -1 \/ x = Board.width (TetrisGame.board g)) /\
    call = curses.addstr (3 + y) (4 + 2 * x) "[]" (TetrisUI.get_color_pair g false true).
Proof.
  unfold border_calls. rewrite in_flat_map. split.
  - intros (y & Hy & Hin). apply in_flat_map in Hin as (x & Hx & Hin).
    apply In_range in Hy, Hx.
    destruct (_ || _) eqn:Hedge; [| contradiction]. destruct Hin as [<- | []].
    rewrite !orb_true_iff, !Z.eqb_eq in Hedge.
    exists (y - 1), (x - 1). split; [lia |]. split; [lia |]. split; [lia |].
    f_equal; lia.
  - intros (y & x & Hy & Hx & Hedge & ->).
    exists (y + 1). split; [apply In_range; lia |].
    apply in_flat_map. exists (x + 1). split; [apply In_range; lia |].
    replace ((y + 1 =? 0) || (y + 1 =? Board.height (TetrisGame.board g) + 1) ||
             (x + 1 =? 0) || (x + 1 =? Board.width (TetrisGame.board g) + 1)) with true.
    + left. f_equal; lia.
    + symmetry. rewrite !orb_true_iff, !Z.eqb_eq. lia.
Qed.

Lemma In_content_calls (g : TetrisGame.t) (call : curses.screen_call) :
  In call (content_calls g) <->
  exists y x c,
    0 <= y < Board.height (TetrisGame.board g) /\
    0 <= x < Board.width (TetrisGame.board g) /\
    grid_at (TetrisGame.board g) y x = Some c /\
    call = curses.addstr (3 + y) (4 + 2 * x) (if is_empty c then "  " else "[]")
             (TetrisUI.get_color_pair g (negb (is_empty c)) false).
Proof.
  assert (Hcall : forall y x c,
            cell_call g y x c =
            curses.addstr (3 + y) (4 + 2 * x) (if is_empty c then "  " else "[]")
              (TetrisUI.get_color_pair g (negb (is_empty c)) false)).
  { intros y x c. unfold cell_call. destruct (is_empty c); simpl; f_equal; lia. }
  unfold content_calls. rewrite in_flat_map. split.
  - intros (y & Hy & Hin). apply in_flat_map in Hin as (x & Hx & Hin).
    apply In_range in Hy, Hx.
    destruct (grid_at _ y x) as [c |] eqn:Hat; [| contradiction]. destruct Hin as [<- | []].
    exists y, x, c. auto.
  - intros (y & x & c & Hy & Hx & Hat & ->).
    exists y. split; [now apply In_range |].
    apply in_flat_map. exists x. split; [now apply In_range |].
    rewrite Hat. left. apply Hcall.
Qed.

Lemma length_content_calls (g : TetrisGame.t) :
  board_wf (TetrisGame.board g) ->
  length (content_calls g) =
  (Z.to_nat (Board.height (TetrisGame.board g)) * Z.to_nat (Board.width (TetrisGame.board g)))%nat.
Proof.
  intros Hwf. unfold content_calls.
  rewrite (length_flat_map_const _ _ (Z.to_nat (Board.width (TetrisGame.board g)))).
  - now rewrite length_range.
  - intros y Hy. apply In_range in Hy.
    rewrite (length_flat_map_const _ _ 1%nat); [rewrite length_range; lia |].
    intros x Hx. apply In_range in Hx.
    destruct (grid_at_wf (TetrisGame.board g) y x Hwf) as (_ & c & _ & _ & _ & ->);
      [split; simpl; lia | reflexivity].
Qed.

Lemma In_piece_calls (LINES COLS : Z) (g : TetrisGame.t) (call : curses.screen_call) :
  In call (piece_calls LINES COLS g) <->
  exists p r c,
    TetrisGame.current_piece g = Some p /\ piece_cell p r c /\
    0 <= 3 + (Tetromino.y p + Z.of_nat r) < LINES /\
    0 <= 4 + 2 * (Tetromino.x p + Z.of_nat c) < COLS - 1 /\
    call = curses.addstr (3 + (Tetromino.y p + Z.of_nat r)) (4 + 2 * (Tetromino.x p + Z.of_nat c))
             "[]" (TetrisUI.get_color_pair g true false).
Proof.
  unfold piece_calls. destruct (TetrisGame.current_piece g) as [p |].
  2: { split; [intros [] | intros (p & r & c & Hp & _); discriminate]. }
  rewrite In_flat_enum. split.
  - intros (r & row & Hrow & Hin). apply In_flat_enum in Hin as (c & ch & Hch & Hin).
    unfold block_calls in Hin. cbv zeta in Hin. rewrite !Z.add_0_l in Hin.
    destruct (negb (is_empty ch)) eqn:Hne; [| contradiction]. simpl in Hin.
    destruct (_ && _) eqn:Hvis; [| contradiction]. destruct Hin as [<- | []].
    rewrite !andb_true_iff, !Z.leb_le, !Z.ltb_lt in Hvis.
    exists p, r, c. split; [reflexivity |].
    split; [exists row, ch; split; [exact Hrow | split; [exact Hch | now apply not_empty_spec]] |].
    split; [lia |]. split; [lia |]. f_equal; lia.
  - intros (p' & r & c & [= <-] & (row & ch & Hrow & Hch & Hne) & Hy & Hx & ->).
    exists r, row. split; [exact Hrow |].
    apply In_flat_enum. exists c, ch. split; [exact Hch |].
    unfold block_calls. cbv zeta. rewrite !Z.add_0_l.
    apply not_empty_spec in Hne. rewrite Hne. simpl.
    replace ((0 <=? 2 + Tetromino.y p + Z.of_nat r + 1) &&
             (2 + Tetromino.y p + Z.of_nat r + 1 <? LINES) &&
             (0 <=? 2 + (Tetromino.x p + Z.of_nat c + 1) * 2) &&
             (2 + (Tetromino.x p + Z.of_nat c + 1) * 2 <? COLS - 1)) with true.
    + left. f_equal; lia.
    + symmetry. rewrite !andb_true_iff, !Z.leb_le, !Z.ltb_lt. lia.
Qed.

(** X21. [draw_board] on a game whose board has [H] rows of [W] cells raises
    nothing and attempts its [addstr] calls in three groups, in this order.
    The frame: one ["[]"] in the border pair for every position around the
    board (rows -1 and [H], columns -1 and [W], in board coordinates).  The
    grid: for every cell exactly one call, at screen row [3 + y] and column
    [4 + 2 * x], ["[]"] in the pair of filled blocks when the cell is
    occupied and two spaces in the text pair when it is empty.  The current
    piece: for each of its blocks whose screen position lies inside the
    window, one ["[]"] at the screen position of the board cell that the
    block covers, so the piece is shown where the collision test places it,
    over the grid drawn before. *)
Theorem draw_board_spec (LINES COLS : Z) (g : TetrisGame.t) (log : list curses.screen_call) :
  board_wf (TetrisGame.board g) ->
  exists border content piece,
    TetrisUI.draw_board LINES COLS g log = (log ++ border ++ content ++ piece, Ok tt) /\
    (forall call, In call border <->
       exists y x,
         -1 <= y <= Board.height (TetrisGame.board g) /\
         -1 <= x <= Board.width (TetrisGame.board g) /\
         (y = -1 \/ y = Board.height (TetrisGame.board g) \/
          x = -1 \/ x = Board.width (TetrisGame.board g)) /\
         call = curses.addstr (3 + y) (4 + 2 * x) "[]" (TetrisUI.get_color_pair g false true)) /\
    (forall call, In call content <->
       exists y x c,
         0 <= y < Board.height (TetrisGame.board g) /\
         0 <= x < Board.width (TetrisGame.board g) /\
         grid_at (TetrisGame.board g) y x = Some c /\
         call = curses.addstr (3 + y) (4 + 2 * x) (if is_empty c then "  " else "[]")
                  (TetrisUI.get_color_pair g (negb (is_empty c)) false)) /\
    length content =
      (Z.to_nat (Board.height (TetrisGame.board g)) *
       Z.to_nat (Board.width (TetrisGame.board g)))%nat /\
    (forall call, In call piece <->
       exists p r c,
         TetrisGame.current_piece g = Some p /\ piece_cell p r c /\
         0 <= 3 + (Tetromino.y p + Z.of_nat r) < LINES /\
         0 <= 4 + 2 * (Tetromino.x p + Z.of_nat c) < COLS - 1 /\
         call = curses.addstr (3 + (Tetromino.y p + Z.of_nat r))
                  (4 + 2 * (Tetromino.x p + Z.of_nat c))
                  "[]" (TetrisUI.get_color_pair g true false)).
Proof.
  intros Hwf.
  exists (border_calls g), (content_calls g), (piece_calls LINES COLS g).
  split; [now apply draw_board_run |].
  split; [apply In_border_calls |]. split; [apply In_content_calls |].
  split; [now apply length_content_calls | apply In_piece_calls].
Qed.

Lemma draw_board_spec_witness :
  exists calls,
    TetrisUI.draw_board 24 80 (TetrisGame.game start_world) [] = (calls, Ok tt) /\
    In (curses.addstr 3 12 "[]" 2) calls.
Proof.
  destruct (draw_board_spec 24 80 (TetrisGame.game start_world) [])
    as (border & content & piece & Hrun & _ & _ & _ & Hpiece).
  - split; [reflexivity | repeat constructor].
  - exists ([] ++ border ++ content ++ piece). split; [exact Hrun |].
    apply in_or_app. right. apply in_or_app. right. apply in_or_app. right.
    apply Hpiece. exists (Tetromino.mk Shape.O 0 4 0), O, O.
    split; [reflexivity |].
    split.
    { exists "OO"%string, "O"%char.
      split; [reflexivity | split; [reflexivity | discriminate]]. }
    split; [simpl; lia |]. split; [simpl; lia |].
    reflexivity.
Defined.
